(** * NeuronOS: tool registry, hardware probe, model scoring and the
      scalar I2_S kernels, embedded from the C sources.

    Conventions of the embedding.
    - A C [int]/[int64_t]/[uint8_t] is a [Z]; where the source can leave the
      range of the type the wrap-around is written out ([wrap32], [wrap64],
      [u8]).
    - A pointer that the source tests against NULL is an [option].
    - A [char *] is a [string]; [strcmp (a, b) == 0] is string equality and
      [strstr (h, n) != NULL] is a substring search.
    - A [float] is an IEEE binary32 value and a [double] an IEEE binary64
      value ([spec_float] with [prec = 24, emax = 128], resp.
      [prec = 53, emax = 1024]); all operations round to nearest even.
      Every [float] expression is evaluated in [float], every [double]
      expression in [double], one rounding per operation (no contraction
      into fused multiply-add, no excess precision).
    - Heap allocation ([calloc], [malloc], [strdup]) is assumed to succeed
      unless the function takes an explicit flag for it.
    - Behaviour that C leaves undefined is an explicit error value. *)

From Stdlib Require Import ZArith Lia Bool List String Ascii.
From Stdlib Require Import SpecFloat.
From stdpp Require Import base list strings pretty.

Local Open Scope Z_scope.

(* ===================================================================== *)
(** * Part I. The embedding                                               *)
(* ===================================================================== *)

(** ** Machine integers *)

Definition wrap_signed (bits : Z) (z : Z) : Z :=
  (z + 2 ^ (bits - 1)) mod 2 ^ bits - 2 ^ (bits - 1).

Definition wrap32 (z : Z) : Z := wrap_signed 32 z.
Definition wrap64 (z : Z) : Z := wrap_signed 64 z.
Definition u8 (z : Z) : Z := z mod 256.

Definition INT32_MIN : Z := - 2 ^ 31.
Definition INT32_MAX : Z := 2 ^ 31 - 1.
Definition INT64_MIN : Z := - 2 ^ 63.
Definition INT64_MAX : Z := 2 ^ 63 - 1.

Definition in_int8 (z : Z) : Prop := -128 <= z <= 127.
Definition in_uint8 (z : Z) : Prop := 0 <= z <= 255.
Definition in_int32 (z : Z) : Prop := INT32_MIN <= z <= INT32_MAX.
Definition in_int64 (z : Z) : Prop := INT64_MIN <= z <= INT64_MAX.

(** ** Characters that cannot be written inside a string literal *)

Definition DQ : string := String (ascii_of_nat 34) EmptyString.

(** [for (int i = lo; i < lo + n; i++) if (p i) return i;] *)
Fixpoint scan_from (p : nat -> bool) (i n : nat) : option nat :=
  match n with
  | O => None
  | S n' => if p i then Some i else scan_from p (S i) n'
  end.

(* --------------------------------------------------------------------- *)
(** ** neuronos_tool_registry.c                                           *)
(* --------------------------------------------------------------------- *)

Module ToolRegistry.

Definition NEURONOS_MAX_TOOLS : Z := 64.

(** The executors are C functions reached through a function pointer.
    The four built-in ones are named; any other one is [extern_fn]. *)
Inductive exec_fn : Type :=
| tool_shell
| tool_read_file
| tool_write_file
| tool_calculate
| extern_fn (id : nat).

(** [neuronos_tool_result_t]; [result = {0}] is [result_zero]. *)
Record tool_result : Type := mk_result {
  success : bool;
  output : option string;
  error : option string
}.

Definition result_zero : tool_result :=
  {| success := false; output := None; error := None |}.

(** [neuronos_tool_desc_t]. [user_data] is an opaque address. *)
Record tool_desc : Type := mk_desc {
  name : option string;
  description : option string;
  args_schema_json : option string;
  execute : option exec_fn;
  user_data : Z;
  required_caps : Z
}.

(** A slot of the [calloc]ed array: all fields zero. *)
Definition desc_zero : tool_desc :=
  {| name := None; description := None; args_schema_json := None;
     execute := None; user_data := 0; required_caps := 0 |}.

(** [struct neuronos_tool_reg]. *)
Record tool_reg : Type := mk_reg {
  tools : list tool_desc;
  count : Z
}.

(** [neuronos_tool_registry_create]: [calloc (1, sizeof ...)], which
    yields NULL when the allocation fails. *)
Definition neuronos_tool_registry_create (calloc_ok : bool) : option tool_reg :=
  if calloc_ok
  then Some {| tools := replicate (Z.to_nat NEURONOS_MAX_TOOLS) desc_zero;
               count := 0 |}
  else None.

(** [strcmp (reg->tools[i].name, nm) == 0]. A slot outside the array or
    with a NULL name never compares equal. *)
Definition name_at (r : tool_reg) (nm : string) (i : nat) : bool :=
  match tools r !! i with
  | Some t =>
      match name t with
      | Some s => String.eqb s nm
      | None => false
      end
  | None => false
  end.

(** [for (int i = 0; i < reg->count; i++) if (strcmp (...) == 0) ...]:
    the first index below [count] whose name equals [nm]. *)
Definition find_tool (r : tool_reg) (nm : string) : option nat :=
  scan_from (name_at r nm) 0 (Z.to_nat (count r)).

(** [neuronos_tool_register]. The result is the registry after the call
    (the pointer itself never changes) and the returned status. *)
Definition neuronos_tool_register (reg : option tool_reg) (desc : option tool_desc)
  : option tool_reg * Z :=
  match reg, desc with
  | Some r, Some d =>
      match name d, execute d with
      | Some nm, Some _ =>
          if NEURONOS_MAX_TOOLS <=? count r then (reg, -1)
          else
            match find_tool r nm with
            | Some _ => (reg, -1)
            | None =>
                (Some {| tools := <[Z.to_nat (count r) := d]> (tools r);
                         count := count r + 1 |}, 0)
            end
      | _, _ => (reg, -1)
      end
  | _, _ => (reg, -1)
  end.

(** What a call of [neuronos_tool_execute] does: it returns a result it
    built itself, or it returns whatever the executor [f] returns when
    called with [(args, user_data)]. Calling through a NULL function
    pointer is undefined. *)
Inductive outcome : Type :=
| Ret (r : tool_result)
| Call (f : exec_fn) (args : string) (ud : Z)
| Undefined.

Definition neuronos_tool_execute
  (reg : option tool_reg) (tool_name : option string) (args_json : option string)
  : outcome :=
  match reg, tool_name with
  | Some r, Some nm =>
      match find_tool r nm with
      | Some i =>
          match tools r !! i with
          | Some t =>
              match execute t with
              | Some f =>
                  Call f (match args_json with Some a => a | None => "{}"%string end)
                       (user_data t)
              | None => Undefined
              end
          | None => Undefined
          end
      | None =>
          Ret {| success := false; output := None;
                 error := Some "Tool not found"%string |}
      end
  | _, _ =>
      Ret {| success := false; output := None;
             error := Some "Invalid arguments"%string |}
  end.

(** The executor behind an outcome, if one is called. *)
Definition invoked (o : outcome) : option exec_fn :=
  match o with
  | Call f _ _ => Some f
  | _ => None
  end.

Definition neuronos_tool_count (reg : option tool_reg) : Z :=
  match reg with
  | Some r => count r
  | None => 0
  end.

Definition neuronos_tool_name (reg : option tool_reg) (index : Z) : option string :=
  match reg with
  | Some r =>
      if (index <? 0) || (count r <=? index) then None
      else
        match tools r !! Z.to_nat index with
        | Some t => name t
        | None => None
        end
  | None => None
  end.

(** *** GBNF rule for the tool names *)

(** The output buffer of [neuronos_tool_grammar_names]: the text written
    so far (up to the terminating NUL) and the running [len]. *)
Record sbuf : Type := mk_sbuf {
  sb_text : string;
  sb_len : Z
}.

Definition strlen (s : string) : Z := Z.of_nat (String.length s).

Definition str_take (n : Z) (s : string) : string :=
  String.substring 0 (Z.to_nat n) s.

(** [len += (size_t) snprintf (buf + len, cap - len, "%s", s)].
    [snprintf] stores at most [cap - len - 1] characters and a NUL, stores
    nothing when the size is 0, and returns the untruncated length. When
    [len > cap] the unsigned size wraps and the write leaves the buffer. *)
Definition snprintf_at (cap : Z) (b : sbuf) (s : string) : option sbuf :=
  if cap <? sb_len b then None
  else if cap =? sb_len b then
    Some {| sb_text := sb_text b; sb_len := sb_len b + strlen s |}
  else
    Some {| sb_text := sb_text b +:+ str_take (cap - sb_len b - 1) s;
            sb_len := sb_len b + strlen s |}.

Definition name_or_undefined (r : tool_reg) (i : nat) : option string :=
  match tools r !! i with
  | Some t => name t
  | None => None
  end.

(** One round of the loop over the tools. *)
Definition grammar_step (cap : Z) (r : tool_reg) (i : nat) (b : sbuf) : option sbuf :=
  b1 ← (if decide (i = O) then Some b else snprintf_at cap b " | ");
  b2 ← snprintf_at cap b1 (DQ +:+ "\" +:+ DQ);
  nm ← name_or_undefined r i;
  b3 ← snprintf_at cap b2 nm;
  snprintf_at cap b3 ("\" +:+ DQ +:+ DQ).

Fixpoint grammar_loop (cap : Z) (r : tool_reg) (i n : nat) (b : sbuf) : option sbuf :=
  match n with
  | O => Some b
  | S n' => b' ← grammar_step cap r i b; grammar_loop cap r (S i) n' b'
  end.

Definition noop_rule : string :=
  "tool-name ::= " +:+ DQ +:+ "\" +:+ DQ +:+ "noop\" +:+ DQ +:+ DQ.

(** [neuronos_tool_grammar_names]; [None] is undefined behaviour. *)
Definition neuronos_tool_grammar_names (reg : option tool_reg) : option string :=
  match reg with
  | None => Some noop_rule
  | Some r =>
      if count r =? 0 then Some noop_rule
      else
        let cap := 256 + count r * 40 in
        b0 ← snprintf_at cap {| sb_text := EmptyString; sb_len := 0 |} "tool-name ::= ";
        b ← grammar_loop cap r 0 (Z.to_nat (count r)) b0;
        Some (sb_text b)
  end.

(** *** Built-in tools *)

(** [q s] is [s] between double quotes, as in a JSON text. *)
Definition q (s : string) : string := DQ +:+ s +:+ DQ.

Definition schema_shell : string :=
  "{" +:+ q "type" +:+ ":" +:+ q "object" +:+ "," +:+ q "properties" +:+ ":{"
  +:+ q "command" +:+ ":{" +:+ q "type" +:+ ":" +:+ q "string" +:+ ","
  +:+ q "description" +:+ ":" +:+ q "The shell command to execute" +:+ "}},"
  +:+ q "required" +:+ ":[" +:+ q "command" +:+ "]}".

Definition schema_read_file : string :=
  "{" +:+ q "type" +:+ ":" +:+ q "object" +:+ "," +:+ q "properties" +:+ ":{"
  +:+ q "path" +:+ ":{" +:+ q "type" +:+ ":" +:+ q "string" +:+ ","
  +:+ q "description" +:+ ":" +:+ q "File path to read" +:+ "}},"
  +:+ q "required" +:+ ":[" +:+ q "path" +:+ "]}".

Definition schema_write_file : string :=
  "{" +:+ q "type" +:+ ":" +:+ q "object" +:+ "," +:+ q "properties" +:+ ":{"
  +:+ q "path" +:+ ":{" +:+ q "type" +:+ ":" +:+ q "string" +:+ "},"
  +:+ q "content" +:+ ":{" +:+ q "type" +:+ ":" +:+ q "string" +:+ "}},"
  +:+ q "required" +:+ ":[" +:+ q "path" +:+ "," +:+ q "content" +:+ "]}".

Definition schema_calculate : string :=
  "{" +:+ q "type" +:+ ":" +:+ q "object" +:+ "," +:+ q "properties" +:+ ":{"
  +:+ q "expression" +:+ ":{" +:+ q "type" +:+ ":" +:+ q "string" +:+ ","
  +:+ q "description" +:+ ":" +:+ q "Math expression, e.g. 2+2, sqrt(144)" +:+ "}},"
  +:+ q "required" +:+ ":[" +:+ q "expression" +:+ "]}".

Section Defaults.
(** The capability bits are declared in [neuronos/neuronos.h], which is
    not part of the sources at hand; they are parameters here. *)
Variables NEURONOS_CAP_SHELL NEURONOS_CAP_FILESYSTEM : Z.

Definition desc_shell : tool_desc :=
  {| name := Some "shell"%string;
     description := Some "Execute a shell command and return its output."%string;
     args_schema_json := Some schema_shell;
     execute := Some tool_shell;
     user_data := 0;
     required_caps := NEURONOS_CAP_SHELL |}.

Definition desc_read : tool_desc :=
  {| name := Some "read_file"%string;
     description := Some "Read the contents of a file (max 32KB)."%string;
     args_schema_json := Some schema_read_file;
     execute := Some tool_read_file;
     user_data := 0;
     required_caps := NEURONOS_CAP_FILESYSTEM |}.

Definition desc_write : tool_desc :=
  {| name := Some "write_file"%string;
     description := Some "Write content to a file."%string;
     args_schema_json := Some schema_write_file;
     execute := Some tool_write_file;
     user_data := 0;
     required_caps := NEURONOS_CAP_FILESYSTEM |}.

Definition desc_calc : tool_desc :=
  {| name := Some "calculate"%string;
     description := Some "Evaluate a mathematical expression (uses bc)."%string;
     args_schema_json := Some schema_calculate;
     execute := Some tool_calculate;
     user_data := 0;
     required_caps := 0 |}.

(** [if (neuronos_tool_register (reg, &desc) == 0) registered++;] *)
Definition register_counting (st : option tool_reg * Z) (d : tool_desc)
  : option tool_reg * Z :=
  let '(reg, registered) := st in
  let '(reg', rc) := neuronos_tool_register reg (Some d) in
  (reg', if rc =? 0 then registered + 1 else registered).

(** [neuronos_tool_register_defaults]. *)
Definition neuronos_tool_register_defaults
  (reg : option tool_reg) (allowed_caps : Z) : option tool_reg * Z :=
  match reg with
  | None => (None, -1)
  | Some _ =>
      let st0 := (reg, 0) in
      let st1 :=
        if negb (Z.land allowed_caps NEURONOS_CAP_SHELL =? 0)
        then register_counting st0 desc_shell
        else st0 in
      let st2 :=
        if negb (Z.land allowed_caps NEURONOS_CAP_FILESYSTEM =? 0)
        then register_counting (register_counting st1 desc_read) desc_write
        else st1 in
      register_counting st2 desc_calc
  end.
End Defaults.

End ToolRegistry.

(* --------------------------------------------------------------------- *)
(** ** IEEE arithmetic of [float] and [double]                            *)
(* --------------------------------------------------------------------- *)

(** [(float) z] for an integer [z], and the [float] literals. *)
Definition f32_of_Z (z : Z) : spec_float := binary_normalize 24 128 z 0 false.

Definition f32_add : spec_float -> spec_float -> spec_float := SFadd 24 128.
Definition f32_mul : spec_float -> spec_float -> spec_float := SFmul 24 128.
Definition f32_div : spec_float -> spec_float -> spec_float := SFdiv 24 128.
Definition f64_mul : spec_float -> spec_float -> spec_float := SFmul 53 1024.

(** Conversion between the two formats: [(double) x] and [(float) x]. *)
Definition convert (prec emax : Z) (x : spec_float) : spec_float :=
  match x with
  | S754_finite s m e => binary_normalize prec emax (cond_Zopp s (Zpos m)) e s
  | _ => x
  end.

Definition f64_of_f32 : spec_float -> spec_float := convert 53 1024.
Definition f32_of_f64 : spec_float -> spec_float := convert 24 128.

(** [a < b] and [a > b] of C: false as soon as one side is a NaN. *)
Definition flt (a b : spec_float) : bool := SFltb a b.
Definition fgt (a b : spec_float) : bool := SFltb b a.

Definition fzero : spec_float := S754_zero false.

(** The [double] literal [1e-6], i.e. 0x3EB0C6F7A0B5ED8D. *)
Definition lit_1e_6 : spec_float := S754_finite false 4722366482869645 (-72).

(** [for (i = lo; i < lo + n; i++) s = body (i, s);] where the body may
    run into undefined behaviour. *)
Fixpoint for_loop {St : Type} (body : Z -> St -> option St) (i : Z) (n : nat) (s : St)
  : option St :=
  match n with
  | O => Some s
  | S n' => s' ← body i s; for_loop body (i + 1) n' s'
  end.

(** [a[i]] as an rvalue: undefined outside the object. *)
Definition read {A : Type} (a : list A) (i : Z) : option A :=
  if i <? 0 then None else a !! Z.to_nat i.

(** [a[i] = v]: undefined outside the object. *)
Definition write {A : Type} (a : list A) (i : Z) (v : A) : option (list A) :=
  if (i <? 0) || (Z.of_nat (length a) <=? i) then None
  else Some (<[Z.to_nat i := v]> a).

(* --------------------------------------------------------------------- *)
(** ** hal_scalar.c                                                       *)
(* --------------------------------------------------------------------- *)

Module HalScalar.

Definition SCALAR_QK_I2_S : Z := 128.

(** [uint8_t raw = (byte >> (6 - 2 * group_idx)) & 0x03;] *)
Definition unpack_raw (byte group_idx : Z) : Z :=
  Z.land (Z.shiftr byte (6 - 2 * group_idx)) 3.

(** The loop over [j] of [scalar_vec_dot_i2_i8]; [packed] and [yi] are
    offsets into [x] and [y]. *)
Definition dot_block (x y : list Z) (packed yi : Z) (sum : Z) : option Z :=
  for_loop
    (fun j sum =>
       let group_idx := Z.quot j 32 in
       let group_pos := Z.rem j 32 in
       byte ← read x (packed + group_pos);
       a ← read y (yi + j);
       Some (wrap32 (sum + unpack_raw byte group_idx * a)))
    0 (Z.to_nat SCALAR_QK_I2_S) sum.

(** The loop over [block]. *)
Definition dot_row (x y : list Z) (x_row : Z) (nb : Z) : option Z :=
  for_loop
    (fun block sum =>
       dot_block x y (x_row + block * 32) (block * SCALAR_QK_I2_S) sum)
    0 (Z.to_nat nb) 0.

(** [scalar_vec_dot_i2_i8]. [vx] is the weight buffer, [vy] the
    activation vector, [s] the output array; the result is the output
    array after the call. [bs] and [by_] are not used by the source. *)
Definition scalar_vec_dot_i2_i8
  (n : Z) (s : list spec_float) (bs : Z) (vx : list Z) (bx : Z)
  (vy : list Z) (by_ : Z) (nrc : Z) : option (list spec_float) :=
  let nb := Z.quot n SCALAR_QK_I2_S in
  for_loop
    (fun row s =>
       let x_row := row * Z.quot bx 4 in
       sum ← dot_row vx vy x_row nb;
       write s row (f32_of_Z sum))
    0 (Z.to_nat nrc) s.

(** Step 1 of [scalar_quantize_i2]: the largest absolute value. *)
Definition max_abs_loop (src : list spec_float) (n : Z) : option spec_float :=
  for_loop
    (fun i max_val =>
       w ← read src i;
       let abs_val := SFabs (f64_of_f32 w) in
       Some (if fgt abs_val max_val then abs_val else max_val))
    0 (Z.to_nat n) fzero.

(** Step 2, one weight. *)
Definition quantize_one (i2_scale : spec_float) (w : spec_float) : Z :=
  if flt (SFabs (f64_of_f32 w)) lit_1e_6 then 1
  else if fgt (f64_mul (f64_of_f32 w) i2_scale) fzero then 2 else 0.

Definition quantize_loop (src : list spec_float) (n : Z) (i2_scale : spec_float)
  : option (list Z) :=
  for_loop
    (fun i q8 =>
       w ← read src i;
       write q8 i (quantize_one i2_scale w))
    0 (Z.to_nat n) (replicate (Z.to_nat n) 0).

(** Step 3, the loop over [j] for block [blk]:
    [out[blk * 32 + group_pos] |= (val << (6 - 2 * group_idx));] *)
Definition pack_block (q8 : list Z) (blk : Z) (out : list Z) : option (list Z) :=
  for_loop
    (fun j out =>
       let group_idx := Z.quot j 32 in
       let group_pos := Z.rem j 32 in
       val ← read q8 (blk * SCALAR_QK_I2_S + j);
       old ← read out (blk * 32 + group_pos);
       write out (blk * 32 + group_pos)
             (u8 (Z.lor old (Z.shiftl val (6 - 2 * group_idx)))))
    0 (Z.to_nat SCALAR_QK_I2_S) out.

Definition pack_loop (q8 : list Z) (n : Z) : option (list Z) :=
  for_loop (fun blk out => pack_block q8 blk out)
           0 (Z.to_nat (Z.quot n SCALAR_QK_I2_S))
           (replicate (Z.to_nat (Z.quot n 4)) 0).

(** What [scalar_quantize_i2] leaves behind: nothing when [malloc]
    failed, else the [n / 4] packed bytes at [dst], the [float] stored at
    byte offset [n / 4] of [dst], and the returned size. *)
Inductive quant_result : Type :=
| QNoMem (ret : Z)
| QDone (packed : list Z) (scale_offset : Z) (scale : spec_float) (ret : Z).

Definition scalar_quantize_i2
  (malloc_ok : bool) (src : list spec_float) (nrow n_per_row : Z)
  : option quant_result :=
  let n := wrap64 (nrow * n_per_row) in
  max_val ← max_abs_loop src n;
  let i2_scale := max_val in
  if negb malloc_ok then Some (QNoMem 0)
  else if n <? 0 then None
  else
    q8 ← quantize_loop src n i2_scale;
    out ← pack_loop q8 n;
    Some (QDone out (Z.quot n 4) (f32_of_f64 i2_scale) (Z.quot n 4 + 32)).

End HalScalar.

(* --------------------------------------------------------------------- *)
(** ** Hardware detection and model scoring                               *)
(* --------------------------------------------------------------------- *)

Module HwDetect.

(** The branch of the conditional compilation that is active. *)
Inductive platform : Type := Linux | Apple | Win32 | Posix.

(** What the operating system reports. The [meminfo_*] fields are the
    values of [read_meminfo_kb] (an [int64_t], 0 when the key is absent),
    [memsize] is the [int64_t] filled by [sysctlbyname], [ull*] are the
    unsigned 64-bit fields of [MEMORYSTATUSEX], [pages] and [page_size]
    the [long] results of [sysconf]. *)
Record os_report : Type := mk_os {
  meminfo_MemTotal : Z;
  meminfo_MemAvailable : Z;
  meminfo_MemFree : Z;
  meminfo_Buffers : Z;
  meminfo_Cached : Z;
  memsize : Z;
  ullTotalPhys : Z;
  ullAvailPhys : Z;
  pages : Z;
  page_size : Z
}.

(** The memory fields of [neuronos_hw_info_t]. *)
Record hw_info : Type := mk_hw {
  ram_total_mb : Z;
  ram_available_mb : Z;
  model_budget_mb : Z
}.

(** The RAM section of [neuronos_detect_hardware]: total and available. *)
Definition detect_ram (p : platform) (os : os_report) : Z * Z :=
  match p with
  | Linux =>
      let total := Z.quot (meminfo_MemTotal os) 1024 in
      let avail := Z.quot (meminfo_MemAvailable os) 1024 in
      if avail <=? 0
      then (total,
            Z.quot (wrap64 (wrap64 (meminfo_MemFree os + meminfo_Buffers os)
                            + meminfo_Cached os)) 1024)
      else (total, avail)
  | Apple =>
      let total := Z.quot (memsize os) (1024 * 1024) in
      (total, Z.quot (wrap64 (total * 60)) 100)
  | Win32 =>
      (wrap64 (ullTotalPhys os / (1024 * 1024)),
       wrap64 (ullAvailPhys os / (1024 * 1024)))
  | Posix =>
      let total :=
        if (0 <? pages os) && (0 <? page_size os)
        then Z.quot (wrap64 (pages os * page_size os)) (1024 * 1024)
        else 2048 in
      (total, Z.quot (wrap64 (total * 50)) 100)
  end.

(** The model-budget section:
    [budget = available - 500; if (budget < 256) budget = 256;] *)
Definition budget_of (avail : Z) : Z :=
  let b := wrap64 (avail - 500) in
  if b <? 256 then 256 else b.

(** [neuronos_detect_hardware], memory fields. *)
Definition neuronos_detect_hardware (p : platform) (os : os_report) : hw_info :=
  let '(total, avail) := detect_ram p os in
  {| ram_total_mb := total;
     ram_available_mb := avail;
     model_budget_mb := budget_of avail |}.

(** The report is well-typed: every field is in the range of its C type. *)
Definition os_report_ok (os : os_report) : Prop :=
  in_int64 (meminfo_MemTotal os) /\ in_int64 (meminfo_MemAvailable os) /\
  in_int64 (meminfo_MemFree os) /\ in_int64 (meminfo_Buffers os) /\
  in_int64 (meminfo_Cached os) /\ in_int64 (memsize os) /\
  0 <= ullTotalPhys os < 2 ^ 64 /\ 0 <= ullAvailPhys os < 2 ^ 64 /\
  in_int64 (pages os) /\ in_int64 (page_size os).

End HwDetect.

Module ModelSelect.
Import HwDetect.

(** [neuronos_model_entry_t]. *)
Record model_entry : Type := mk_entry {
  path : string;
  name : string;
  file_size_mb : Z;
  est_ram_mb : Z;
  n_params_est : Z;
  fits_in_ram : bool;
  score : spec_float
}.

(** [strstr (h, n)]: the suffix of [h] that starts at the first
    occurrence of [n], NULL ([None]) when there is none. *)
Fixpoint strstr (h n : string) : option string :=
  if String.prefix n h then Some h
  else
    match h with
    | EmptyString => None
    | String _ h' => strstr h' n
    end.

(** A pointer used as a condition. *)
Definition nonnull {A : Type} (p : option A) : bool :=
  match p with Some _ => true | None => false end.

(** [estimate_ram_needed] and [estimate_params]. *)
Definition estimate_ram_needed (file_size_mb_val : Z) : Z :=
  wrap64 (wrap64 (file_size_mb_val + Z.quot (wrap64 (file_size_mb_val * 30)) 100) + 100).

Definition estimate_params (file_size_mb_val : Z) : Z :=
  wrap64 (Z.quot (wrap64 (wrap64 (file_size_mb_val * 1024) * 1024)) 35 * 100).

(** [score_model]. *)
Definition score_model (entry : model_entry) (hw : hw_info) : spec_float :=
  let score := fzero in
  if model_budget_mb hw <? est_ram_mb entry then f32_of_Z (-1)
  else
    let score := f32_add score (f32_of_Z 1000) in
    let params_b := Z.quot (n_params_est entry) 1000000000 in
    let score :=
      if 8 <=? params_b then f32_add score (f32_of_Z 100)
      else if 4 <=? params_b then f32_add score (f32_of_Z 80)
      else if 2 <=? params_b then f32_add score (f32_of_Z 60)
      else if 1 <=? params_b then f32_add score (f32_of_Z 30)
      else f32_add score (f32_of_Z 10) in
    let headroom :=
      f32_div (f32_of_Z (wrap64 (model_budget_mb hw - est_ram_mb entry)))
              (f32_of_Z (model_budget_mb hw)) in
    let score := f32_add score (f32_mul headroom (f32_of_Z 50)) in
    let score :=
      if nonnull (strstr (name entry) "i2_s") || nonnull (strstr (name entry) "I2_S")
         || nonnull (strstr (name entry) "1.58")
         || nonnull (strstr (name entry) "bitnet")
         || nonnull (strstr (name entry) "BitNet")
      then f32_add score (f32_of_Z 25) else score in
    let score :=
      if nonnull (strstr (name entry) "nstruct") || nonnull (strstr (name entry) "chat")
         || nonnull (strstr (name entry) "Chat")
      then f32_add score (f32_of_Z 15) else score in
    score.

End ModelSelect.

(* ===================================================================== *)
(** * Part II. Definitions used to state the properties                   *)
(* ===================================================================== *)

Module RegistrySpec.
Import ToolRegistry.

(** A sequence of [neuronos_tool_register] calls on the same registry. *)
Definition register_all (reg : option tool_reg) (ds : list (option tool_desc))
  : option tool_reg :=
  fold_left (fun r d => fst (neuronos_tool_register r d)) ds reg.

(** Slot [i] is in use and holds [t]. *)
Definition registered (r : tool_reg) (i : nat) (t : tool_desc) : Prop :=
  Z.of_nat i < count r /\ tools r !! i = Some t.

(** The slots in use are inside the array and carry a name and an
    executor; names in use are pairwise distinct. *)
Record reg_inv (r : tool_reg) : Prop := mk_reg_inv {
  inv_count : 0 <= count r <= NEURONOS_MAX_TOOLS;
  inv_length : length (tools r) = Z.to_nat NEURONOS_MAX_TOOLS;
  inv_used : forall i t, registered r i t -> name t <> None /\ execute t <> None;
  inv_distinct : forall i j ti tj,
      registered r i ti -> registered r j tj -> name ti = name tj -> i = j
}.

(** The names of the slots in use, in slot order. *)
Definition names_in_use (r : tool_reg) : list (option string) :=
  map name (take (Z.to_nat (count r)) (tools r)).

(** The text of the rule [tool-name ::= ...] for a list of names. *)
Definition quoted_name (nm : string) : string :=
  DQ +:+ "\" +:+ DQ +:+ nm +:+ "\" +:+ DQ +:+ DQ.

Fixpoint tail_alternatives (l : list string) : string :=
  match l with
  | [] => EmptyString
  | a :: l' => " | " +:+ quoted_name a +:+ tail_alternatives l'
  end.

Definition alternatives (l : list string) : string :=
  match l with
  | [] => EmptyString
  | a :: l' => quoted_name a +:+ tail_alternatives l'
  end.

Definition rule_of_names (l : list string) : string :=
  "tool-name ::= " +:+ alternatives l.

(** A buffer whose [len] is the length of its text: nothing was cut. *)
Definition exact_buf (t : string) : sbuf := {| sb_text := t; sb_len := strlen t |}.

(** The separator written before the name of slot [i]. *)
Definition separator (i : nat) : string :=
  if decide (i = O) then EmptyString else " | "%string.

(** Sample registries. *)
Definition two_tools : tool_reg :=
  {| tools := [desc_calc; desc_shell 4] ++ replicate 62 desc_zero; count := 2 |}.

Definition long_name : string := string_of_list_ascii (repeat "a"%char 279).

Definition one_long_name : tool_reg :=
  {| tools :=
       {| name := Some long_name; description := None; args_schema_json := None;
          execute := Some (extern_fn 0); user_data := 0; required_caps := 0 |}
         :: replicate 63 desc_zero;
     count := 1 |}.

(** One more character in the name. *)
Definition longer_name : string := String "a"%char long_name.

Definition one_longer_name : tool_reg :=
  {| tools :=
       {| name := Some longer_name; description := None; args_schema_json := None;
          execute := Some (extern_fn 0); user_data := 0; required_caps := 0 |}
         :: replicate 63 desc_zero;
     count := 1 |}.

Definition invalid_arguments : tool_result :=
  {| success := false; output := None; error := Some "Invalid arguments"%string |}.

(** The registry of the built-in tools for a mask of allowed capabilities. *)
Definition default_registry (cap_shell cap_filesystem allowed : Z) : option tool_reg :=
  fst (neuronos_tool_register_defaults cap_shell cap_filesystem
         (neuronos_tool_registry_create true) allowed).

(** The capability-gating rule of the specification for one call. *)
Definition gated_by (granted : Z) (t : tool_desc) (o : outcome) : Prop :=
  invoked o = execute t <-> Z.land granted (required_caps t) = required_caps t.

End RegistrySpec.

Module KernelSpec.
Import HalScalar.

(** [zsum f i n] is the sum of [f k] for [i <= k < i + n]. *)
Fixpoint zsum (f : Z -> Z) (i : Z) (n : nat) : Z :=
  match n with
  | O => 0
  | S n' => f i + zsum f (i + 1) n'
  end.

(** Element [i] of a buffer, 0 outside of it. *)
Definition at_ (a : list Z) (i : Z) : Z := default 0 (read a i).

(** The raw 2-bit code of weight [i] of the row that starts at byte
    [x_row]: block [i / 128], index [j = i mod 128] inside the block, byte
    [j mod 32] of the block, bits [6 - 2 * (j / 32)] and the one above. *)
Definition raw_code (x : list Z) (x_row i : Z) : Z :=
  let j := i mod 128 in
  (at_ x (x_row + (i / 128) * 32 + j mod 32) / 2 ^ (6 - 2 * (j / 32))) mod 4.

(** The integer dot product of the raw codes of a row with the activations. *)
Definition raw_dot (x y : list Z) (x_row n : Z) : Z :=
  zsum (fun i => raw_code x x_row i * at_ y i) 0 (Z.to_nat n).

(** The byte whose four 2-bit fields are [v0] (bits 7:6) to [v3] (bits 1:0). *)
Definition byte_of (v0 v1 v2 v3 : Z) : Z := v0 * 64 + v1 * 16 + v2 * 4 + v3.

(** Field [g] of byte [k] of block [blk] once the packing loop has handled
    the weights below [j]. *)
Definition field_upto (q8 : list Z) (blk j g k : Z) : Z :=
  if 32 * g + k <? j then at_ q8 (blk * 128 + (32 * g + k)) else 0.

(** Packing of one block: step 3 of [scalar_quantize_i2] for 128 raw values
    and a zeroed 32-byte output. *)
Definition pack (ws : list Z) : option (list Z) :=
  pack_block ws 0 (replicate 32 0).

(** Unpacking of one block: the loop over [j] of [scalar_vec_dot_i2_i8],
    collecting the raw values instead of accumulating them. *)
Definition unpack (packed : list Z) : option (list Z) :=
  for_loop
    (fun j ws =>
       let group_idx := Z.quot j 32 in
       let group_pos := Z.rem j 32 in
       byte ← read packed group_pos;
       Some (ws ++ [unpack_raw byte group_idx]))
    0 (Z.to_nat SCALAR_QK_I2_S) [].

(** The raw value of weight [j] of a packed block. *)
Definition unpack_at (packed : list Z) (j : Z) : Z :=
  unpack_raw (at_ packed (j mod 32)) (j / 32).

(** A byte all of whose four fields are codes in {0,1,2}. *)
Definition valid_codes (b : Z) : Prop :=
  0 <= b <= 255 /\ forall g, 0 <= g <= 3 -> unpack_raw b g <= 2.

(** Exhaustive checks over the (small) ranges of bytes and codes. *)
Definition check_fields : bool :=
  forallb (fun v0 => forallb (fun v1 => forallb (fun v2 => forallb (fun v3 =>
    (unpack_raw (byte_of v0 v1 v2 v3) 0 =? v0) && (unpack_raw (byte_of v0 v1 v2 v3) 1 =? v1)
    && (unpack_raw (byte_of v0 v1 v2 v3) 2 =? v2) && (unpack_raw (byte_of v0 v1 v2 v3) 3 =? v3))
    (seqZ 0 4)) (seqZ 0 4)) (seqZ 0 4)) (seqZ 0 4).

Definition check_or : bool :=
  forallb (fun a => forallb (fun b => forallb (fun c => forallb (fun v =>
    (u8 (Z.lor (byte_of 0 a b c) (Z.shiftl v 6)) =? byte_of v a b c)
    && (u8 (Z.lor (byte_of a 0 b c) (Z.shiftl v 4)) =? byte_of a v b c)
    && (u8 (Z.lor (byte_of a b 0 c) (Z.shiftl v 2)) =? byte_of a b v c)
    && (u8 (Z.lor (byte_of a b c 0) (Z.shiftl v 0)) =? byte_of a b c v))
    (seqZ 0 4)) (seqZ 0 4)) (seqZ 0 4)) (seqZ 0 4).

(** Sample data: the codes 0, 1, 2, 0, 1, 2, ... and 32 times the byte with
    the fields 2, 1, 0, 2. *)
Definition sample_codes : list Z := map (fun j => j mod 3) (seqZ 0 128).
Definition sample_bytes : list Z := replicate 32 (byte_of 2 1 0 2).

Definition check_bytes : bool :=
  forallb (fun b =>
    byte_of (unpack_raw b 0) (unpack_raw b 1) (unpack_raw b 2) (unpack_raw b 3) =? b)
    (seqZ 0 256).

End KernelSpec.

(** Case analysis on the integer equality tests of the goal. *)
Ltac decide_eqb :=
  repeat match goal with
    | |- context [?a =? ?b] =>
        let E := fresh "E" in
        destruct (a =? b) eqn:E; [apply Z.eqb_eq in E | apply Z.eqb_neq in E]; try lia
    end.

Module HwSpec.
Import HwDetect.

(** A sample report: 16 GiB of RAM of which 8 GiB are available. *)
Definition sample_report : os_report :=
  {| meminfo_MemTotal := 16777216; meminfo_MemAvailable := 8388608;
     meminfo_MemFree := 1048576; meminfo_Buffers := 0; meminfo_Cached := 0;
     memsize := 0; ullTotalPhys := 0; ullAvailPhys := 0; pages := 0; page_size := 0 |}.

End HwSpec.

Module ScoreSpec.
Import HwDetect ModelSelect.

(** [pat] occurs in [s] as a contiguous substring. *)
Definition contains (s pat : string) : Prop :=
  exists pre post, s = pre +:+ pat +:+ post.

(** The same, decided position by position. *)
Definition containsb (s pat : string) : bool :=
  existsb (fun i => String.eqb (String.substring i (String.length pat) s) pat)
          (seq 0 (S (String.length s))).

(** The quality tier by estimated parameters:
    below 1B: 10, 1-2B: 30, 2-4B: 60, 4-8B: 80, 8B and more: 100. *)
Definition quality_tier (params : Z) : Z :=
  if params <? 1000000000 then 10
  else if params <? 2000000000 then 30
  else if params <? 4000000000 then 60
  else if params <? 8000000000 then 80
  else 100.

Definition format_names : list string :=
  ["i2_s"; "I2_S"; "1.58"; "bitnet"; "BitNet"]%string.

(** The scoring rule, in [float] arithmetic, for a given list of name
    patterns that earn the instruct bonus. *)
Definition score_by_rule (instruct_names : list string)
  (e : model_entry) (hw : hw_info) : spec_float :=
  let budget := model_budget_mb hw in
  let est_ram := est_ram_mb e in
  if est_ram >? budget then f32_of_Z (-1)
  else
    let fits := f32_of_Z 1000 in
    let quality := f32_of_Z (quality_tier (n_params_est e)) in
    let headroom :=
      f32_mul (f32_div (f32_of_Z (budget - est_ram)) (f32_of_Z budget)) (f32_of_Z 50) in
    let s := f32_add (f32_add fits quality) headroom in
    let s := if existsb (containsb (name e)) format_names
             then f32_add s (f32_of_Z 25) else s in
    if existsb (containsb (name e)) instruct_names
    then f32_add s (f32_of_Z 15) else s.

(** The rule as the specification words it. *)
Definition score_spec : model_entry -> hw_info -> spec_float :=
  score_by_rule ["instruct"; "chat"; "Chat"]%string.

(** The rule with the pattern the source searches for. *)
Definition score_amended : model_entry -> hw_info -> spec_float :=
  score_by_rule ["nstruct"; "chat"; "Chat"]%string.

(** Sample inputs. *)
Definition entry_Instruct : model_entry :=
  {| path := "models/Falcon3-Instruct.gguf"; name := "Falcon3-Instruct";
     file_size_mb := 0; est_ram_mb := 100; n_params_est := 0;
     fits_in_ram := true; score := fzero |}.

Definition hw_200 : hw_info :=
  {| ram_total_mb := 1024; ram_available_mb := 700; model_budget_mb := 200 |}.

End ScoreSpec.

Module QuantSpec.
Import HalScalar KernelSpec.

(** [|w|] as the source computes it: [fabs ((double) w)]. *)
Definition abs64 (w : spec_float) : spec_float := SFabs (f64_of_f32 w).

(** A well-formed [float]. *)
Definition is_f32 (w : spec_float) : Prop := valid_binary 24 128 w = true.

(** The raw code of a weight: 1 for a weight below [1e-6] in magnitude,
    else 2 for a positive weight, else 0. *)
Definition ternary_code (w : spec_float) : Z :=
  if flt (abs64 w) lit_1e_6 then 1 else if fgt w fzero then 2 else 0.

(** The raw code as the specification words it: 2 below [1e-6]. *)
Definition ternary_code_spec (w : spec_float) : Z :=
  if flt (abs64 w) lit_1e_6 then 2 else if fgt w fzero then 2 else 0.

(** [m] is the largest [|w|] of the weights [ws]: it is one of them (or
    [+0] when none exceeds it) and none is greater. NaNs never count. *)
Definition is_max_abs (ws : list spec_float) (m : spec_float) : Prop :=
  m <> S754_nan /\
  (m = fzero \/ exists w, w ∈ ws /\ m = abs64 w) /\
  forall w, w ∈ ws -> flt m (abs64 w) = false.

(** The order of [SFcompare] on non-negative values, as a key. *)
Definition key (x : spec_float) : Z * Z * Z :=
  match x with
  | S754_zero _ => (0, 0, 0)
  | S754_finite _ m e => (1, e, Z.pos m)
  | S754_infinity _ => (2, 0, 0)
  | S754_nan => (3, 0, 0)
  end.

Definition key_lt (a b : Z * Z * Z) : Prop :=
  let '(c1, e1, m1) := a in
  let '(c2, e2, m2) := b in
  c1 < c2 \/ (c1 = c2 /\ (e1 < e2 \/ (e1 = e2 /\ m1 < m2))).

(** Not negative, and not a NaN. *)
Definition nonneg (x : spec_float) : Prop :=
  match x with
  | S754_zero false | S754_infinity false | S754_finite false _ _ => True
  | _ => False
  end.

(** Positive with an exponent that is at least the one of [1e-6]. *)
Definition big (x : spec_float) : Prop :=
  match x with
  | S754_infinity false => True
  | S754_finite false _ e => -72 <= e
  | _ => False
  end.

(** Sample weights: 126 times [3.0], then [-0.5] and [1e-7]. *)
Definition sample_weights : list spec_float :=
  replicate 126 (f32_of_Z 3)
  ++ [SFopp (f32_div (f32_of_Z 1) (f32_of_Z 2)); f32_div (f32_of_Z 1) (f32_of_Z 10000000)].

End QuantSpec.

(* ===================================================================== *)
(** * Part II (continued). Further functions of the sources               *)
(* ===================================================================== *)

(** ** neuronos_tool_registry.c: the description for the system prompt    *)

Module ToolPrompt.
Import ToolRegistry.

(** The newline character. *)
Definition NL : string := String (ascii_of_nat 10) EmptyString.

Definition no_tools : string := "No tools available." +:+ NL.

(** One round of the loop over the tools: ["- %s: %s"] with the name and
    the description (or ["No description"]), then [" Args schema: %s"]
    when the schema is not NULL, then the newline. A [%s] for a NULL name
    is undefined. *)
Definition prompt_step (cap : Z) (r : tool_reg) (i : nat) (b : sbuf) : option sbuf :=
  t ← tools r !! i;
  nm ← name t;
  b1 ← snprintf_at cap b
         ("- " +:+ nm +:+ ": " +:+ default "No description"%string (description t));
  b2 ← match args_schema_json t with
       | Some sch => snprintf_at cap b1 (" Args schema: " +:+ sch)
       | None => Some b1
       end;
  snprintf_at cap b2 NL.

Fixpoint prompt_loop (cap : Z) (r : tool_reg) (i n : nat) (b : sbuf) : option sbuf :=
  match n with
  | O => Some b
  | S n' => b' ← prompt_step cap r i b; prompt_loop cap r (S i) n' b'
  end.

(** [neuronos_tool_prompt_description]; [None] is undefined behaviour. *)
Definition neuronos_tool_prompt_description (reg : option tool_reg) : option string :=
  match reg with
  | None => Some no_tools
  | Some r =>
      if count r =? 0 then Some no_tools
      else
        let cap := 512 + count r * 256 in
        b0 ← snprintf_at cap {| sb_text := EmptyString; sb_len := 0 |}
                         ("Available tools:" +:+ NL);
        b ← prompt_loop cap r 0 (Z.to_nat (count r)) b0;
        Some (sb_text b)
  end.

End ToolPrompt.

(** ** C strings                                                          *)

(** A pointer into a string is the suffix of the string it points to.
    Strings are free of NUL characters. *)
Module CString.

Definition DQc : ascii := ascii_of_nat 34.
Definition BSc : ascii := ascii_of_nat 92.
Definition LFc : ascii := ascii_of_nat 10.
Definition CRc : ascii := ascii_of_nat 13.

(** [p + n], inside the string. *)
Fixpoint ptr_add (p : string) (n : nat) : string :=
  match n, p with
  | S n', String _ p' => ptr_add p' n'
  | _, _ => p
  end.

(** [strchr (s, c)] for a character [c] other than NUL. *)
Fixpoint strchr (s : string) (c : ascii) : option string :=
  match s with
  | EmptyString => None
  | String a s' => if Ascii.eqb a c then Some s else strchr s' c
  end.

(** The scan for the closing quote: starting with [e = s], as long as [e]
    points neither to the NUL nor to a double quote, step over a backslash
    and then, unless at the NUL, over one more character. The result is
    the distance [e - s]. *)
Fixpoint scan_value (s : string) : nat :=
  match s with
  | EmptyString => O
  | String c s' =>
      if Ascii.eqb c DQc then O
      else if Ascii.eqb c BSc then
        match s' with
        | EmptyString => 1%nat
        | String _ s'' => S (S (scan_value s''))
        end
      else S (scan_value s')
  end.

(** [memcpy (dst, p, n); dst[n] = '\0';] *)
Definition copy (p : string) (n : nat) : string := String.substring 0 n p.

(** [strrchr (s, c)] for a character [c] other than NUL. *)
Fixpoint strrchr (s : string) (c : ascii) : option string :=
  match s with
  | EmptyString => None
  | String a s' =>
      match strrchr s' c with
      | Some p => Some p
      | None => if Ascii.eqb a c then Some s else None
      end
  end.

(** [fgets (out, size, fp)] on a stream that still holds [s]: at most
    [size - 1] characters, up to and including the first newline; NULL at
    the end of the stream. *)
Fixpoint line_prefix (n : nat) (s : string) : string :=
  match n, s with
  | S n', String c s' =>
      String c (if Ascii.eqb c LFc then EmptyString else line_prefix n' s')
  | _, _ => EmptyString
  end.

Definition fgets (size : nat) (s : string) : option string :=
  match s with
  | EmptyString => None
  | _ => Some (line_prefix (size - 1) s)
  end.

Definition is_eol (c : option ascii) : bool :=
  match c with
  | Some c => Ascii.eqb c LFc || Ascii.eqb c CRc
  | None => false
  end.

(** The trimming loop: [len] is decremented as long as it is positive and
    [out[len - 1]] is a newline or a carriage return. *)
Fixpoint trim_len (out : string) (len : nat) : nat :=
  match len with
  | O => O
  | S l => if is_eol (String.get l out) then trim_len out l else len
  end.

End CString.

(** ** neuronos_tool_registry.c: the built-in tools                       *)

(** The tools reach the outside through [popen], [fopen] and the streams;
    these are parameters of the embedding:
    - [popen (cmd, "r")] is [None] when the call fails, else the text that
      the reads deliver up to the end of the stream, with the status that
      [pclose] returns where the source looks at it;
    - [fopen (path, "r")] is [None] when the call fails, else the stream:
      the position that [ftell] reports at its end and the bytes that the
      reads deliver;
    - [fopen (path, "w")] succeeds or not. *)
Module BuiltinTools.
Import ToolRegistry CString.

(** [result.success = false; result.error = strdup (msg); return result;] *)
Definition fail (msg : string) : tool_result :=
  {| success := false; output := None; error := Some msg |}.

(** The end of [tool_shell], once [popen] was called. *)
Definition shell_result (ran : option (string * Z)) : tool_result :=
  match ran with
  | None => fail "Failed to execute command"
  | Some (out_buf, status) =>
      {| success := status =? 0;
         output := Some out_buf;
         error := if status =? 0 then None
                  else Some ("Command exited with status " +:+ pretty status) |}
  end.

Definition tool_shell (popen : string -> option (string * Z)) (args_json : string)
  : tool_result :=
  match ModelSelect.strstr args_json (q "command") with
  | None => fail "Missing 'command' argument"
  | Some cmd_start =>
      match strchr (ptr_add cmd_start 9) DQc with
      | None => fail "Invalid 'command' format"
      | Some cmd_start =>
          let cmd_start := ptr_add cmd_start 1 in
          let cmd_len := scan_value cmd_start in
          shell_result (popen (copy cmd_start cmd_len))
      end
  end.

(** A stream opened for reading: what [ftell] reports after the [fseek]
    to the end (the size of a regular file; 0 for the files of /proc; -1
    when the stream cannot seek, as a FIFO), and the bytes that [fread]
    delivers from the start. *)
Record read_stream : Type := mk_read_stream {
  ftell_end : Z;
  bytes : string
}.

(** The end of [tool_read_file], once [fopen] was called:
    [fsize = ftell (fp); if (fsize > 32 * 1024) fsize = 32 * 1024;], a
    buffer of [(size_t) fsize + 1] bytes, [nread = fread (content, 1,
    (size_t) fsize, fp)] and [content[nread] = 0]. For a negative [fsize]
    the buffer has at most 0 bytes ([(size_t) -1 + 1] is 0), [fread] is
    given a size of about [SIZE_MAX], and the write of the final NUL
    alone leaves the buffer: undefined, [None]. Otherwise [fread] stores
    the first [fsize] bytes of the stream, or all of them when there are
    fewer. The allocation, which the code does not test, is taken to
    succeed. *)
Definition read_result (opened : option read_stream) : option tool_result :=
  match opened with
  | None => Some (fail "File not found or cannot read")
  | Some fp =>
      let fsize := ftell_end fp in
      let fsize := if 32 * 1024 <? fsize then 32 * 1024 else fsize in
      if fsize <? 0 then None
      else Some {| success := true; output := Some (str_take fsize (bytes fp));
                   error := None |}
  end.

Definition tool_read_file (fopen_r : string -> option read_stream) (args_json : string)
  : option tool_result :=
  match ModelSelect.strstr args_json (q "path") with
  | None => Some (fail "Missing 'path' argument")
  | Some path_start =>
      match strchr (ptr_add path_start 6) DQc with
      | None => Some (fail "Invalid 'path'")
      | Some path_start =>
          let path_start := ptr_add path_start 1 in
          match strchr path_start DQc with
          | None => Some (fail "Invalid 'path'")
          | Some path_end =>
              let path_len := (String.length path_start - String.length path_end)%nat in
              read_result (fopen_r (copy path_start path_len))
          end
      end
  end.

(** [tool_write_file]: the result and, when the file was opened, the path
    and the bytes written to it. *)
Definition tool_write_file (fopen_w : string -> bool) (args_json : string)
  : tool_result * option (string * string) :=
  match ModelSelect.strstr args_json (q "path") with
  | None => (fail "Missing 'path'", None)
  | Some path_start =>
      match strchr (ptr_add path_start 6) DQc with
      | None => (fail "Invalid 'path'", None)
      | Some path_start =>
          let path_start := ptr_add path_start 1 in
          match strchr path_start DQc with
          | None => (fail "Invalid 'path'", None)
          | Some path_end =>
              let path_len := (String.length path_start - String.length path_end)%nat in
              let path := copy path_start path_len in
              match ModelSelect.strstr args_json (q "content") with
              | None => (fail "Missing 'content'", None)
              | Some cnt_start =>
                  match strchr (ptr_add cnt_start 9) DQc with
                  | None => (fail "Invalid 'content'", None)
                  | Some cnt_start =>
                      let cnt_start := ptr_add cnt_start 1 in
                      let cnt_len := scan_value cnt_start in
                      let content := copy cnt_start cnt_len in
                      if fopen_w path
                      then ({| success := true;
                               output := Some "File written successfully"%string;
                               error := None |},
                            Some (path, content))
                      else (fail "Cannot write file", None)
                  end
              end
          end
      end
  end.

(** The output of [tool_calculate] for the text on the stream. *)
Definition calc_output (stream : string) : string :=
  match fgets 256 stream with
  | Some out => copy out (trim_len out (String.length out))
  | None => "0"%string
  end.

Definition calc_result (ran : option string) : tool_result :=
  match ran with
  | None => fail "bc not available"
  | Some stream => {| success := true; output := Some (calc_output stream); error := None |}
  end.

(** A string printed with the precision [(int) expr_len]: a negative
    precision counts as none. *)
Definition print_prec (prec : Z) (s : string) : string :=
  if prec <? 0 then s else str_take prec s.

Definition tool_calculate (popen : string -> option string) (args_json : string)
  : tool_result :=
  match ModelSelect.strstr args_json (q "expression") with
  | None => fail "Missing 'expression' argument"
  | Some expr_start =>
      match strchr (ptr_add expr_start 12) DQc with
      | None => fail "Invalid 'expression'"
      | Some expr_start =>
          let expr_start := ptr_add expr_start 1 in
          match strchr expr_start DQc with
          | None => fail "Invalid 'expression'"
          | Some expr_end =>
              let expr_len := (String.length expr_start - String.length expr_end)%nat in
              let cmd :=
                str_take (512 - 1)
                  ("echo '" +:+ print_prec (wrap32 (Z.of_nat expr_len)) expr_start
                   +:+ "' | bc -l 2>&1") in
              calc_result (popen cmd)
          end
      end
  end.

End BuiltinTools.

(** ** Model scanner and selection                                        *)

Module ModelScan.
Import HwDetect ModelSelect CString.

(** [extract_model_name (path, name, name_len)]: the text left in [name].
    With [name_len = 0] the copy leaves the buffer. *)
Definition extract_model_name (path : string) (name_len : Z) : option string :=
  let base :=
    match strrchr path "/" with
    | Some b => Some b
    | None => strrchr path "\"
    end in
  let base := match base with Some b => ptr_add b 1 | None => path end in
  let len := ToolRegistry.strlen base in
  let len :=
    if (5 <? len) && String.eqb (ptr_add base (Z.to_nat (len - 5))) ".gguf"
    then len - 5 else len in
  if name_len <=? 0 then None
  else
    let len := if name_len <=? len then name_len - 1 else len in
    Some (ToolRegistry.str_take len base).

(** [file_size_mb]: [st] is the size in bytes that [stat] reports, [None]
    when [stat] fails. *)
Definition file_size_mb_of (st : option Z) : Z :=
  match st with
  | Some st_size => Z.quot st_size (1024 * 1024)
  | None => 0
  end.

Section Entry.
(** The sizes of the [path] and [name] arrays of [neuronos_model_entry_t]
    are fixed in [neuronos/neuronos.h], which is not part of the sources
    at hand; they are parameters here. *)
Variables path_size name_size : Z.

(** The body of the loop of [scan_dir_recursive] for a regular file whose
    name ends in [.gguf]: the entry written to [entries[current_count]],
    which [calloc] had zeroed. *)
Definition scan_entry (hw : hw_info) (full_path : string) (st : option Z)
  : option model_entry :=
  nm ← extract_model_name full_path name_size;
  let size := file_size_mb_of st in
  let est := estimate_ram_needed size in
  let e :=
    {| path := if path_size <=? 0 then EmptyString
               else ToolRegistry.str_take (path_size - 1) full_path;
       name := nm;
       file_size_mb := size;
       est_ram_mb := est;
       n_params_est := estimate_params size;
       fits_in_ram := est <=? model_budget_mb hw;
       score := fzero |} in
  Some {| path := path e; name := name e; file_size_mb := file_size_mb e;
          est_ram_mb := est_ram_mb e; n_params_est := n_params_est e;
          fits_in_ram := fits_in_ram e; score := score_model e hw |}.
End Entry.

(** An element of the array that [calloc] returns: all fields zero. *)
Definition entry_zero : model_entry :=
  {| path := EmptyString; name := EmptyString; file_size_mb := 0; est_ram_mb := 0;
     n_params_est := 0; fits_in_ram := false; score := fzero |}.

(** [compare_models_desc]. *)
Definition compare_models_desc (ma mb : model_entry) : Z :=
  if fgt (score mb) (score ma) then 1
  else if flt (score mb) (score ma) then -1
  else 0.

(** The loop of [neuronos_model_select_best]: the index of the entry
    whose address is returned, if any; reading past the array is
    undefined. *)
Fixpoint select_from (entries : list model_entry) (i n : nat) : option (option nat) :=
  match n with
  | O => Some None
  | S n' =>
      e ← entries !! i;
      if fits_in_ram e && fgt (score e) fzero then Some (Some i)
      else select_from entries (S i) n'
  end.

(** [neuronos_model_select_best]. *)
Definition neuronos_model_select_best (entries : option (list model_entry)) (count : Z)
  : option (option nat) :=
  match entries with
  | None => Some None
  | Some es => if count =? 0 then Some None else select_from es 0 (Z.to_nat count)
  end.

End ModelScan.

(** ** The directory walk of the model scanner                           *)

(** What the calls of the walk return. A node is what [stat] reports for
    the path that the walk builds: nothing when [stat] fails, a directory
    with what [opendir] and [readdir] deliver for that path ([None] when
    [opendir] fails), a regular file with what the [stat] of
    [file_size_mb] reports as its size ([None] when that call fails), or
    something else. The tree is finite and does not change during the
    walk. *)
Inductive fs_node : Type :=
| FsNoStat
| FsOther
| FsReg (st_size : option Z)
| FsDir (listing : option (list (string * fs_node))).

Module DirScan.
Import HwDetect ModelSelect ModelScan CString.

(** [ent->d_name[0] == '.'] *)
Definition starts_with_dot (d_name : string) : bool :=
  match d_name with
  | String c _ => Ascii.eqb c "."
  | EmptyString => false
  end.

(** [name_len > 5 && strcmp (ent->d_name + name_len - 5, ".gguf") == 0] *)
Definition ends_with_gguf (d_name : string) : bool :=
  let name_len := ToolRegistry.strlen d_name in
  (5 <? name_len) && String.eqb (ptr_add d_name (Z.to_nat (name_len - 5))) ".gguf".

(** [snprintf (full_path, sizeof (full_path), "%s/%s", dir_path, ent->d_name)]
    with [char full_path[1024]]. *)
Definition join_path (dir_path d_name : string) : string :=
  ToolRegistry.str_take (1024 - 1) (dir_path +:+ "/" +:+ d_name).

Section Walk.
Variables path_size name_size : Z.
Variable hw : hw_info.
Variable max_entries : Z.

(** The [while] loop of [scan_dir_recursive] over what [readdir] still
    delivers; [recurse] is the function itself, called for a
    sub-directory. [None] is undefined behaviour. *)
Fixpoint scan_loop
  (recurse : fs_node -> string -> list model_entry -> Z -> option (list model_entry * Z))
  (dir_path : string) (l : list (string * fs_node))
  (entries : list model_entry) (current_count : Z)
  : option (list model_entry * Z) :=
  match l with
  | [] => Some (entries, current_count)
  | (d_name, child) :: l' =>
      if max_entries <=? current_count then Some (entries, current_count)
      else if starts_with_dot d_name then scan_loop recurse dir_path l' entries current_count
      else
        let full_path := join_path dir_path d_name in
        match child with
        | FsNoStat => scan_loop recurse dir_path l' entries current_count
        | FsDir _ =>
            match recurse child full_path entries current_count with
            | Some (entries', count') => scan_loop recurse dir_path l' entries' count'
            | None => None
            end
        | FsReg st_size =>
            if ends_with_gguf d_name
            then
              e ← scan_entry path_size name_size hw full_path st_size;
              entries' ← write entries current_count e;
              scan_loop recurse dir_path l' entries' (current_count + 1)
            else scan_loop recurse dir_path l' entries current_count
        | FsOther => scan_loop recurse dir_path l' entries current_count
        end
  end.

(** [scan_dir_recursive]: the array [entries] and [current_count] after
    the call (the returned value is the new [current_count]). [node] is
    what the directory path stands for. *)
Fixpoint scan_dir_recursive (node : fs_node) (dir_path : string)
  (entries : list model_entry) (current_count : Z) {struct node}
  : option (list model_entry * Z) :=
  match node with
  | FsDir (Some listing) =>
      scan_loop scan_dir_recursive dir_path listing entries current_count
  | _ => Some (entries, current_count)
  end.

End Walk.

Definition MAX_SCAN_MODELS : Z := 128.

Section Scan.
Variables path_size name_size : Z.
(** [qsort] with the comparison [compare_models_desc], as a function from
    the elements it is given to the elements it leaves. *)
Variable qsort : list model_entry -> list model_entry.

(** [neuronos_model_scan]: the array returned (or NULL) and the [int]
    behind [out_count] after the call. [root] is what [dir_path] stands
    for. *)
Definition neuronos_model_scan (calloc_ok : bool) (root : fs_node)
  (dir_path : option string) (hw : option hw_info) (out_count : option Z)
  : option (option (list model_entry) * option Z) :=
  match dir_path, hw, out_count with
  | Some dp, Some h, Some oc =>
      if negb calloc_ok then Some (None, Some oc)
      else
        match scan_dir_recursive path_size name_size h MAX_SCAN_MODELS root dp
                (replicate (Z.to_nat MAX_SCAN_MODELS) entry_zero) 0 with
        | None => None
        | Some (entries, count) =>
            if count =? 0 then Some (None, Some 0)
            else Some (Some (qsort (take (Z.to_nat count) entries)
                             ++ drop (Z.to_nat count) entries),
                       Some count)
        end
  | _, _, _ => Some (None, out_count)
  end.

End Scan.

End DirScan.

(** ** Hardware detection: the number of physical cores                   *)

Module HwCores.

(** [(double) z] for an integer [z]. *)
Definition f64_of_Z (z : Z) : spec_float := binary_normalize 53 1024 z 0 false.

(** The [double] literal [0.6], i.e. 0x3FE3333333333333. *)
Definition lit_0_6 : spec_float := S754_finite false 5404319552844595 (-53).

(** [(int) x] for a [double] [x]: the value with its fraction dropped;
    undefined when that is not an [int]. *)
Definition int_of_f64 (x : spec_float) : option Z :=
  match x with
  | S754_zero _ => Some 0
  | S754_finite s m e =>
      let t := cond_Zopp s (if 0 <=? e then Z.pos m * 2 ^ e else Z.pos m / 2 ^ (- e)) in
      if (INT32_MIN <=? t) && (t <=? INT32_MAX) then Some t else None
  | _ => None
  end.

(** [hw.n_cores_physical = hw.n_cores_logical > 8
       ? (int) (hw.n_cores_logical * 0.6) : hw.n_cores_logical;] *)
Definition n_cores_physical (n_cores_logical : Z) : option Z :=
  if 8 <? n_cores_logical
  then int_of_f64 (f64_mul (f64_of_Z n_cores_logical) lit_0_6)
  else Some n_cores_logical.

End HwCores.

(** ** hal_scalar.c: matrix-vector and matrix-matrix products             *)

Module HalGemv.
Import HalScalar.

(** A [size_t] value. *)
Definition size_t (z : Z) : Z := z mod 2 ^ 64.

(** The store of a [float] at the byte offset [off] of the [float] array
    [s]; undefined when the address is not that of an element. *)
Definition store_float_at (s : list spec_float) (off : Z) (v : spec_float)
  : option (list spec_float) :=
  if off mod 4 =? 0 then write s (off / 4) v else None.

(** [scalar_gemv_i2_i8]. The loops over [block] and [j] are those of
    [scalar_vec_dot_i2_i8]. [nc] is not used by the source. *)
Definition scalar_gemv_i2_i8
  (n : Z) (s : list spec_float) (bs : Z) (vx : list Z) (vy : list Z) (nr nc : Z)
  : option (list spec_float) :=
  let nb := Z.quot n SCALAR_QK_I2_S in
  let row_bytes := size_t (nb * 32) in
  for_loop
    (fun row s =>
       let x_row := size_t (row * row_bytes) in
       sum ← dot_row vx vy x_row nb;
       store_float_at s (size_t (row * bs)) (f32_of_Z sum))
    0 (Z.to_nat nr) s.

(** [scalar_gemm_i2_i8]. *)
Definition scalar_gemm_i2_i8
  (n : Z) (s : list spec_float) (bs : Z) (vx : list Z) (vy : list Z) (nr nc : Z)
  : option (list spec_float) :=
  scalar_gemv_i2_i8 n s bs vx vy nr nc.

End HalGemv.

(** ** Hardware detection: reading a value of /proc/meminfo                *)

Module ProcFile.
Import CString.

Definition TABc : ascii := ascii_of_nat 9.
Definition COLONc : ascii := ascii_of_nat 58.

(** The characters skipped after the colon: space and tabulator. *)
Definition is_blank (c : ascii) : bool :=
  Ascii.eqb c " "%char || Ascii.eqb c TABc.

Fixpoint skip_blanks (p : string) : string :=
  match p with
  | String c p' => if is_blank c then skip_blanks p' else p
  | EmptyString => p
  end.

(** The value of one line: what follows the first colon, without leading
    blanks and trailing line ends, cut to [buflen - 1] characters. [None]
    when the line has no colon. [buflen] is the size of an array at every
    call, hence positive. *)
Definition line_value (line : string) (buflen : nat) : option string :=
  match strchr line COLONc with
  | None => None
  | Some val =>
      let val := skip_blanks (ptr_add val 1) in
      let len := trim_len val (String.length val) in
      let len := if (buflen <=? len)%nat then (buflen - 1)%nat else len in
      Some (copy val len)
  end.

(** The loop over the lines that [fgets] delivers, on a stream that still
    holds [stream]. Every round takes at least one character off the
    stream, so that [String.length stream] rounds are enough. [None] is
    the return value -1, [Some buf] the return value 0 with [buf]
    filled. *)
Fixpoint read_loop (rounds : nat) (key : string) (buflen : nat) (stream : string)
  : option string :=
  match rounds with
  | O => None
  | S rounds' =>
      match fgets 512 stream with
      | None => None
      | Some line =>
          let rest := ptr_add stream (String.length line) in
          match ModelSelect.strstr line key with
          | Some _ =>
              match line_value line buflen with
              | Some v => Some v
              | None => read_loop rounds' key buflen rest
              end
          | None => read_loop rounds' key buflen rest
          end
      end
  end.

Definition read_proc_line (fopen : string -> option string) (path key : string)
  (buflen : nat) : option string :=
  match fopen path with
  | None => None
  | Some stream => read_loop (String.length stream) key buflen stream
  end.

(** [atoll]: white space, an optional sign, then decimal digits up to the
    first other character. A value outside [int64_t] is undefined
    ([None]). *)
Definition is_space (c : ascii) : bool :=
  let n := nat_of_ascii c in
  (n =? 32)%nat || ((9 <=? n)%nat && (n <=? 13)%nat).

Definition is_digit (c : ascii) : bool :=
  let n := nat_of_ascii c in (48 <=? n)%nat && (n <=? 57)%nat.

Fixpoint skip_space (p : string) : string :=
  match p with
  | String c p' => if is_space c then skip_space p' else p
  | EmptyString => p
  end.

Fixpoint digits_value (acc : Z) (s : string) : Z :=
  match s with
  | String c s' =>
      if is_digit c then digits_value (10 * acc + (Z.of_nat (nat_of_ascii c) - 48)) s'
      else acc
  | EmptyString => acc
  end.

Definition atoll (s : string) : option Z :=
  let v :=
    match skip_space s with
    | String c s' =>
        if Ascii.eqb c "-"%char then - digits_value 0 s'
        else if Ascii.eqb c "+"%char then digits_value 0 s'
        else digits_value 0 (String c s')
    | EmptyString => 0
    end in
  if (INT64_MIN <=? v) && (v <=? INT64_MAX) then Some v else None.

(** [read_meminfo_kb]: the buffer has 64 bytes. *)
Definition read_meminfo_kb (fopen : string -> option string) (key : string) : option Z :=
  match read_proc_line fopen "/proc/meminfo" key 64 with
  | Some val => atoll val
  | None => Some 0
  end.

End ProcFile.

(** ** Definitions used to state the further properties *)

Module RegistryMoreSpec.
Import ToolRegistry RegistrySpec ToolPrompt.

Definition tool_not_found : tool_result :=
  {| success := false; output := None; error := Some "Tool not found"%string |}.

(** The string handed to the executor for the arguments [args_json]. *)
Definition args_or_empty (args_json : option string) : string :=
  match args_json with Some a => a | None => "{}"%string end.

(** The line of the prompt description for one tool. *)
Definition prompt_line (t : tool_desc) : string :=
  "- " +:+ default EmptyString (name t) +:+ ": "
  +:+ default "No description"%string (description t)
  +:+ match args_schema_json t with
      | Some sch => " Args schema: " +:+ sch
      | None => EmptyString
      end
  +:+ NL.

Fixpoint prompt_lines (l : list tool_desc) : string :=
  match l with
  | [] => EmptyString
  | t :: l' => prompt_line t +:+ prompt_lines l'
  end.

(** The slots in use, in slot order. *)
Definition tools_in_use (r : tool_reg) : list tool_desc :=
  take (Z.to_nat (count r)) (tools r).

(** The built-in descriptors that [neuronos_tool_register_defaults] offers
    to the registry for a mask of allowed capabilities, in call order. *)
Definition default_descs (cap_shell cap_filesystem allowed : Z) : list (option tool_desc) :=
  (if negb (Z.land allowed cap_shell =? 0) then [Some (desc_shell cap_shell)] else [])
  ++ (if negb (Z.land allowed cap_filesystem =? 0)
      then [Some (desc_read cap_filesystem); Some (desc_write cap_filesystem)] else [])
  ++ [Some desc_calc].

Definition sample_desc : tool_desc :=
  {| name := Some "echo"%string; description := None; args_schema_json := None;
     execute := Some (extern_fn 7); user_data := 42; required_caps := 0 |}.

End RegistryMoreSpec.

Module ToolSpec.
Import ToolRegistry CString BuiltinTools.

(** The character [c] does not occur in [s]. *)
Fixpoint free_of (c : ascii) (s : string) : bool :=
  match s with
  | EmptyString => true
  | String a s' => negb (Ascii.eqb a c) && free_of c s'
  end.

(** The body of a JSON string: no double quote except after a backslash,
    and no backslash at the very end. *)
Fixpoint well_escaped (s : string) : bool :=
  match s with
  | EmptyString => true
  | String c s' =>
      if Ascii.eqb c DQc then false
      else if Ascii.eqb c BSc then
        match s' with
        | EmptyString => false
        | String _ s'' => well_escaped s''
        end
      else well_escaped s'
  end.

(** A line of text: no newline inside, no carriage return or newline at
    its end. *)
Definition clean_line (l : string) : bool :=
  free_of LFc l
  && negb (is_eol (String.get (String.length l - 1) l)).

(** Sample environments. *)
Definition popen_echo (cmd : string) : option (string * Z) :=
  Some (cmd, if String.eqb cmd "false" then 1 else 0).

Definition fopen_abc (path : string) : option read_stream :=
  if String.eqb path "/tmp/abc" then Some {| ftell_end := 3; bytes := "abc" |} else None.

(** A file of /proc, which reports the size 0 and delivers text all the
    same, and a FIFO, which cannot seek. *)
Definition fopen_special (path : string) : option read_stream :=
  if String.eqb path "/proc/version"
  then Some {| ftell_end := 0; bytes := "Linux version 6.1" |}
  else if String.eqb path "/tmp/fifo"
  then Some {| ftell_end := -1; bytes := "abc" |}
  else None.

Definition popen_42 (cmd : string) : option string :=
  Some ("42" +:+ String LFc EmptyString).

End ToolSpec.

Module ModelScanSpec.
Import HwDetect ModelSelect ModelScan.

(** The test of [neuronos_model_select_best] on one entry. *)
Definition eligible (e : model_entry) : bool :=
  fits_in_ram e && fgt (score e) fzero.

(** The quality tier by the size of the model file in MB. *)
Definition tier_by_size (size_mb : Z) : Z :=
  if size_mb <? 334 then 10
  else if size_mb <? 668 then 30
  else if size_mb <? 1336 then 60
  else if size_mb <? 2671 then 80
  else 100.

(** A [float] that is positive: a finite number with the sign bit clear
    and an exponent of the format, or plus infinity. *)
Definition positive_f32 (x : spec_float) : Prop :=
  match x with
  | S754_finite false _ e => -149 <= e
  | S754_infinity false => True
  | _ => False
  end.

(** The same, or plus zero. *)
Definition nonneg_f32 (x : spec_float) : Prop :=
  match x with
  | S754_zero false => True
  | _ => positive_f32 x
  end.

(** A decision procedure for [positive_f32]. *)
Definition positive_f32b (x : spec_float) : bool :=
  match x with
  | S754_finite false _ e => -149 <=? e
  | S754_infinity false => true
  | _ => false
  end.

Definition entry_of_score (fits : bool) (s : Z) : model_entry :=
  {| path := EmptyString; name := EmptyString; file_size_mb := 0; est_ram_mb := 0;
     n_params_est := 0; fits_in_ram := fits; score := f32_of_Z s |}.

Definition sample_entries : list model_entry :=
  [entry_of_score false 1100; entry_of_score true 1050; entry_of_score true 1020;
   entry_of_score false (-1)].

End ModelScanSpec.

Module HwCoresSpec.
Import HwCores.

(** The heuristic agrees with [3 * n / 5] for every [n] from 9 on, below
    [bound]. *)
Definition check_cores (bound : Z) : bool :=
  forallb (fun n => if 8 <? n
                    then match n_cores_physical n with
                         | Some p => p =? 3 * n / 5
                         | None => false
                         end
                    else true) (seqZ 0 bound).

End HwCoresSpec.

Module KernelMoreSpec.
Import HalScalar KernelSpec QuantSpec.

(** The raw code that the quantizer gives to weight [i] of [src]. *)
Definition weight_code (src : list spec_float) (i : Z) : Z :=
  match read src i with
  | Some w => ternary_code w
  | None => 0
  end.

End KernelMoreSpec.

Module DirScanSpec.
Import HwDetect ModelSelect ModelScan DirScan.

(** The model files of a directory listing, in the order of the walk: the
    regular files whose name ends in [.gguf], with the path built for them
    and their size; names that start with a dot are passed over, also
    directories. [below] gives the model files of a sub-directory. *)
Fixpoint gguf_listing (below : fs_node -> string -> list (string * option Z))
  (dir_path : string) (l : list (string * fs_node)) : list (string * option Z) :=
  match l with
  | [] => []
  | (d_name, child) :: l' =>
      if starts_with_dot d_name then gguf_listing below dir_path l'
      else
        match child with
        | FsDir _ => below child (join_path dir_path d_name) ++ gguf_listing below dir_path l'
        | FsReg st_size =>
            if ends_with_gguf d_name
            then (join_path dir_path d_name, st_size) :: gguf_listing below dir_path l'
            else gguf_listing below dir_path l'
        | _ => gguf_listing below dir_path l'
        end
  end.

Fixpoint gguf_files (node : fs_node) (dir_path : string) {struct node}
  : list (string * option Z) :=
  match node with
  | FsDir (Some listing) => gguf_listing gguf_files dir_path listing
  | _ => []
  end.

(** The entry for a model file; the zeroed entry stands in when the name
    buffer has no room. *)
Definition entry_for (path_size name_size : Z) (hw : hw_info) (f : string * option Z)
  : model_entry :=
  default entry_zero (scan_entry path_size name_size hw (fst f) (snd f)).

(** The first model files found, as many as the array still has room for
    below [max_entries] when [pre] is already written. *)
Definition first_found (max_entries : Z) (pre found : list model_entry) : list model_entry :=
  take (Z.to_nat (max_entries - Z.of_nat (length pre))) found.

(** The array and the count after [new] was written behind [pre]. *)
Definition walk_result (pre rest new : list model_entry) : option (list model_entry * Z) :=
  Some (pre ++ new ++ drop (length new) rest, Z.of_nat (length pre + length new)).

(** The entries that [neuronos_model_scan] finds below a directory. *)
Definition models_found (path_size name_size : Z) (hw : hw_info)
  (root : fs_node) (dir_path : string) : list model_entry :=
  take (Z.to_nat MAX_SCAN_MODELS)
       (map (entry_for path_size name_size hw) (gguf_files root dir_path)).

(** The order that [compare_models_desc] asks of [qsort]. *)
Definition sorted_desc (l : list model_entry) : Prop :=
  forall i j ei ej, (i < j)%nat -> l !! i = Some ei -> l !! j = Some ej ->
                    compare_models_desc ei ej <= 0.

(** A sorting function that can stand for [qsort]: insertion into a list
    in descending order of the scores. *)
Fixpoint insert_desc (e : model_entry) (l : list model_entry) : list model_entry :=
  match l with
  | [] => [e]
  | x :: l' => if fgt (score e) (score x) then e :: l else x :: insert_desc e l'
  end.

Definition sort_desc (l : list model_entry) : list model_entry :=
  foldr insert_desc [] l.

(** A hardware with a budget of 2000 MB. *)
Definition hw_2000 : hw_info :=
  {| ram_total_mb := 4096; ram_available_mb := 2500; model_budget_mb := 2000 |}.

(** A sample tree: a hidden directory, a text file, a model, and a
    directory with two models. *)
Definition sample_tree : fs_node :=
  FsDir (Some [(".git"%string, FsDir (Some [("x.gguf"%string, FsReg (Some 1048576))]));
               ("README.md"%string, FsReg (Some 100));
               ("a.gguf"%string, FsReg (Some 1048576000));
               ("sub"%string,
                FsDir (Some [("b.gguf"%string, FsReg (Some 2097152000));
                             ("c.gguf"%string, FsReg None)]))]).

End DirScanSpec.

Module ProcFileSpec.
Import CString ProcFile ToolSpec.

Definition LFs : string := String LFc EmptyString.

(** A text of complete lines. *)
Fixpoint text_of (lines : list string) : string :=
  match lines with
  | [] => EmptyString
  | l :: lines' => l +:+ LFs +:+ text_of lines'
  end.

(** A line that [fgets] delivers in one piece. *)
Definition whole_line (l : string) : bool :=
  free_of LFc l && (String.length l <? 511)%nat.

(** A line that the loop passes over: it does not mention the key, or it
    has no colon. *)
Definition passed_over (key l : string) : bool :=
  negb (ModelSelect.nonnull (ModelSelect.strstr (l +:+ LFs) key))
  || negb (ModelSelect.nonnull (strchr (l +:+ LFs) COLONc)).

Fixpoint all_blank (s : string) : bool :=
  match s with
  | EmptyString => true
  | String c s' => is_blank c && all_blank s'
  end.

Fixpoint all_digits (s : string) : bool :=
  match s with
  | EmptyString => true
  | String c s' => is_digit c && all_digits s'
  end.

(** A text at which a number ends: empty, or starting with a character
    that is no digit. *)
Definition ends_number (s : string) : bool :=
  match s with
  | EmptyString => true
  | String c _ => negb (is_digit c)
  end.

Definition meminfo_sample : string :=
  text_of ["SwapTotal:       2097148 kB"; "MemTotal:       16384000 kB";
           "MemFree:         1048576 kB"]%string.

End ProcFileSpec.

(* ===================================================================== *)
(** * Part III. Properties                                                *)
(* ===================================================================== *)

(** ** Machine integers *)

Lemma wrap32_id z : in_int32 z -> wrap32 z = z.
Proof.
  unfold in_int32, INT32_MIN, INT32_MAX, wrap32, wrap_signed. intros H.
  rewrite Z.mod_small; lia.
Qed.

Lemma wrap64_id z : in_int64 z -> wrap64 z = z.
Proof.
  unfold in_int64, INT64_MIN, INT64_MAX, wrap64, wrap_signed. intros H.
  rewrite Z.mod_small; lia.
Qed.

Lemma wrap64_range z : in_int64 (wrap64 z).
Proof.
  unfold in_int64, INT64_MIN, INT64_MAX, wrap64, wrap_signed.
  pose proof (Z.mod_pos_bound (z + 2 ^ (64 - 1)) (2 ^ 64) ltac:(lia)). lia.
Qed.

Lemma wrap32_add_l a b : wrap32 (wrap32 a + b) = wrap32 (a + b).
Proof.
  unfold wrap32, wrap_signed. f_equal.
  replace ((a + 2 ^ (32 - 1)) mod 2 ^ 32 - 2 ^ (32 - 1) + b + 2 ^ (32 - 1))
    with ((a + 2 ^ (32 - 1)) mod 2 ^ 32 + b) by lia.
  rewrite Zplus_mod_idemp_l. f_equal. lia.
Qed.

(** ** Loops and arrays *)

Lemma for_loop_inv {St : Type} (body : Z -> St -> option St) (P : Z -> St -> Prop) (n : nat) :
  forall i s,
    P i s ->
    (forall k s, i <= k < i + Z.of_nat n -> P k s ->
                 exists s', body k s = Some s' /\ P (k + 1) s') ->
    exists s', for_loop body i n s = Some s' /\ P (i + Z.of_nat n) s'.
Proof.
  induction n as [|n IH]; intros i s Hinit Hstep.
  - exists s. split; [reflexivity|]. replace (i + Z.of_nat 0) with i by lia. exact Hinit.
  - destruct (Hstep i s ltac:(lia) Hinit) as (s1 & Hb & H1).
    destruct (IH (i + 1) s1 H1) as (s' & Hl & H').
    { intros k s0 Hk. apply Hstep. lia. }
    exists s'. split.
    + simpl. rewrite Hb. exact Hl.
    + replace (i + Z.of_nat (S n)) with (i + 1 + Z.of_nat n) by lia. exact H'.
Qed.

Lemma read_in_range {A : Type} (a : list A) (i : Z) :
  0 <= i < Z.of_nat (length a) -> exists v, read a i = Some v.
Proof.
  intros H. unfold read. destruct (i <? 0) eqn:Hi; [apply Z.ltb_lt in Hi; lia|].
  apply lookup_lt_is_Some_2. lia.
Qed.

Lemma read_Some_range {A : Type} (a : list A) (i : Z) (v : A) :
  read a i = Some v -> 0 <= i < Z.of_nat (length a).
Proof.
  unfold read. destruct (i <? 0) eqn:Hi; [discriminate|]. apply Z.ltb_ge in Hi.
  intros H%lookup_lt_Some. lia.
Qed.

Lemma write_in_range {A : Type} (a : list A) (i : Z) (v : A) :
  0 <= i < Z.of_nat (length a) -> write a i v = Some (<[Z.to_nat i := v]> a).
Proof.
  intros H. unfold write.
  destruct (i <? 0) eqn:H1; [apply Z.ltb_lt in H1; lia|].
  destruct (Z.of_nat (length a) <=? i) eqn:H2; [apply Z.leb_le in H2; lia|]. reflexivity.
Qed.

Lemma read_insert_eq {A : Type} (a : list A) (i : Z) (v : A) :
  0 <= i < Z.of_nat (length a) -> read (<[Z.to_nat i := v]> a) i = Some v.
Proof.
  intros H. unfold read. destruct (i <? 0) eqn:Hi; [apply Z.ltb_lt in Hi; lia|].
  apply list_lookup_insert_eq. lia.
Qed.

Lemma read_insert_ne {A : Type} (a : list A) (i j : Z) (v : A) :
  0 <= i -> i <> j -> read (<[Z.to_nat i := v]> a) j = read a j.
Proof.
  intros Hi Hne. unfold read. destruct (j <? 0) eqn:Hj; [reflexivity|]. apply Z.ltb_ge in Hj.
  apply list_lookup_insert_ne. lia.
Qed.

Lemma read_ext {A : Type} (a b : list A) :
  length a = length b -> (forall i, 0 <= i < Z.of_nat (length a) -> read a i = read b i) -> a = b.
Proof.
  intros Hlen H. apply list_eq. intros k.
  destruct (decide (k < length a)%nat) as [Hk|Hk].
  - assert (0 <= Z.of_nat k < Z.of_nat (length a)) as Hr by lia.
    specialize (H _ Hr). unfold read in H.
    destruct (Z.of_nat k <? 0) eqn:H0; [apply Z.ltb_lt in H0; lia|].
    rewrite Nat2Z.id in H. exact H.
  - rewrite !lookup_ge_None_2 by lia. reflexivity.
Qed.

(** ** Finite sums *)

Module SumFacts.
Import KernelSpec.

Lemma zsum_ext f g n : forall i,
  (forall k, i <= k < i + Z.of_nat n -> f k = g k) -> zsum f i n = zsum g i n.
Proof.
  induction n as [|n IH]; intros i H; [reflexivity|].
  simpl. rewrite (H i) by lia. f_equal. apply IH. intros k Hk. apply H. lia.
Qed.

Lemma zsum_snoc f n : forall i, zsum f i (S n) = zsum f i n + f (i + Z.of_nat n).
Proof.
  induction n as [|n IH]; intros i.
  - cbn [zsum]. change (Z.of_nat 0) with 0. rewrite !Z.add_0_r. lia.
  - change (zsum f i (S (S n))) with (f i + zsum f (i + 1) (S n)).
    rewrite IH. change (zsum f i (S n)) with (f i + zsum f (i + 1) n).
    replace (i + 1 + Z.of_nat n) with (i + Z.of_nat (S n)) by lia. lia.
Qed.

Lemma zsum_app f n m : forall i,
  zsum f i (n + m) = zsum f i n + zsum f (i + Z.of_nat n) m.
Proof.
  induction n as [|n IH]; intros i.
  - cbn [zsum Nat.add]. change (Z.of_nat 0) with 0. rewrite Z.add_0_r. lia.
  - cbn [Nat.add]. change (zsum f i (S (n + m))) with (f i + zsum f (i + 1) (n + m)).
    rewrite IH. change (zsum f i (S n)) with (f i + zsum f (i + 1) n).
    replace (i + 1 + Z.of_nat n) with (i + Z.of_nat (S n)) by lia. lia.
Qed.

Lemma zsum_shift f n : forall i d, zsum f (i + d) n = zsum (fun k => f (k + d)) i n.
Proof.
  induction n as [|n IH]; intros i d; [reflexivity|].
  simpl. f_equal. replace (i + d + 1) with (i + 1 + d) by lia. apply IH.
Qed.

(** A sum over [nb] blocks of [w] terms each. *)
Lemma zsum_blocks f (w : nat) (nb : nat) :
  zsum f 0 (nb * w) = zsum (fun b => zsum (fun j => f (Z.of_nat w * b + j)) 0 w) 0 nb.
Proof.
  induction nb as [|nb IH]; [reflexivity|].
  rewrite zsum_snoc, <- IH.
  replace (S nb * w)%nat with (nb * w + w)%nat by lia.
  rewrite zsum_app. f_equal. rewrite Z.add_0_l.
  replace (Z.of_nat (nb * w)) with (0 + Z.of_nat w * Z.of_nat nb) by lia.
  rewrite zsum_shift. apply zsum_ext. intros k _. f_equal. lia.
Qed.

Lemma zsum_bound f c n : forall i,
  (forall k, i <= k < i + Z.of_nat n -> - c <= f k <= c) ->
  - (c * Z.of_nat n) <= zsum f i n <= c * Z.of_nat n.
Proof.
  induction n as [|n IH]; intros i H; [simpl; lia|].
  change (zsum f i (S n)) with (f i + zsum f (i + 1) n).
  specialize (IH (i + 1) ltac:(intros k Hk; apply H; lia)).
  specialize (H i ltac:(lia)). lia.
Qed.

End SumFacts.

Lemma forallb_seqZ (p : Z -> bool) (n : Z) :
  forallb p (seqZ 0 n) = true -> forall z, 0 <= z < n -> p z = true.
Proof.
  rewrite forallb_forall. intros H z Hz. apply H, list_elem_of_In, elem_of_seqZ. lia.
Qed.

Module PackFacts.
Import HalScalar KernelSpec.

Lemma check_fields_ok : check_fields = true.
Proof. vm_compute. reflexivity. Qed.

Lemma check_or_ok : check_or = true.
Proof. vm_compute. reflexivity. Qed.

Lemma check_bytes_ok : check_bytes = true.
Proof. vm_compute. reflexivity. Qed.

(** The four fields of a byte built by [byte_of]. *)
Lemma fields_of_byte v0 v1 v2 v3 :
  0 <= v0 <= 3 -> 0 <= v1 <= 3 -> 0 <= v2 <= 3 -> 0 <= v3 <= 3 ->
  unpack_raw (byte_of v0 v1 v2 v3) 0 = v0 /\ unpack_raw (byte_of v0 v1 v2 v3) 1 = v1 /\
  unpack_raw (byte_of v0 v1 v2 v3) 2 = v2 /\ unpack_raw (byte_of v0 v1 v2 v3) 3 = v3.
Proof.
  intros H0 H1 H2 H3. pose proof check_fields_ok as H. unfold check_fields in H.
  apply (forallb_seqZ _ 4) with (z := v0) in H; [|lia].
  apply (forallb_seqZ _ 4) with (z := v1) in H; [|lia].
  apply (forallb_seqZ _ 4) with (z := v2) in H; [|lia].
  apply (forallb_seqZ _ 4) with (z := v3) in H; [|lia].
  rewrite !andb_true_iff, !Z.eqb_eq in H. tauto.
Qed.

(** Or-ing a code into an empty field of a byte. *)
Lemma or_into_field a b c v :
  0 <= a <= 3 -> 0 <= b <= 3 -> 0 <= c <= 3 -> 0 <= v <= 3 ->
  u8 (Z.lor (byte_of 0 a b c) (Z.shiftl v 6)) = byte_of v a b c /\
  u8 (Z.lor (byte_of a 0 b c) (Z.shiftl v 4)) = byte_of a v b c /\
  u8 (Z.lor (byte_of a b 0 c) (Z.shiftl v 2)) = byte_of a b v c /\
  u8 (Z.lor (byte_of a b c 0) (Z.shiftl v 0)) = byte_of a b c v.
Proof.
  intros H0 H1 H2 H3. pose proof check_or_ok as H. unfold check_or in H.
  apply (forallb_seqZ _ 4) with (z := a) in H; [|lia].
  apply (forallb_seqZ _ 4) with (z := b) in H; [|lia].
  apply (forallb_seqZ _ 4) with (z := c) in H; [|lia].
  apply (forallb_seqZ _ 4) with (z := v) in H; [|lia].
  rewrite !andb_true_iff, !Z.eqb_eq in H. tauto.
Qed.

(** A byte is rebuilt from its four fields. *)
Lemma byte_of_fields b :
  0 <= b <= 255 ->
  byte_of (unpack_raw b 0) (unpack_raw b 1) (unpack_raw b 2) (unpack_raw b 3) = b.
Proof.
  intros Hb. pose proof check_bytes_ok as H. unfold check_bytes in H.
  apply (forallb_seqZ _ 256) with (z := b) in H; [|lia]. apply Z.eqb_eq in H. exact H.
Qed.

Lemma unpack_raw_range b g : 0 <= b -> 0 <= unpack_raw b g <= 3.
Proof.
  intros Hb. unfold unpack_raw.
  pose proof (Z.land_ones (Z.shiftr b (6 - 2 * g)) 2 ltac:(lia)) as H.
  change (Z.ones 2) with 3 in H. change (2 ^ 2) with 4 in H. rewrite H.
  pose proof (Z.mod_pos_bound (Z.shiftr b (6 - 2 * g)) 4 ltac:(lia)). lia.
Qed.

Lemma at_range (a : list Z) (lo hi : Z) i :
  lo <= 0 <= hi -> Forall (fun v => lo <= v <= hi) a -> lo <= at_ a i <= hi.
Proof.
  intros H0 Hall. unfold at_, read. destruct (i <? 0); [simpl; lia|].
  destruct (a !! Z.to_nat i) as [v|] eqn:Hv; [|simpl; lia].
  simpl. rewrite Forall_forall in Hall. apply Hall. eapply list_elem_of_lookup_2. exact Hv.
Qed.

Lemma read_at_ (a : list Z) i : 0 <= i < Z.of_nat (length a) -> read a i = Some (at_ a i).
Proof.
  intros H. destruct (read_in_range a i H) as [v Hv]. unfold at_. rewrite Hv. reflexivity.
Qed.

Lemma Forall_at_ (P : Z -> Prop) (a : list Z) i :
  Forall P a -> 0 <= i < Z.of_nat (length a) -> P (at_ a i).
Proof.
  intros Hall Hi. destruct (read_in_range a i Hi) as [v Hv].
  unfold at_. rewrite Hv. simpl. unfold read in Hv.
  destruct (i <? 0); [discriminate|].
  rewrite Forall_forall in Hall. apply Hall. eapply list_elem_of_lookup_2. exact Hv.
Qed.

Lemma field_upto_range q8 blk j g k :
  Forall (fun v => 0 <= v <= 3) q8 -> 0 <= field_upto q8 blk j g k <= 3.
Proof.
  intros Hall. unfold field_upto. destruct (32 * g + k <? j); [|lia].
  apply at_range; [lia | assumption].
Qed.

Lemma field_upto_succ q8 blk j g k :
  field_upto q8 blk (j + 1) g k
  = if 32 * g + k =? j then at_ q8 (blk * 128 + j) else field_upto q8 blk j g k.
Proof.
  unfold field_upto.
  destruct (32 * g + k =? j) eqn:He;
    [apply Z.eqb_eq in He | apply Z.eqb_neq in He];
    destruct (32 * g + k <? j + 1) eqn:H1;
    [apply Z.ltb_lt in H1 | apply Z.ltb_ge in H1 | apply Z.ltb_lt in H1 | apply Z.ltb_ge in H1];
    try lia.
  - rewrite He. reflexivity.
  - destruct (32 * g + k <? j) eqn:H2; [reflexivity | apply Z.ltb_ge in H2; lia].
  - destruct (32 * g + k <? j) eqn:H2; [apply Z.ltb_lt in H2; lia | reflexivity].
Qed.

Lemma field_upto_here q8 blk g k : field_upto q8 blk (32 * g + k) g k = 0.
Proof. unfold field_upto. rewrite Z.ltb_irrefl. reflexivity. Qed.

(** Step 3 on one block whose output bytes are still zero. *)
Lemma pack_block_spec q8 blk out :
  0 <= blk ->
  128 * (blk + 1) <= Z.of_nat (length q8) ->
  32 * (blk + 1) <= Z.of_nat (length out) ->
  Forall (fun v => 0 <= v <= 3) q8 ->
  (forall k, 0 <= k < 32 -> read out (blk * 32 + k) = Some 0) ->
  exists out',
    pack_block q8 blk out = Some out' /\
    length out' = length out /\
    (forall k, 0 <= k < 32 ->
       read out' (blk * 32 + k)
       = Some (byte_of (at_ q8 (blk * 128 + k)) (at_ q8 (blk * 128 + (32 + k)))
                       (at_ q8 (blk * 128 + (64 + k))) (at_ q8 (blk * 128 + (96 + k))))) /\
    (forall i, ~ (blk * 32 <= i < blk * 32 + 32) -> read out' i = read out i).
Proof.
  intros Hblk Hq8 Hout Hall Hzero.
  set (P := fun (j : Z) (o : list Z) =>
              length o = length out /\
              (forall k, 0 <= k < 32 ->
                 read o (blk * 32 + k)
                 = Some (byte_of (field_upto q8 blk j 0 k) (field_upto q8 blk j 1 k)
                                 (field_upto q8 blk j 2 k) (field_upto q8 blk j 3 k))) /\
              (forall i, ~ (blk * 32 <= i < blk * 32 + 32) -> read o i = read out i)).
  destruct (for_loop_inv
              (fun j out =>
                 let group_idx := Z.quot j 32 in
                 let group_pos := Z.rem j 32 in
                 val ← read q8 (blk * SCALAR_QK_I2_S + j);
                 old ← read out (blk * 32 + group_pos);
                 write out (blk * 32 + group_pos)
                       (u8 (Z.lor old (Z.shiftl val (6 - 2 * group_idx)))))
              P (Z.to_nat SCALAR_QK_I2_S) 0 out) as (out' & Hrun & Hlen & Hbytes & Hrest).
  - split; [reflexivity|]. split; [|reflexivity].
    intros k Hk. rewrite (Hzero k Hk). unfold field_upto.
    repeat match goal with |- context [?a <? 0] =>
      let E := fresh in destruct (a <? 0) eqn:E; [apply Z.ltb_lt in E; lia|] end.
    reflexivity.
  - intros j o Hj (Hlen & Hbytes & Hrest). unfold SCALAR_QK_I2_S in *.
    cbv zeta.
    rewrite Z.quot_div_nonneg, Z.rem_mod_nonneg by lia.
    set (g := j / 32). set (k0 := j mod 32).
    assert (j = 32 * g + k0 /\ 0 <= k0 < 32 /\ 0 <= g <= 3) as (Hjeq & Hk0 & Hg)
      by (subst g k0; pose proof (Z.div_mod j 32 ltac:(lia));
          pose proof (Z.mod_pos_bound j 32 ltac:(lia));
          assert (0 <= j / 32 <= 3) by (split; [apply Z.div_pos; lia | apply Z.lt_succ_r, Z.div_lt_upper_bound; lia]);
          lia).
    rewrite (read_at_ q8) by lia. cbn [mbind option_bind].
    rewrite (Hbytes k0 Hk0). cbn [mbind option_bind].
    rewrite write_in_range by lia.
    eexists. split; [reflexivity|]. split; [rewrite length_insert; exact Hlen|]. split.
    + intros k Hk. destruct (decide (k = k0)) as [->|Hne].
      * rewrite read_insert_eq by lia. f_equal.
        rewrite !field_upto_succ.
        pose proof (field_upto_range q8 blk j 0 k0 Hall) as R0.
        pose proof (field_upto_range q8 blk j 1 k0 Hall) as R1.
        pose proof (field_upto_range q8 blk j 2 k0 Hall) as R2.
        pose proof (field_upto_range q8 blk j 3 k0 Hall) as R3.
        assert (0 <= at_ q8 (blk * 128 + j) <= 3) as Hv by (apply at_range; [lia | assumption]).
        assert (g = 0 \/ g = 1 \/ g = 2 \/ g = 3) as [Hg0 | [Hg0 | [Hg0 | Hg0]]] by lia;
          rewrite Hg0 in *; decide_eqb.
        -- replace (field_upto q8 blk j 0 k0) with 0
             by (rewrite Hjeq at 1; symmetry; apply field_upto_here).
           exact (proj1 (or_into_field _ _ _ _ R1 R2 R3 Hv)).
        -- replace (field_upto q8 blk j 1 k0) with 0
             by (rewrite Hjeq at 1; symmetry; apply field_upto_here).
           exact (proj1 (proj2 (or_into_field _ _ _ _ R0 R2 R3 Hv))).
        -- replace (field_upto q8 blk j 2 k0) with 0
             by (rewrite Hjeq at 1; symmetry; apply field_upto_here).
           exact (proj1 (proj2 (proj2 (or_into_field _ _ _ _ R0 R1 R3 Hv)))).
        -- replace (field_upto q8 blk j 3 k0) with 0
             by (rewrite Hjeq at 1; symmetry; apply field_upto_here).
           exact (proj2 (proj2 (proj2 (or_into_field _ _ _ _ R0 R1 R2 Hv)))).
      * rewrite read_insert_ne by lia. rewrite (Hbytes k Hk).
        rewrite !field_upto_succ. decide_eqb. reflexivity.
    + intros i Hi. rewrite read_insert_ne by lia. apply Hrest, Hi.
  - exists out'. split; [exact Hrun|]. split; [exact Hlen|]. split; [|exact Hrest].
    intros k Hk. rewrite (Hbytes k Hk). unfold field_upto, SCALAR_QK_I2_S.
    change (0 + Z.of_nat (Z.to_nat 128)) with 128.
    repeat match goal with |- context [?a <? 128] =>
      let E := fresh in destruct (a <? 128) eqn:E; [|apply Z.ltb_ge in E; lia] end.
    repeat f_equal; lia.
Qed.

End PackFacts.

Module RoundTrip.
Import HalScalar KernelSpec PackFacts.

Lemma read_map_seqZ (f : Z -> Z) (n j : Z) :
  0 <= j < n -> read (map f (seqZ 0 n)) j = Some (f j).
Proof.
  intros Hj. unfold read. destruct (j <? 0) eqn:H0; [apply Z.ltb_lt in H0; lia|].
  change (map f (seqZ 0 n)) with (f <$> seqZ 0 n).
  rewrite list_lookup_fmap, lookup_seqZ_lt by lia.
  simpl. f_equal. f_equal. lia.
Qed.

Lemma unpack_spec packed :
  32 <= Z.of_nat (length packed) ->
  unpack packed = Some (map (unpack_at packed) (seqZ 0 128)).
Proof.
  intros Hlen. unfold unpack.
  destruct (for_loop_inv
              (fun j ws =>
                 let group_idx := Z.quot j 32 in
                 let group_pos := Z.rem j 32 in
                 byte ← read packed group_pos;
                 Some (ws ++ [unpack_raw byte group_idx]))
              (fun j ws => ws = map (unpack_at packed) (seqZ 0 j))
              (Z.to_nat SCALAR_QK_I2_S) 0 []) as (ws & Hrun & Hws).
  - reflexivity.
  - intros j ws Hj ->. cbv zeta. unfold SCALAR_QK_I2_S in Hj.
    rewrite Z.quot_div_nonneg, Z.rem_mod_nonneg by lia.
    pose proof (Z.mod_pos_bound j 32 ltac:(lia)).
    rewrite read_at_ by lia. cbn [mbind option_bind].
    eexists. split; [reflexivity|].
    replace (j + 1) with (Z.of_nat (S (Z.to_nat j))) by lia.
    rewrite seqZ_S, map_app, Z2Nat.id by lia. reflexivity.
  - subst ws. exact Hrun.
Qed.

Lemma unpack_at_byte_of packed j :
  0 <= j < 128 -> 32 <= Z.of_nat (length packed) ->
  forall v0 v1 v2 v3,
    0 <= v0 <= 3 -> 0 <= v1 <= 3 -> 0 <= v2 <= 3 -> 0 <= v3 <= 3 ->
    read packed (j mod 32) = Some (byte_of v0 v1 v2 v3) ->
    unpack_at packed j
    = if j / 32 =? 0 then v0 else if j / 32 =? 1 then v1 else if j / 32 =? 2 then v2 else v3.
Proof.
  intros Hj Hlen v0 v1 v2 v3 H0 H1 H2 H3 Hr. unfold unpack_at, at_. rewrite Hr. simpl.
  destruct (fields_of_byte v0 v1 v2 v3 H0 H1 H2 H3) as (E0 & E1 & E2 & E3).
  assert (0 <= j / 32 <= 3) as Hg
    by (split; [apply Z.div_pos; lia | apply Z.lt_succ_r, Z.div_lt_upper_bound; lia]).
  assert (j / 32 = 0 \/ j / 32 = 1 \/ j / 32 = 2 \/ j / 32 = 3) as [G | [G | [G | G]]] by lia;
    rewrite G; simpl; assumption.
Qed.

(** Claim C3. Packing round trip: packing 128 raw values in {0,1,2} into 32
    bytes (weight [j] in byte [j mod 32], bits [6 - 2 * (j / 32)] and above)
    and unpacking them gives the values back; and unpacking 32 bytes of valid
    2-bit codes and packing the result gives the bytes back. *)
Theorem packing_round_trip :
  (forall ws,
      length ws = 128%nat -> Forall (fun w => 0 <= w <= 2) ws ->
      exists bytes, pack ws = Some bytes /\ length bytes = 32%nat /\ unpack bytes = Some ws) /\
  (forall x,
      length x = 32%nat -> Forall valid_codes x ->
      exists ws, unpack x = Some ws /\ length ws = 128%nat /\
                 Forall (fun w => 0 <= w <= 2) ws /\ pack ws = Some x).
Proof.
  split.
  - intros ws Hlen Hall.
    assert (Forall (fun w => 0 <= w <= 3) ws) as Hall3
      by (eapply Forall_impl; [exact Hall | simpl; intros; lia]).
    destruct (pack_block_spec ws 0 (replicate 32 0)) as (bytes & Hpack & Hblen & Hbytes & _).
    + lia.
    + rewrite Hlen. lia.
    + rewrite length_replicate. lia.
    + exact Hall3.
    + intros k Hk. unfold read. destruct (0 * 32 + k <? 0) eqn:E; [apply Z.ltb_lt in E; lia|].
      apply lookup_replicate_2. lia.
    + exists bytes. rewrite length_replicate in Hblen.
      split; [exact Hpack|]. split; [exact Hblen|].
      rewrite unpack_spec by lia. f_equal. apply read_ext.
      * rewrite length_map, length_seqZ. lia.
      * rewrite length_map, length_seqZ. intros j Hj.
        rewrite read_map_seqZ by lia. rewrite read_at_ by lia. f_equal.
        pose proof (Z.mod_pos_bound j 32 ltac:(lia)) as Hk.
        pose proof (Z.div_mod j 32 ltac:(lia)) as Hdm.
        assert (0 <= j / 32 <= 3) as Hg
          by (split; [apply Z.div_pos; lia | apply Z.lt_succ_r, Z.div_lt_upper_bound; lia]).
        specialize (Hbytes (j mod 32) Hk). rewrite !Z.mul_0_l, !Z.add_0_l in Hbytes.
        rewrite (unpack_at_byte_of bytes j ltac:(lia) ltac:(lia) _ _ _ _
                   ltac:(apply at_range; [lia | exact Hall3])
                   ltac:(apply at_range; [lia | exact Hall3])
                   ltac:(apply at_range; [lia | exact Hall3])
                   ltac:(apply at_range; [lia | exact Hall3]) Hbytes).
        assert (j / 32 = 0 \/ j / 32 = 1 \/ j / 32 = 2 \/ j / 32 = 3) as [G | [G | [G | G]]] by lia;
          rewrite G; simpl; f_equal; lia.
  - intros x Hlen Hall.
    set (ws := map (unpack_at x) (seqZ 0 128)).
    assert (length ws = 128%nat) as Hwlen by (subst ws; rewrite length_map, length_seqZ; lia).
    assert (forall j, 0 <= j < 128 -> at_ ws j = unpack_at x j) as Hat.
    { intros j Hj. unfold at_. subst ws. rewrite read_map_seqZ by lia. reflexivity. }
    assert (Forall (fun w => 0 <= w <= 2) ws) as Hw2.
    { subst ws. rewrite Forall_forall. intros w Hw. apply list_elem_of_fmap in Hw as (j & -> & Hj).
      apply elem_of_seqZ in Hj. unfold unpack_at.
      pose proof (Z.mod_pos_bound j 32 ltac:(lia)) as Hk.
      assert (0 <= j / 32 <= 3) as Hg
        by (split; [apply Z.div_pos; lia | apply Z.lt_succ_r, Z.div_lt_upper_bound; lia]).
      assert (valid_codes (at_ x (j mod 32))) as [Hb Hc] by (apply Forall_at_; [assumption | lia]).
      split; [apply unpack_raw_range; lia | apply Hc; lia]. }
    exists ws. split; [apply unpack_spec; lia|]. split; [exact Hwlen|]. split; [exact Hw2|].
    assert (Forall (fun w => 0 <= w <= 3) ws) as Hw3
      by (eapply Forall_impl; [exact Hw2 | simpl; intros; lia]).
    destruct (pack_block_spec ws 0 (replicate 32 0)) as (bytes & Hpack & Hblen & Hbytes & _).
    + lia.
    + rewrite Hwlen. lia.
    + rewrite length_replicate. lia.
    + exact Hw3.
    + intros k Hk. unfold read. destruct (0 * 32 + k <? 0) eqn:E; [apply Z.ltb_lt in E; lia|].
      apply lookup_replicate_2. lia.
    + unfold pack. rewrite Hpack. f_equal. rewrite length_replicate in Hblen.
      apply read_ext; [lia|]. intros k Hk. rewrite Hblen in Hk.
      specialize (Hbytes k ltac:(lia)). rewrite !Z.mul_0_l, !Z.add_0_l in Hbytes.
      rewrite Hbytes, read_at_ by lia. f_equal.
      rewrite !Hat by lia. unfold unpack_at.
      replace (k mod 32) with k by (rewrite Z.mod_small; lia).
      replace ((32 + k) mod 32) with k
        by (replace (32 + k) with (k + 1 * 32) by lia; rewrite Z.mod_add, Z.mod_small; lia).
      replace ((64 + k) mod 32) with k
        by (replace (64 + k) with (k + 2 * 32) by lia; rewrite Z.mod_add, Z.mod_small; lia).
      replace ((96 + k) mod 32) with k
        by (replace (96 + k) with (k + 3 * 32) by lia; rewrite Z.mod_add, Z.mod_small; lia).
      replace (k / 32) with 0 by (rewrite Z.div_small; lia).
      replace ((32 + k) / 32) with 1
        by (replace (32 + k) with (k + 1 * 32) by lia; rewrite Z.div_add, Z.div_small; lia).
      replace ((64 + k) / 32) with 2
        by (replace (64 + k) with (k + 2 * 32) by lia; rewrite Z.div_add, Z.div_small; lia).
      replace ((96 + k) / 32) with 3
        by (replace (96 + k) with (k + 3 * 32) by lia; rewrite Z.div_add, Z.div_small; lia).
      apply byte_of_fields.
      assert (valid_codes (at_ x k)) as [Hb _] by (apply Forall_at_; [assumption | lia]).
      exact Hb.
Qed.

Lemma packing_round_trip_witness :
  (exists bytes, pack sample_codes = Some bytes /\ length bytes = 32%nat /\
                 unpack bytes = Some sample_codes) /\
  (exists ws, unpack sample_bytes = Some ws /\ length ws = 128%nat /\
              Forall (fun w => 0 <= w <= 2) ws /\ pack ws = Some sample_bytes).
Proof.
  split.
  - apply (proj1 packing_round_trip sample_codes); [reflexivity|].
    unfold sample_codes. apply Forall_fmap, Forall_seqZ. intros j Hj. change (0 <= j mod 3 <= 2).
    pose proof (Z.mod_pos_bound j 3 ltac:(lia)). lia.
  - apply (proj2 packing_round_trip sample_bytes); [reflexivity|].
    unfold sample_bytes. apply Forall_replicate. split; [unfold byte_of; lia|].
    intros g Hg.
    assert (g = 0 \/ g = 1 \/ g = 2 \/ g = 3) as [-> | [-> | [-> | ->]]] by lia;
      vm_compute; discriminate.
Defined.

End RoundTrip.

Module DotFacts.
Import HalScalar KernelSpec SumFacts PackFacts.

(** The shift-and-mask of the source is the 2-bit field of the byte. *)
Lemma unpack_raw_field b g :
  0 <= g <= 3 -> unpack_raw b g = (b / 2 ^ (6 - 2 * g)) mod 4.
Proof.
  intros Hg. unfold unpack_raw.
  pose proof (Z.land_ones (Z.shiftr b (6 - 2 * g)) 2 ltac:(lia)) as H.
  change (Z.ones 2) with 3 in H. change (2 ^ 2) with 4 in H.
  rewrite H, Z.shiftr_div_pow2 by lia. reflexivity.
Qed.

Lemma dot_block_spec x y packed yi sum :
  0 <= packed -> 0 <= yi ->
  packed + 32 <= Z.of_nat (length x) -> yi + 128 <= Z.of_nat (length y) ->
  dot_block x y packed yi sum
  = Some (wrap32 (sum + zsum (fun j => unpack_raw (at_ x (packed + j mod 32)) (j / 32)
                                       * at_ y (yi + j)) 0 128)).
Proof.
  intros Hp Hy Hx Hly. unfold dot_block.
  set (term := fun j => unpack_raw (at_ x (packed + j mod 32)) (j / 32) * at_ y (yi + j)).
  destruct (for_loop_inv
              (fun j sum =>
                 let group_idx := Z.quot j 32 in
                 let group_pos := Z.rem j 32 in
                 byte ← read x (packed + group_pos);
                 a ← read y (yi + j);
                 Some (wrap32 (sum + unpack_raw byte group_idx * a)))
              (fun j s => s = if j =? 0 then sum
                              else wrap32 (sum + zsum term 0 (Z.to_nat j)))
              (Z.to_nat SCALAR_QK_I2_S) 0 sum) as (s' & Hrun & Hs').
  - reflexivity.
  - intros j s Hj ->. unfold SCALAR_QK_I2_S in Hj. cbv zeta.
    rewrite Z.quot_div_nonneg, Z.rem_mod_nonneg by lia.
    pose proof (Z.mod_pos_bound j 32 ltac:(lia)).
    rewrite !read_at_ by lia. cbn [mbind option_bind].
    eexists. split; [reflexivity|].
    destruct (j + 1 =? 0) eqn:E; [apply Z.eqb_eq in E; lia|].
    replace (Z.to_nat (j + 1)) with (S (Z.to_nat j)) by lia.
    rewrite (zsum_snoc term). replace (0 + Z.of_nat (Z.to_nat j)) with j by lia.
    change (term j) with (unpack_raw (at_ x (packed + j mod 32)) (j / 32) * at_ y (yi + j)).
    destruct (j =? 0) eqn:E0.
    + apply Z.eqb_eq in E0. subst j. cbn [Z.to_nat zsum]. f_equal; lia.
    + rewrite wrap32_add_l. f_equal; lia.
  - rewrite Hs' in Hrun. exact Hrun.
Qed.

Lemma raw_code_in_block x x_row b j :
  0 <= b -> 0 <= j < 128 ->
  raw_code x x_row (128 * b + j) = unpack_raw (at_ x (x_row + b * 32 + j mod 32)) (j / 32).
Proof.
  intros Hb Hj. unfold raw_code. cbv zeta.
  replace ((128 * b + j) mod 128) with j
    by (rewrite Z.add_comm, Z.mul_comm, Z.mod_add, Z.mod_small; lia).
  replace ((128 * b + j) / 128) with b
    by (rewrite Z.add_comm, Z.mul_comm, Z.div_add, Z.div_small; lia).
  symmetry. apply unpack_raw_field.
  split; [apply Z.div_pos; lia | apply Z.lt_succ_r, Z.div_lt_upper_bound; lia].
Qed.

Lemma dot_row_spec x y x_row nb :
  0 <= x_row -> 0 <= nb ->
  x_row + 32 * nb <= Z.of_nat (length x) -> 128 * nb <= Z.of_nat (length y) ->
  dot_row x y x_row nb = Some (wrap32 (raw_dot x y x_row (128 * nb))).
Proof.
  intros Hx Hnb Hlx Hly. unfold dot_row.
  set (blockterm := fun b =>
         zsum (fun j => unpack_raw (at_ x (x_row + b * 32 + j mod 32)) (j / 32)
                        * at_ y (b * 128 + j)) 0 128).
  destruct (for_loop_inv
              (fun block sum =>
                 dot_block x y (x_row + block * 32) (block * SCALAR_QK_I2_S) sum)
              (fun b s => s = wrap32 (zsum blockterm 0 (Z.to_nat b)))
              (Z.to_nat nb) 0 0) as (s' & Hrun & Hs').
  - reflexivity.
  - intros b s Hb ->. unfold SCALAR_QK_I2_S.
    rewrite dot_block_spec by lia.
    eexists. split; [reflexivity|].
    replace (Z.to_nat (b + 1)) with (S (Z.to_nat b)) by lia.
    rewrite (zsum_snoc blockterm). replace (0 + Z.of_nat (Z.to_nat b)) with b by lia.
    rewrite wrap32_add_l. reflexivity.
  - rewrite Hs' in Hrun. etransitivity; [exact Hrun|]. f_equal. f_equal. unfold raw_dot.
    rewrite Z.add_0_l, Nat2Z.id.
    replace (Z.to_nat (128 * nb)) with (Z.to_nat nb * 128)%nat by lia.
    rewrite zsum_blocks.
    apply zsum_ext. intros b Hb. unfold blockterm. apply zsum_ext. intros j Hj.
    change (Z.of_nat 128) with 128 in *.
    rewrite raw_code_in_block by lia. f_equal. f_equal. lia.
Qed.

Lemma raw_code_range x x_row i : 0 <= raw_code x x_row i <= 3.
Proof.
  unfold raw_code. cbv zeta.
  match goal with |- 0 <= ?a mod 4 <= 3 => pose proof (Z.mod_pos_bound a 4 ltac:(lia)) end.
  lia.
Qed.

Lemma raw_dot_bound x y x_row n :
  0 <= n -> Forall (fun a => -128 <= a <= 127) y ->
  - (384 * n) <= raw_dot x y x_row n <= 384 * n.
Proof.
  intros Hn Hy. unfold raw_dot.
  pose proof (zsum_bound (fun i => raw_code x x_row i * at_ y i) 384 (Z.to_nat n) 0) as H.
  rewrite Z2Nat.id in H by lia. apply H. intros k _.
  pose proof (raw_code_range x x_row k).
  assert (-128 <= at_ y k <= 127) by (apply at_range; [lia | assumption]). nia.
Qed.

Lemma raw_code_valid x x_row i :
  0 <= i -> Forall valid_codes x -> 0 <= raw_code x x_row i <= 2.
Proof.
  intros Hi Hx. pose proof (raw_code_range x x_row i) as Hr. split; [lia|].
  pose proof (Z.div_mod i 128 ltac:(lia)) as Hdm.
  pose proof (Z.mod_pos_bound i 128 ltac:(lia)) as Hj.
  assert (0 <= i / 128) as Hb by (apply Z.div_pos; lia).
  replace i with (128 * (i / 128) + i mod 128) by lia.
  rewrite raw_code_in_block by lia.
  set (idx := x_row + i / 128 * 32 + (i mod 128) mod 32).
  assert (0 <= (i mod 128) / 32 <= 3) as Hg
    by (split; [apply Z.div_pos; lia | apply Z.lt_succ_r, Z.div_lt_upper_bound; lia]).
  unfold at_. destruct (read x idx) as [b|] eqn:Hb0; cbn [default].
  - assert (valid_codes b) as [_ Hc].
    { rewrite Forall_forall in Hx. apply Hx.
      unfold read in Hb0. destruct (idx <? 0); [discriminate|].
      eapply list_elem_of_lookup_2. exact Hb0. }
    apply Hc. lia.
  - pose proof (unpack_raw_range 0 ((i mod 128) / 32) ltac:(lia)) as H0.
    assert (unpack_raw 0 ((i mod 128) / 32) = 0) as ->; [|lia].
    unfold unpack_raw. rewrite Z.shiftr_0_l. reflexivity.
Qed.

(** Claim C1. For a valid input of [scalar_vec_dot_i2_i8] with [n] a multiple
    of 128, the output of every row is the [float] conversion of an [int32]
    accumulator that sums, over the [n] weights of the row, the raw unsigned
    2-bit code (byte [j mod 32] of the block, bits [6 - 2 * (j / 32)] and
    above; in {0,1,2} for valid codes) times the [int8] activation; nothing
    is mapped to {-1,0,+1} and no scale is applied. The accumulator does not
    wrap as long as [384 * n] fits into [int32]. *)
Theorem vec_dot_raw_accumulator
  (n nb : Z) (s : list spec_float) (bs : Z) (vx : list Z) (bx : Z)
  (vy : list Z) (by_ : Z) (nrc : Z) :
  n = 128 * nb -> 0 <= nb -> 0 <= bx ->
  0 <= nrc <= Z.of_nat (length s) ->
  n <= Z.of_nat (length vy) ->
  (forall row, 0 <= row < nrc -> row * (bx / 4) + n / 4 <= Z.of_nat (length vx)) ->
  Forall (fun a => -128 <= a <= 127) vy ->
  exists s',
    scalar_vec_dot_i2_i8 n s bs vx bx vy by_ nrc = Some s' /\
    length s' = length s /\
    (forall row, 0 <= row < nrc ->
       read s' row = Some (f32_of_Z (wrap32 (raw_dot vx vy (row * (bx / 4)) n))) /\
       (384 * n <= INT32_MAX ->
          wrap32 (raw_dot vx vy (row * (bx / 4)) n) = raw_dot vx vy (row * (bx / 4)) n) /\
       (Forall valid_codes vx ->
          forall i, 0 <= i < n -> 0 <= raw_code vx (row * (bx / 4)) i <= 2)) /\
    (forall row, nrc <= row -> read s' row = read s row).
Proof.
  intros Hn Hnb Hbx Hnrc Hvy Hvx Hact. unfold scalar_vec_dot_i2_i8. cbv zeta.
  assert (Z.quot n SCALAR_QK_I2_S = nb) as ->
    by (unfold SCALAR_QK_I2_S; rewrite Z.quot_div_nonneg by lia; subst n;
        rewrite Z.mul_comm, Z.div_mul; lia).
  assert (n / 4 = 32 * nb) as Hq
    by (subst n; replace (128 * nb) with (32 * nb * 4) by lia; apply Z.div_mul; lia).
  assert (0 <= bx / 4) as Hstride by (apply Z.div_pos; lia).
  destruct (for_loop_inv
              (fun row s =>
                 let x_row := row * Z.quot bx 4 in
                 sum ← dot_row vx vy x_row nb;
                 write s row (f32_of_Z sum))
              (fun r s0 =>
                 length s0 = length s /\
                 (forall row, 0 <= row < r ->
                    read s0 row = Some (f32_of_Z (wrap32 (raw_dot vx vy (row * (bx / 4)) n)))) /\
                 (forall row, r <= row -> read s0 row = read s row))
              (Z.to_nat nrc) 0 s) as (s' & Hrun & Hlen & Hrows & Hrest).
  - split; [reflexivity|]. split; [intros row Hr; lia | reflexivity].
  - intros r s0 Hr (Hlen & Hrows & Hrest). cbv zeta.
    rewrite Z.quot_div_nonneg by lia.
    specialize (Hvx r ltac:(lia)).
    rewrite dot_row_spec by nia. cbn [mbind option_bind].
    rewrite write_in_range by lia.
    eexists. split; [reflexivity|]. split; [rewrite length_insert; exact Hlen|]. split.
    + intros row Hrow. destruct (decide (row = r)) as [->|Hne].
      * rewrite read_insert_eq by lia. subst n. reflexivity.
      * rewrite read_insert_ne by lia. apply Hrows. lia.
    + intros row Hrow. rewrite read_insert_ne by lia. apply Hrest. lia.
  - exists s'. split; [exact Hrun|]. split; [exact Hlen|]. split.
    + intros row Hrow. split; [apply Hrows; lia|]. split.
      * intros Hsmall. apply wrap32_id.
        pose proof (raw_dot_bound vx vy (row * (bx / 4)) n ltac:(lia) Hact).
        unfold in_int32, INT32_MIN, INT32_MAX in *. lia.
      * intros Hcodes i Hi. apply raw_code_valid; [lia | exact Hcodes].
    + intros row Hrow. apply Hrest. lia.
Qed.

(** 128 weights of raw code 2 (bytes 0xAA) against activations 1 give
    256.0: the raw codes are summed, not the ternary values (which would
    give 128) and no scale is applied. *)
Example vec_dot_raw_codes :
  scalar_vec_dot_i2_i8 128 [fzero] 4 (replicate 32 170) 128 (replicate 128 1) 128 1
  = Some [f32_of_Z 256].
Proof. vm_compute. reflexivity. Qed.

Lemma vec_dot_raw_accumulator_witness :
  exists s',
    scalar_vec_dot_i2_i8 128 [fzero; fzero] 4 (replicate 64 170) 128 (replicate 128 1) 128 2
    = Some s' /\
    length s' = length [fzero; fzero] /\
    (forall row, 0 <= row < 2 ->
       read s' row
       = Some (f32_of_Z (wrap32 (raw_dot (replicate 64 170) (replicate 128 1)
                                         (row * (128 / 4)) 128))) /\
       (384 * 128 <= INT32_MAX ->
          wrap32 (raw_dot (replicate 64 170) (replicate 128 1) (row * (128 / 4)) 128)
          = raw_dot (replicate 64 170) (replicate 128 1) (row * (128 / 4)) 128) /\
       (Forall valid_codes (replicate 64 170) ->
          forall i, 0 <= i < 128 ->
                    0 <= raw_code (replicate 64 170) (row * (128 / 4)) i <= 2)) /\
    (forall row, 2 <= row -> read s' row = read [fzero; fzero] row).
Proof.
  apply (vec_dot_raw_accumulator 128 1 [fzero; fzero] 4 (replicate 64 170) 128
           (replicate 128 1) 128 2).
  - reflexivity.
  - lia.
  - lia.
  - simpl. lia.
  - simpl. lia.
  - intros row Hrow. change (128 / 4) with 32. simpl. lia.
  - apply Forall_replicate. lia.
Defined.

End DotFacts.

Lemma quot_bound_scaled a b c : 0 < b -> Z.abs a <= b * c -> - c <= Z.quot a b <= c.
Proof.
  intros Hb Hc. destruct (Z.le_gt_cases 0 a) as [Ha|Ha].
  - rewrite Z.quot_div_nonneg by lia.
    pose proof (Z.div_pos a b Ha Hb). pose proof (Z.div_le_upper_bound a b c Hb ltac:(lia)). lia.
  - replace a with (- (- a)) at 1 2 by lia. rewrite Z.quot_opp_l by lia.
    rewrite Z.quot_div_nonneg by lia.
    pose proof (Z.div_pos (- a) b ltac:(lia) Hb).
    pose proof (Z.div_le_upper_bound (- a) b c Hb ltac:(lia)). lia.
Qed.

Module BudgetFacts.
Import HwDetect HwSpec.

Lemma budget_of_max avail :
  INT64_MIN + 500 <= avail <= INT64_MAX -> budget_of avail = Z.max 256 (avail - 500).
Proof.
  intros H. unfold budget_of. cbv zeta.
  rewrite wrap64_id by (unfold in_int64, INT64_MIN, INT64_MAX in *; lia).
  destruct (avail - 500 <? 256) eqn:E; [apply Z.ltb_lt in E | apply Z.ltb_ge in E]; lia.
Qed.

(** Whatever the platform, the available RAM in MB is far inside [int64_t]. *)
Lemma detect_ram_available_range p os :
  os_report_ok os -> - 2 ^ 54 <= snd (detect_ram p os) <= 2 ^ 54.
Proof.
  intros (Ht & Ha & Hf & Hb & Hc & Hm & Hut & Hua & Hp & Hs).
  unfold in_int64, INT64_MIN, INT64_MAX in *.
  destruct p; unfold detect_ram; cbv zeta.
  - destruct (Z.quot (meminfo_MemAvailable os) 1024 <=? 0); cbn [snd].
    + pose proof (wrap64_range (wrap64 (meminfo_MemFree os + meminfo_Buffers os)
                                + meminfo_Cached os)) as Hw.
      unfold in_int64, INT64_MIN, INT64_MAX in Hw.
      apply quot_bound_scaled; lia.
    + apply quot_bound_scaled; lia.
  - cbn [snd].
    assert (- 2 ^ 43 <= Z.quot (memsize os) (1024 * 1024) <= 2 ^ 43) as Htot
      by (apply quot_bound_scaled; lia).
    rewrite wrap64_id by (unfold in_int64, INT64_MIN, INT64_MAX; lia).
    apply quot_bound_scaled; lia.
  - cbn [snd].
    assert (0 <= ullAvailPhys os / (1024 * 1024) < 2 ^ 44) as Hq
      by (split; [apply Z.div_pos; lia | apply Z.div_lt_upper_bound; lia]).
    rewrite wrap64_id by (unfold in_int64, INT64_MIN, INT64_MAX; lia). lia.
  - cbn [snd].
    assert (- 2 ^ 43 <= (if (0 <? pages os) && (0 <? page_size os)
                         then Z.quot (wrap64 (pages os * page_size os)) (1024 * 1024)
                         else 2048) <= 2 ^ 43) as Htot.
    { destruct ((0 <? pages os) && (0 <? page_size os)); [|lia].
      pose proof (wrap64_range (pages os * page_size os)) as Hw.
      unfold in_int64, INT64_MIN, INT64_MAX in Hw.
      apply quot_bound_scaled; lia. }
    rewrite wrap64_id by (unfold in_int64, INT64_MIN, INT64_MAX; lia).
    apply quot_bound_scaled; lia.
Qed.

(** Claim C5. For every detection result of the hardware probe,
    [model_budget_mb] is [max (256, ram_available_mb - 500)]. *)
Theorem model_budget_is_max (p : platform) (os : os_report) :
  os_report_ok os ->
  model_budget_mb (neuronos_detect_hardware p os)
  = Z.max 256 (ram_available_mb (neuronos_detect_hardware p os) - 500).
Proof.
  intros Hok. pose proof (detect_ram_available_range p os Hok) as Hr.
  unfold neuronos_detect_hardware. destruct (detect_ram p os) as [total avail].
  cbn [snd model_budget_mb ram_available_mb] in *.
  apply budget_of_max. unfold INT64_MIN, INT64_MAX. lia.
Qed.

(** 8 GiB available leave a budget of 7692 MB; 600 MB available leave the
    minimum of 256 MB. *)
Example budget_8GiB : budget_of 8192 = 7692.
Proof. reflexivity. Qed.

Example budget_minimum : budget_of 600 = 256.
Proof. reflexivity. Qed.

Lemma model_budget_is_max_witness :
  model_budget_mb (neuronos_detect_hardware Linux sample_report)
  = Z.max 256 (ram_available_mb (neuronos_detect_hardware Linux sample_report) - 500).
Proof.
  apply (model_budget_is_max Linux sample_report).
  unfold os_report_ok, in_int64, INT64_MIN, INT64_MAX, sample_report. simpl. lia.
Defined.

End BudgetFacts.

(** ** Scanning loops *)

Lemma scan_from_None (p : nat -> bool) (i n : nat) :
  scan_from p i n = None <-> forall k, (i <= k < i + n)%nat -> p k = false.
Proof.
  revert i. induction n as [|n IH]; intros i; simpl.
  - split; [intros _ k Hk; lia | reflexivity].
  - destruct (p i) eqn:Hp.
    + split; [discriminate|]. intros H. rewrite H in Hp by lia. discriminate.
    + rewrite IH. split; intros H k Hk.
      * destruct (decide (k = i)) as [->|]; [assumption | apply H; lia].
      * apply H; lia.
Qed.

Lemma scan_from_Some (p : nat -> bool) (i n k : nat) :
  scan_from p i n = Some k ->
  (i <= k < i + n)%nat /\ p k = true /\ forall j, (i <= j < k)%nat -> p j = false.
Proof.
  revert i. induction n as [|n IH]; intros i; simpl; [discriminate|].
  destruct (p i) eqn:Hp.
  - intros [= <-]. repeat split; [lia | lia | assumption | intros j Hj; lia].
  - intros H. apply IH in H as (Hk & Hpk & Hlt).
    repeat split; [lia | lia | assumption |].
    intros j Hj. destruct (decide (j = i)) as [->|]; [assumption | apply Hlt; lia].
Qed.

Module RegistryFacts.
Import ToolRegistry RegistrySpec.

Lemma name_at_true r nm i :
  name_at r nm i = true <-> exists t, tools r !! i = Some t /\ name t = Some nm.
Proof.
  unfold name_at. destruct (tools r !! i) as [t|]; [|split; [discriminate | intros (t & [=] & _)]].
  destruct (name t) as [s|] eqn:Hs.
  - rewrite String.eqb_eq. split.
    + intros ->. eauto.
    + intros (t' & [= <-] & Ht'). congruence.
  - split; [discriminate | intros (t' & [= <-] & Ht'); congruence].
Qed.

(** A name held by a slot in use is found by the lookup loop. *)
Lemma find_tool_registered r i t nm :
  registered r i t -> name t = Some nm -> exists k, find_tool r nm = Some k.
Proof.
  intros [Hi Ht] Hn. unfold find_tool.
  destruct (scan_from (name_at r nm) 0 (Z.to_nat (count r))) as [k|] eqn:Hs; [eauto|].
  rewrite scan_from_None in Hs. specialize (Hs i ltac:(lia)).
  assert (name_at r nm i = true) as Ht' by (apply name_at_true; eauto).
  congruence.
Qed.

Lemma find_tool_Some r nm k :
  find_tool r nm = Some k ->
  exists t, registered r k t /\ name t = Some nm.
Proof.
  intros (Hk & Hp & _)%scan_from_Some.
  apply name_at_true in Hp as (t & Ht & Hn).
  exists t. split; [split; [lia | assumption] | assumption].
Qed.

Lemma find_tool_None r nm :
  find_tool r nm = None ->
  forall i t, registered r i t -> name t <> Some nm.
Proof.
  unfold find_tool. rewrite scan_from_None. intros H i t [Hi Ht] Hn.
  specialize (H i ltac:(lia)).
  assert (name_at r nm i = true) by (apply name_at_true; eauto). congruence.
Qed.

(** Under the invariant the lookup loop finds the slot that holds the name. *)
Lemma find_tool_unique r i t nm :
  reg_inv r -> registered r i t -> name t = Some nm -> find_tool r nm = Some i.
Proof.
  intros Hinv Hr Hn.
  destruct (find_tool_registered r i t nm Hr Hn) as [k Hk].
  destruct (find_tool_Some _ _ _ Hk) as (t' & Hr' & Hn').
  rewrite Hk. f_equal. eapply (inv_distinct r Hinv); eauto. congruence.
Qed.

(** Claim C6. Registering a descriptor whose name is the name of a tool
    already in the registry, or whose executor is NULL, or when the
    registry holds its 64 tools, returns -1 and leaves the registry as it
    was: same count, same entries in the same order. *)
Theorem register_rejects_without_mutation (r : tool_reg) (d : tool_desc) :
  (exists i t, registered r i t /\ name t = name d /\ name d <> None) \/
  execute d = None \/ count r = NEURONOS_MAX_TOOLS ->
  neuronos_tool_register (Some r) (Some d) = (Some r, -1).
Proof.
  unfold neuronos_tool_register. intros [(i & t & Hr & Hn & Hd) | [-> | ->]].
  - destruct (name d) as [nm|] eqn:Hnm; [|congruence].
    destruct (execute d); [|reflexivity].
    destruct (NEURONOS_MAX_TOOLS <=? count r); [reflexivity|].
    destruct (find_tool_registered r i t nm Hr Hn) as [k ->]. reflexivity.
  - destruct (name d); reflexivity.
  - rewrite Z.leb_refl. destruct (name d), (execute d); reflexivity.
Qed.

(** The sample registries are what register calls on a fresh registry
    leave behind. *)
Lemma two_tools_reachable :
  register_all (neuronos_tool_registry_create true)
               [Some desc_calc; Some (desc_shell 4)] = Some two_tools.
Proof. reflexivity. Qed.

Lemma one_long_name_reachable :
  register_all (neuronos_tool_registry_create true)
               [Some {| name := Some long_name; description := None;
                        args_schema_json := None; execute := Some (extern_fn 0);
                        user_data := 0; required_caps := 0 |}]
  = Some one_long_name.
Proof. vm_compute. reflexivity. Qed.

Lemma register_rejects_without_mutation_witness :
  neuronos_tool_register (Some two_tools) (Some (desc_shell 1)) = (Some two_tools, -1).
Proof.
  apply (register_rejects_without_mutation two_tools (desc_shell 1)).
  left. exists 1%nat, (desc_shell 4).
  split; [split; [simpl; lia | reflexivity] | split; [reflexivity | discriminate]].
Defined.

(** Claim C9. With a NULL registry or a NULL tool name, execute returns
    [{success = false, error = "Invalid arguments"}] and calls no
    executor; with NULL arguments the executor of the tool that was found
    is called with the string "{}". *)
Theorem execute_total_at_interface :
  (forall reg tool_name args_json,
      reg = None \/ tool_name = None ->
      neuronos_tool_execute reg tool_name args_json = Ret invalid_arguments /\
      invoked (neuronos_tool_execute reg tool_name args_json) = None) /\
  (forall r nm i t f,
      find_tool r nm = Some i -> tools r !! i = Some t -> execute t = Some f ->
      neuronos_tool_execute (Some r) (Some nm) None = Call f "{}" (user_data t)).
Proof.
  split.
  - intros reg tool_name args_json [-> | ->]; [|destruct reg]; split; reflexivity.
  - intros r nm i t f Hf Ht He. unfold neuronos_tool_execute.
    rewrite Hf, Ht, He. reflexivity.
Qed.

Lemma execute_total_at_interface_witness :
  neuronos_tool_execute None (Some "shell"%string) (Some "{}"%string) = Ret invalid_arguments /\
  neuronos_tool_execute (Some two_tools) (Some "shell"%string) None = Call tool_shell "{}" 0.
Proof.
  split.
  - apply (proj1 execute_total_at_interface). left. reflexivity.
  - apply (proj2 execute_total_at_interface two_tools "shell"%string 1%nat (desc_shell 4));
      reflexivity.
Defined.

(** *** The invariant of the registry *)

Lemma create_inv r : neuronos_tool_registry_create true = Some r -> reg_inv r.
Proof.
  intros [= <-]. split; simpl.
  - unfold NEURONOS_MAX_TOOLS. lia.
  - reflexivity.
  - intros i t [Hi _]. simpl in Hi. lia.
  - intros i j ti tj [Hi _]. simpl in Hi. lia.
Qed.

Lemma registered_insert r d i t :
  reg_inv r -> count r < NEURONOS_MAX_TOOLS ->
  registered {| tools := <[Z.to_nat (count r) := d]> (tools r); count := count r + 1 |} i t ->
  (i = Z.to_nat (count r) /\ t = d) \/ registered r i t.
Proof.
  intros Hinv Hlt [Hi Ht]. simpl in Hi, Ht.
  pose proof (inv_count r Hinv) as Hc. pose proof (inv_length r Hinv) as Hl.
  destruct (decide (i = Z.to_nat (count r))) as [->|Hne].
  - left. rewrite list_lookup_insert_eq in Ht by lia. split; congruence.
  - right. rewrite list_lookup_insert_ne in Ht by congruence. split; [lia | assumption].
Qed.

Lemma register_inv r d reg' rc :
  reg_inv r -> neuronos_tool_register (Some r) d = (reg', rc) ->
  exists r', reg' = Some r' /\ reg_inv r'.
Proof.
  intros Hinv. unfold neuronos_tool_register.
  destruct d as [d|]; [|intros [= <- _]; eauto].
  destruct (name d) as [nm|] eqn:Hnm; [|intros [= <- _]; eauto].
  destruct (execute d) as [f|] eqn:Hex; [|intros [= <- _]; eauto].
  destruct (NEURONOS_MAX_TOOLS <=? count r) eqn:Hcap; [intros [= <- _]; eauto|].
  apply Z.leb_gt in Hcap.
  destruct (find_tool r nm) as [k|] eqn:Hfind; [intros [= <- _]; eauto|].
  intros [= <- _]. eexists; split; [reflexivity|].
  pose proof (inv_count r Hinv) as Hc. pose proof (find_tool_None r nm Hfind) as Hfresh.
  split; simpl.
  - lia.
  - rewrite length_insert. apply (inv_length r Hinv).
  - intros i t [[-> ->] | Hr]%registered_insert; [| |assumption..].
    + split; congruence.
    + apply (inv_used r Hinv i t Hr).
  - intros i j ti tj [[-> ->] | Hi]%registered_insert
                     [[-> ->] | Hj]%registered_insert; try assumption.
    + reflexivity.
    + intros Hn. exfalso. apply (Hfresh j tj Hj). congruence.
    + intros Hn. exfalso. apply (Hfresh i ti Hi). congruence.
    + apply (inv_distinct r Hinv i j ti tj Hi Hj).
Qed.

Lemma register_all_None ds : register_all None ds = None.
Proof. induction ds as [|d ds IH]; [reflexivity | exact IH]. Qed.

Lemma register_all_cons reg d ds :
  register_all reg (d :: ds) = register_all (fst (neuronos_tool_register reg d)) ds.
Proof. reflexivity. Qed.

Lemma register_all_inv r ds :
  reg_inv r -> exists r', register_all (Some r) ds = Some r' /\ reg_inv r'.
Proof.
  revert r. induction ds as [|d ds IH]; intros r Hinv; [simpl; eauto|].
  rewrite register_all_cons.
  destruct (neuronos_tool_register (Some r) d) as [reg' rc] eqn:Hreg.
  destruct (register_inv r d reg' rc Hinv Hreg) as (r' & -> & Hinv').
  apply IH, Hinv'.
Qed.

(** Reading a name by index, under the invariant. *)
Lemma tool_name_in_range r index :
  reg_inv r -> 0 <= index < count r ->
  exists t nm, registered r (Z.to_nat index) t /\ name t = Some nm /\
               neuronos_tool_name (Some r) index = Some nm.
Proof.
  intros Hinv Hi. pose proof (inv_count r Hinv) as Hc. pose proof (inv_length r Hinv) as Hl.
  destruct (lookup_lt_is_Some_2 (tools r) (Z.to_nat index)) as [t Ht];
    [unfold NEURONOS_MAX_TOOLS in *; lia|].
  assert (registered r (Z.to_nat index) t) as Hr by (split; [lia | assumption]).
  destruct (inv_used r Hinv _ _ Hr) as [Hn _].
  destruct (name t) as [nm|] eqn:Hnm; [|congruence].
  exists t, nm. repeat split; try assumption; try lia.
  unfold neuronos_tool_name.
  destruct (index <? 0) eqn:H1; [apply Z.ltb_lt in H1; lia|].
  destruct (count r <=? index) eqn:H2; [apply Z.leb_le in H2; lia|].
  simpl. rewrite Ht. assumption.
Qed.

Lemma tool_name_out_of_range reg index :
  ~ (0 <= index < neuronos_tool_count reg) -> neuronos_tool_name reg index = None.
Proof.
  destruct reg as [r|]; [|reflexivity]. simpl. intros H.
  destruct (index <? 0) eqn:H1; [reflexivity|]. apply Z.ltb_ge in H1.
  destruct (count r <=? index) eqn:H2; [reflexivity|]. apply Z.leb_gt in H2. lia.
Qed.

(** Claim C10. After any sequence of register calls on a freshly created
    registry the count is between 0 and 64, the names at the indices below
    the count are pairwise distinct, and the lookup of a name by index
    returns NULL exactly for the indices outside [0, count). *)
Theorem registry_invariant (calloc_ok : bool) (ds : list (option tool_desc)) :
  let reg := register_all (neuronos_tool_registry_create calloc_ok) ds in
  0 <= neuronos_tool_count reg <= 64 /\
  (forall i j, 0 <= i < neuronos_tool_count reg -> 0 <= j < neuronos_tool_count reg ->
               i <> j -> neuronos_tool_name reg i <> neuronos_tool_name reg j) /\
  (forall index, neuronos_tool_name reg index = None <->
                 ~ (0 <= index < neuronos_tool_count reg)).
Proof.
  destruct calloc_ok; unfold neuronos_tool_registry_create; cbv zeta.
  - destruct (register_all_inv _ ds (create_inv _ eq_refl)) as (r & -> & Hinv).
    assert (neuronos_tool_count (Some r) = count r) as -> by reflexivity.
    split; [apply (inv_count r Hinv)|]. split.
    + intros i j Hi Hj Hne.
      destruct (tool_name_in_range r i Hinv Hi) as (ti & ni & Hri & Hni & ->).
      destruct (tool_name_in_range r j Hinv Hj) as (tj & nj & Hrj & Hnj & ->).
      intros [= ->]. apply Hne.
      assert (Z.to_nat i = Z.to_nat j) by
        (apply (inv_distinct r Hinv _ _ ti tj Hri Hrj); congruence).
      lia.
    + intros index. split.
      * intros Hnone Hin.
        destruct (tool_name_in_range r index Hinv Hin) as (t & nm & _ & _ & Hsome).
        congruence.
      * apply (tool_name_out_of_range (Some r)).
  - rewrite register_all_None.
    assert (neuronos_tool_count None = 0) as -> by reflexivity.
    split; [lia|]. split.
    + intros i j Hi. lia.
    + intros index. split; [intros _; lia | reflexivity].
Qed.

Lemma registry_invariant_witness :
  neuronos_tool_name
    (register_all (neuronos_tool_registry_create true)
                  [Some desc_calc; Some (desc_shell 4); Some desc_calc]) 0
  <> neuronos_tool_name
       (register_all (neuronos_tool_registry_create true)
                     [Some desc_calc; Some (desc_shell 4); Some desc_calc]) 1.
Proof.
  assert (neuronos_tool_count
            (register_all (neuronos_tool_registry_create true)
                          [Some desc_calc; Some (desc_shell 4); Some desc_calc]) = 2) as Hc
    by (vm_compute; reflexivity).
  apply (proj1 (proj2 (registry_invariant true
                         [Some desc_calc; Some (desc_shell 4); Some desc_calc])));
    rewrite ?Hc; lia.
Defined.

End RegistryFacts.

(** ** Strings *)

Lemma str_app_cons a s t : String a s +:+ t = String a (s +:+ t).
Proof. reflexivity. Qed.

Lemma str_app_nil_l s : EmptyString +:+ s = s.
Proof. reflexivity. Qed.

Lemma str_app_assoc s t u : (s +:+ t) +:+ u = s +:+ (t +:+ u).
Proof.
  induction s as [|a s IH]; [reflexivity|].
  rewrite !str_app_cons. f_equal. exact IH.
Qed.

Lemma str_length_app s t :
  String.length (s +:+ t) = (String.length s + String.length t)%nat.
Proof.
  induction s as [|a s IH]; [reflexivity|].
  rewrite str_app_cons. simpl. f_equal. exact IH.
Qed.

Lemma substring_all s n : (String.length s <= n)%nat -> String.substring 0 n s = s.
Proof.
  revert n. induction s as [|a s IH]; intros n Hn.
  - destruct n; reflexivity.
  - destruct n as [|n]; [simpl in Hn; lia|]. simpl. f_equal. apply IH. simpl in Hn. lia.
Qed.

Module GrammarFacts.
Import ToolRegistry RegistrySpec.

Lemma strlen_app s t : strlen (s +:+ t) = strlen s + strlen t.
Proof. unfold strlen. rewrite str_length_app. lia. Qed.

Lemma strlen_nonneg s : 0 <= strlen s.
Proof. unfold strlen. lia. Qed.

Lemma snprintf_at_fits cap t s :
  strlen (t +:+ s) < cap ->
  snprintf_at cap (exact_buf t) s = Some (exact_buf (t +:+ s)).
Proof.
  intros Hfit. rewrite strlen_app in Hfit. pose proof (strlen_nonneg s).
  unfold snprintf_at, exact_buf. simpl.
  destruct (cap <? strlen t) eqn:H1; [apply Z.ltb_lt in H1; lia|].
  destruct (cap =? strlen t) eqn:H2; [apply Z.eqb_eq in H2; lia|].
  unfold str_take. rewrite substring_all by (unfold strlen in *; lia).
  rewrite strlen_app. reflexivity.
Qed.

Lemma str_app_nil_r s : s +:+ EmptyString = s.
Proof.
  induction s as [|a s IH]; [reflexivity|]. rewrite str_app_cons. f_equal. exact IH.
Qed.

Lemma grammar_step_fits cap r i nm t :
  name_or_undefined r i = Some nm ->
  strlen (t +:+ separator i +:+ quoted_name nm) < cap ->
  grammar_step cap r i (exact_buf t)
  = Some (exact_buf (t +:+ separator i +:+ quoted_name nm)).
Proof.
  intros Hnm Hfit.
  set (pre := DQ +:+ "\" +:+ DQ).
  set (post := "\" +:+ DQ +:+ DQ).
  assert (t +:+ separator i +:+ quoted_name nm
          = (((t +:+ separator i) +:+ pre) +:+ nm) +:+ post) as Heq.
  { unfold quoted_name, pre, post. rewrite !str_app_assoc. reflexivity. }
  rewrite Heq in *. rewrite !strlen_app in Hfit.
  pose proof (strlen_nonneg (separator i)). pose proof (strlen_nonneg pre).
  pose proof (strlen_nonneg nm). pose proof (strlen_nonneg post).
  unfold grammar_step. fold pre post.
  assert ((if decide (i = O) then Some (exact_buf t)
           else snprintf_at cap (exact_buf t) " | ")
          = Some (exact_buf (t +:+ separator i))) as ->.
  { unfold separator in *. destruct (decide (i = O)).
    - rewrite str_app_nil_r. reflexivity.
    - apply snprintf_at_fits. rewrite strlen_app. lia. }
  cbn [mbind option_bind].
  rewrite snprintf_at_fits by (rewrite !strlen_app; lia).
  cbn [mbind option_bind]. rewrite Hnm. cbn [mbind option_bind].
  rewrite snprintf_at_fits by (rewrite !strlen_app; lia).
  cbn [mbind option_bind].
  apply snprintf_at_fits. rewrite !strlen_app. lia.
Qed.

Lemma grammar_loop_fits cap r l : forall i t,
  (0 < i)%nat ->
  (forall k nm, l !! k = Some nm -> name_or_undefined r (i + k) = Some nm) ->
  strlen (t +:+ tail_alternatives l) < cap ->
  grammar_loop cap r i (length l) (exact_buf t)
  = Some (exact_buf (t +:+ tail_alternatives l)).
Proof.
  induction l as [|a l IH]; intros i t Hi Hnames Hfit.
  - simpl. rewrite str_app_nil_r. reflexivity.
  - assert (tail_alternatives (a :: l)
            = separator i +:+ quoted_name a +:+ tail_alternatives l) as Htail.
    { unfold separator. destruct (decide (i = O)); [lia | reflexivity]. }
    rewrite Htail in *.
    assert (t +:+ separator i +:+ quoted_name a +:+ tail_alternatives l
            = (t +:+ separator i +:+ quoted_name a) +:+ tail_alternatives l) as Hassoc
      by (rewrite !str_app_assoc; reflexivity).
    rewrite Hassoc in *.
    cbn [length grammar_loop].
    rewrite (grammar_step_fits cap r i a t).
    + simpl. apply IH; [lia | | assumption].
      intros k nm Hk. replace (S i + k)%nat with (i + S k)%nat by lia.
      apply Hnames. exact Hk.
    + replace i with (i + 0)%nat at 1 by lia. apply Hnames. reflexivity.
    + rewrite strlen_app in Hfit. pose proof (strlen_nonneg (tail_alternatives l)). lia.
Qed.

Lemma names_in_use_lookup r nms k nm :
  names_in_use r = map Some nms -> nms !! k = Some nm ->
  name_or_undefined r k = Some nm.
Proof.
  intros Hn Hk. unfold name_or_undefined.
  assert (names_in_use r !! k = Some (Some nm)) as Hlk
    by (rewrite Hn, list_lookup_fmap, Hk; reflexivity).
  unfold names_in_use in Hlk. rewrite list_lookup_fmap in Hlk.
  destruct (take (Z.to_nat (count r)) (tools r) !! k) as [t|] eqn:Ht; [|discriminate].
  apply lookup_take_Some in Ht as [Ht _]. rewrite Ht. simpl in Hlk. congruence.
Qed.

Lemma noop_rule_text :
  list_ascii_of_string noop_rule
  = map ascii_of_nat
        [116; 111; 111; 108; 45; 110; 97; 109; 101; 32; 58; 58; 61; 32;
         34; 92; 34; 110; 111; 111; 112; 92; 34; 34]%nat.
Proof. reflexivity. Qed.

(** Claim C8. The generator is to emit the registered names in
    registration order. The code sizes its buffer by an estimate and does
    not do so when the rule is longer: for the registry of one tool whose
    name has 279 characters it returns the rule with the name cut to 278
    characters and without the closing quotes, which is not the rule of
    that name. *)
Theorem grammar_names_long_name_cut :
  neuronos_tool_grammar_names (Some one_long_name)
  = Some ("tool-name ::= " +:+ DQ +:+ "\" +:+ DQ +:+ str_take 278 long_name) /\
  neuronos_tool_grammar_names (Some one_long_name) <> Some (rule_of_names [long_name]).
Proof.
  split; [vm_compute; reflexivity|].
  intros H. apply (f_equal (fun o => match o with Some s => strlen s | None => 0 end)) in H.
  vm_compute in H. discriminate.
Qed.

(** With one character more in the name the length passes the size of
    the buffer before the closing quotes are printed: the size given to
    [snprintf] wraps and the write leaves the buffer. *)
Example grammar_names_longer_name_overruns :
  neuronos_tool_grammar_names (Some one_longer_name) = None.
Proof. vm_compute. reflexivity. Qed.

(** Where the generator does what is asked of it: for a NULL registry or
    a registry without tools it returns exactly the rule naming the
    placeholder tool [noop]; for a non-empty registry whose rule is
    shorter than the buffer of [256 + 40 * count] bytes it returns the
    rule of the registered names in registration order. *)
Lemma grammar_names_rule :
  neuronos_tool_grammar_names None = Some noop_rule /\
  (forall r, count r = 0 -> neuronos_tool_grammar_names (Some r) = Some noop_rule) /\
  (forall r nms,
      0 < count r ->
      names_in_use r = map Some nms ->
      length nms = Z.to_nat (count r) ->
      strlen (rule_of_names nms) < 256 + count r * 40 ->
      neuronos_tool_grammar_names (Some r) = Some (rule_of_names nms)).
Proof.
  split; [reflexivity|]. split.
  - intros r Hc. unfold neuronos_tool_grammar_names. rewrite Hc. reflexivity.
  - intros r nms Hpos Hnames Hlen Hfit. unfold neuronos_tool_grammar_names.
    destruct (count r =? 0) eqn:Hz; [apply Z.eqb_eq in Hz; lia|].
    set (cap := 256 + count r * 40) in *.
    destruct nms as [|a l]; [simpl in Hlen; lia|].
    unfold rule_of_names, alternatives in *.
    change {| sb_text := EmptyString; sb_len := 0 |} with (exact_buf EmptyString).
    rewrite snprintf_at_fits.
    2:{ rewrite str_app_nil_l. rewrite strlen_app in *.
        pose proof (strlen_nonneg (quoted_name a +:+ tail_alternatives l)). lia. }
    rewrite str_app_nil_l. simpl in Hlen. rewrite <- Hlen.
    cbn [mbind option_bind grammar_loop].
    rewrite (grammar_step_fits cap r 0 a).
    + simpl. rewrite str_app_nil_l.
      rewrite (grammar_loop_fits cap r l 1).
      * simpl. rewrite str_app_assoc. reflexivity.
      * lia.
      * intros k nm Hk. apply (names_in_use_lookup r (a :: l)); assumption.
      * rewrite str_app_assoc. assumption.
    + apply (names_in_use_lookup r (a :: l)); [assumption | reflexivity].
    + unfold separator. simpl. rewrite str_app_nil_l.
      rewrite <- str_app_assoc, strlen_app in Hfit.
      pose proof (strlen_nonneg (tail_alternatives l)). lia.
Qed.

(** The registry of the built-in tools for the filesystem and shell
    capabilities: the names appear in registration order. *)
Example grammar_of_defaults :
  neuronos_tool_grammar_names (default_registry 4 1 5)
  = Some (rule_of_names ["shell"; "read_file"; "write_file"; "calculate"]%string).
Proof. vm_compute. reflexivity. Qed.

Lemma grammar_names_rule_witness :
  neuronos_tool_grammar_names (Some two_tools)
  = Some (rule_of_names ["calculate"%string; "shell"%string]).
Proof.
  apply (proj2 (proj2 grammar_names_rule) two_tools); [simpl; lia | reflexivity.. |].
  vm_compute. reflexivity.
Defined.
End GrammarFacts.

Module GatingFacts.
Import ToolRegistry RegistrySpec.

(** The literal claim fails: the registered [shell] tool runs although
    the granted mask 0 lacks its capability bit. *)
Lemma capability_gating_counterexample :
  registered two_tools 1 (desc_shell 4) /\
  ~ gated_by 0 (desc_shell 4)
      (neuronos_tool_execute (Some two_tools) (name (desc_shell 4)) None).
Proof.
  split; [split; [simpl; lia | reflexivity]|].
  unfold gated_by. intros [H _]. specialize (H eq_refl). discriminate.
Qed.

Section Defaults.
Variables SH FS : Z.

(** Claim C7 (amended). Capabilities gate the registration of the built-in
    tools, not their execution: after [register_defaults] on a fresh
    registry with the mask [allowed], executing [shell] runs its
    executor iff [allowed & CAP_SHELL] is non-zero, [read_file] and
    [write_file] iff [allowed & CAP_FILESYSTEM] is non-zero, and
    [calculate] always; and executing the name of any registered tool
    runs its executor, whatever its required mask. *)
Theorem capability_gating_at_registration (allowed : Z) :
  (forall args,
      invoked (neuronos_tool_execute (default_registry SH FS allowed) (Some "shell"%string) args)
      = Some tool_shell <-> Z.land allowed SH <> 0) /\
  (forall args,
      invoked (neuronos_tool_execute (default_registry SH FS allowed) (Some "read_file"%string) args)
      = Some tool_read_file <-> Z.land allowed FS <> 0) /\
  (forall args,
      invoked (neuronos_tool_execute (default_registry SH FS allowed) (Some "write_file"%string) args)
      = Some tool_write_file <-> Z.land allowed FS <> 0) /\
  (forall args,
      invoked (neuronos_tool_execute (default_registry SH FS allowed) (Some "calculate"%string) args)
      = Some tool_calculate) /\
  (forall r i t nm f args,
      find_tool r nm = Some i -> tools r !! i = Some t -> execute t = Some f ->
      invoked (neuronos_tool_execute (Some r) (Some nm) args) = Some f).
Proof.
  unfold default_registry.
  unfold neuronos_tool_register_defaults, neuronos_tool_registry_create.
  assert (forall (o v : option exec_fn) (P : Prop), o = v -> P -> (o = v <-> P)) as Hyes by tauto.
  assert (forall (v : exec_fn) (P : Prop), ~ P -> (None = Some v <-> P)) as Hno
    by (intros v P HP; split; [discriminate | tauto]).
  destruct (Z.land allowed SH =? 0) eqn:Hs; destruct (Z.land allowed FS =? 0) eqn:Hf;
    [apply Z.eqb_eq in Hs | apply Z.eqb_eq in Hs | apply Z.eqb_neq in Hs | apply Z.eqb_neq in Hs];
    [apply Z.eqb_eq in Hf | apply Z.eqb_neq in Hf | apply Z.eqb_eq in Hf | apply Z.eqb_neq in Hf];
    cbn [negb];
    repeat (split;
            [intros args;
             match goal with
             | |- invoked ?e = _ <-> _ =>
                 let o := fresh "o" in
                 set (o := invoked e); vm_compute in (value of o); subst o;
                 first [apply Hyes; [reflexivity | assumption] | apply Hno; tauto]
             | |- invoked ?e = _ =>
                 let o := fresh "o" in
                 set (o := invoked e); vm_compute in (value of o); subst o; reflexivity
             end|]);
    intros r i t nm f args Hfind Ht He; unfold neuronos_tool_execute;
    rewrite Hfind, Ht, He; reflexivity.
Qed.
End Defaults.

Lemma capability_gating_at_registration_witness :
  invoked (neuronos_tool_execute (Some two_tools) (Some "shell"%string) None) = Some tool_shell.
Proof.
  apply (proj2 (proj2 (proj2 (proj2 (capability_gating_at_registration 4 1 5))))
           two_tools 1%nat (desc_shell 4)); reflexivity.
Defined.
End GatingFacts.

Module ScoreFacts.
Import HwDetect ModelSelect ScoreSpec.

Lemma substring_skip a h i k :
  String.substring (S i) k (String a h) = String.substring i k h.
Proof. reflexivity. Qed.

Lemma existsb_seq_shift (p : nat -> bool) (lo n : nat) :
  existsb p (seq (S lo) n) = existsb (fun i => p (S i)) (seq lo n).
Proof.
  revert lo. induction n as [|n IH]; intros lo; [reflexivity|].
  cbn [seq existsb]. f_equal. apply IH.
Qed.

Lemma existsb_pointwise {A : Type} (f g : A -> bool) (l : list A) :
  (forall x, f x = g x) -> existsb f l = existsb g l.
Proof.
  intros H. induction l as [|x l IH]; [reflexivity|]. cbn [existsb]. rewrite H, IH. reflexivity.
Qed.

(** The scan of [strstr] finds an occurrence exactly when one exists at
    some position. *)
Lemma strstr_containsb h n : nonnull (strstr h n) = containsb h n.
Proof.
  unfold containsb. induction h as [|a h IH].
  - cbn [strstr String.length seq existsb]. rewrite orb_false_r.
    destruct (String.prefix n EmptyString) eqn:Hp.
    + apply String.prefix_correct in Hp. rewrite Hp, String.eqb_refl. reflexivity.
    + destruct (String.eqb_spec (String.substring 0 (String.length n) EmptyString) n) as [E|E];
        [|reflexivity].
      apply String.prefix_correct in E. congruence.
  - cbn [strstr]. change (String.length (String a h)) with (S (String.length h)).
    change (seq 0 (S (S (String.length h)))) with (0%nat :: seq 1 (S (String.length h))).
    cbn [existsb]. rewrite existsb_seq_shift.
    destruct (String.prefix n (String a h)) eqn:Hp.
    + apply String.prefix_correct in Hp. rewrite Hp, String.eqb_refl. reflexivity.
    + destruct (String.eqb_spec (String.substring 0 (String.length n) (String a h)) n) as [E|E].
      * apply String.prefix_correct in E. congruence.
      * cbn [orb]. rewrite IH. apply existsb_pointwise. intros i. rewrite substring_skip. reflexivity.
Qed.

Lemma prefix_app n post : String.prefix n (n +:+ post) = true.
Proof.
  induction n as [|a n IH]; [rewrite str_app_nil_l; destruct post; reflexivity|].
  rewrite str_app_cons. cbn [String.prefix]. destruct (ascii_dec a a); [exact IH | congruence].
Qed.

Lemma prefix_split n h : String.prefix n h = true -> exists post, h = n +:+ post.
Proof.
  revert h. induction n as [|a n IH]; intros h H.
  - exists h. reflexivity.
  - destruct h as [|b h]; [discriminate|]. cbn [String.prefix] in H.
    destruct (ascii_dec a b) as [->|]; [|discriminate].
    destruct (IH h H) as [post ->]. exists post. reflexivity.
Qed.

(** [strstr] returns a non-null pointer exactly for the strings that
    contain the pattern. *)
Lemma strstr_contains h n : nonnull (strstr h n) = true <-> contains h n.
Proof.
  unfold contains. induction h as [|a h IH]; cbn [strstr].
  - destruct (String.prefix n EmptyString) eqn:Hp.
    + split; [intros _ | reflexivity].
      destruct (prefix_split _ _ Hp) as [post Hpost]. exists EmptyString, post. exact Hpost.
    + split; [discriminate|]. intros (pre & post & H).
      destruct pre; [|discriminate].
      rewrite str_app_nil_l in H. rewrite H, prefix_app in Hp. discriminate.
  - destruct (String.prefix n (String a h)) eqn:Hp.
    + split; [intros _ | reflexivity].
      destruct (prefix_split _ _ Hp) as [post Hpost]. exists EmptyString, post. exact Hpost.
    + rewrite IH. split.
      * intros (pre & post & ->). exists (String a pre), post. reflexivity.
      * intros (pre & post & H). destruct pre as [|b pre].
        -- rewrite str_app_nil_l in H. rewrite H, prefix_app in Hp. discriminate.
        -- rewrite str_app_cons in H. injection H as -> ->. eauto.
Qed.

Lemma quot_tier p k : 0 < k -> (k <=? Z.quot p 1000000000) = negb (p <? k * 1000000000).
Proof.
  intros Hk.
  destruct (k <=? Z.quot p 1000000000) eqn:E1; destruct (p <? k * 1000000000) eqn:E2;
    try reflexivity; exfalso;
    [apply Z.leb_le in E1; apply Z.ltb_lt in E2 | apply Z.leb_gt in E1; apply Z.ltb_ge in E2].
  - destruct (Z.le_gt_cases 0 p) as [Hp|Hp].
    + rewrite Z.quot_div_nonneg in E1 by lia.
      pose proof (Z.div_lt_upper_bound p 1000000000 k ltac:(lia) ltac:(lia)). lia.
    + pose proof (Z.quot_opp_l p 1000000000 ltac:(lia)) as Ho.
      pose proof (Z.quot_pos (- p) 1000000000 ltac:(lia) ltac:(lia)). lia.
  - rewrite Z.quot_div_nonneg in E1 by lia.
    pose proof (Z.div_le_lower_bound p 1000000000 k ltac:(lia) ltac:(lia)). lia.
Qed.

(** The literal claim fails on a name that contains [Instruct]: the
    source adds the bonus, the rule of the specification does not. *)
Lemma score_model_Instruct_bonus :
  score_model entry_Instruct hw_200 = f32_of_Z 1050 /\
  score_spec entry_Instruct hw_200 = f32_of_Z 1035 /\
  score_model entry_Instruct hw_200 <> score_spec entry_Instruct hw_200.
Proof.
  assert (score_model entry_Instruct hw_200 = f32_of_Z 1050) as H1 by (vm_compute; reflexivity).
  assert (score_spec entry_Instruct hw_200 = f32_of_Z 1035) as H2 by (vm_compute; reflexivity).
  split; [exact H1|]. split; [exact H2|]. rewrite H1, H2. vm_compute. discriminate.
Qed.

(** Claim C4 (amended). The score is -1 when [est_ram_mb] exceeds the budget;
    otherwise 1000, plus the quality tier (below 1B: 10, 1-2B: 30, 2-4B: 60,
    4-8B: 80, from 8B: 100), plus 50 * (budget - est_ram) / budget, plus 25
    if the name contains one of i2_s, I2_S, 1.58, bitnet, BitNet, plus 15 if
    the name contains one of nstruct, chat, Chat; all in [float]
    arithmetic. *)
Theorem score_model_rule (e : model_entry) (hw : hw_info) :
  in_int64 (model_budget_mb hw - est_ram_mb e) ->
  score_model e hw = score_amended e hw.
Proof.
  intros Hdiff. unfold score_model, score_amended, score_by_rule. cbv zeta.
  rewrite Z.gtb_ltb.
  destruct (model_budget_mb hw <? est_ram_mb e); [reflexivity|].
  rewrite wrap64_id by exact Hdiff.
  rewrite !strstr_containsb.
  unfold format_names. cbn [existsb]. rewrite !orb_false_r, !orb_assoc.
  assert (f32_add fzero (f32_of_Z 1000) = f32_of_Z 1000) as -> by (vm_compute; reflexivity).
  rewrite !quot_tier by lia. unfold quality_tier.
  change (8 * 1000000000) with 8000000000. change (4 * 1000000000) with 4000000000.
  change (2 * 1000000000) with 2000000000. change (1 * 1000000000) with 1000000000.
  destruct (n_params_est e <? 1000000000) eqn:T1; [apply Z.ltb_lt in T1 | apply Z.ltb_ge in T1];
    destruct (n_params_est e <? 2000000000) eqn:T2; [apply Z.ltb_lt in T2 | apply Z.ltb_ge in T2 | apply Z.ltb_lt in T2 | apply Z.ltb_ge in T2];
    destruct (n_params_est e <? 4000000000) eqn:T4; [apply Z.ltb_lt in T4 | apply Z.ltb_ge in T4 | apply Z.ltb_lt in T4 | apply Z.ltb_ge in T4 | apply Z.ltb_lt in T4 | apply Z.ltb_ge in T4 | apply Z.ltb_lt in T4 | apply Z.ltb_ge in T4];
    destruct (n_params_est e <? 8000000000) eqn:T8;
    try (apply Z.ltb_lt in T8); try (apply Z.ltb_ge in T8); try lia; reflexivity.
Qed.

Lemma score_model_rule_witness :
  score_model entry_Instruct hw_200 = score_amended entry_Instruct hw_200.
Proof.
  apply (score_model_rule entry_Instruct hw_200).
  unfold in_int64, INT64_MIN, INT64_MAX. simpl. lia.
Defined.

End ScoreFacts.

(** ** Rounding never loses a value that is not below the format *)

Module FloatFacts.

(** The literal [1e-6] is the [double] nearest to 10^-6: the correctly
    rounded quotient of 1 by 10^6. *)
Example lit_1e_6_nearest :
  SFdiv 53 1024 (binary_normalize 53 1024 1 0 false)
        (binary_normalize 53 1024 1000000 0 false) = lit_1e_6.
Proof. vm_compute. reflexivity. Qed.

Lemma shr_1_div2 mrs : 0 <= shr_m mrs -> shr_m (shr_1 mrs) = shr_m mrs / 2.
Proof.
  destruct mrs as [m r s]. cbn [shr_m]. intros Hm.
  destruct m as [|p|p]; [reflexivity| |lia].
  destruct p as [p|p|]; cbn [shr_1 shr_m]; [| |reflexivity].
  - rewrite Pos2Z.inj_xI. apply (Z.div_unique _ 2 _ 1); lia.
  - rewrite Pos2Z.inj_xO. apply (Z.div_unique _ 2 _ 0); lia.
Qed.

Lemma iter_shr_1_div (p : positive) : forall mrs,
  0 <= shr_m mrs -> shr_m (SpecFloat.iter_pos shr_1 p mrs) = shr_m mrs / 2 ^ Z.pos p.
Proof.
  induction p as [p IH|p IH|]; intros mrs Hm; cbn [SpecFloat.iter_pos].
  - assert (0 <= shr_m (shr_1 mrs)) as H1 by (rewrite shr_1_div2 by lia; apply Z.div_pos; lia).
    assert (0 <= shr_m (SpecFloat.iter_pos shr_1 p (shr_1 mrs))) as H2
      by (rewrite IH by lia; apply Z.div_pos; lia).
    rewrite IH, IH, shr_1_div2 by lia.
    rewrite !Z.div_div by lia. f_equal.
    assert (Z.pos p~1 = Z.pos p + Z.pos p + 1) as -> by lia.
    rewrite !Z.pow_add_r by lia. change (2 ^ 1) with 2. ring.
  - assert (0 <= shr_m (SpecFloat.iter_pos shr_1 p mrs)) as H2
      by (rewrite IH by lia; apply Z.div_pos; lia).
    rewrite IH, IH by lia. rewrite !Z.div_div by lia. f_equal.
    assert (Z.pos p~0 = Z.pos p + Z.pos p) as -> by lia.
    rewrite !Z.pow_add_r by lia. ring.
  - rewrite shr_1_div2 by lia. reflexivity.
Qed.

Lemma digits2_pos_bound m : 2 ^ (Z.pos (digits2_pos m) - 1) <= Z.pos m.
Proof.
  induction m as [m IH|m IH|]; cbn [digits2_pos]; [| |simpl; lia].
  - assert (Z.pos (Pos.succ (digits2_pos m)) - 1 = Z.pos (digits2_pos m) - 1 + 1) as -> by lia.
    rewrite Z.pow_add_r by lia. change (2 ^ 1) with 2. lia.
  - assert (Z.pos (Pos.succ (digits2_pos m)) - 1 = Z.pos (digits2_pos m) - 1 + 1) as -> by lia.
    rewrite Z.pow_add_r by lia. change (2 ^ 1) with 2. lia.
Qed.

Lemma shr_record_of_loc_m m l : shr_m (shr_record_of_loc m l) = m.
Proof. destruct l as [|[]]; reflexivity. Qed.

Section Format.
Variables prec emax : Z.
Hypothesis prec_pos : 0 < prec.

(** Shifting to the exponent of the format keeps a positive mantissa
    positive when the exponent is not below [emin]. *)
Lemma shr_fexp_pos m e l :
  emin prec emax <= e -> 0 < m ->
  0 < shr_m (fst (shr_fexp prec emax m e l)) /\
  emin prec emax <= snd (shr_fexp prec emax m e l).
Proof.
  intros He Hm. unfold shr_fexp, shr.
  destruct m as [|p|p]; [lia| |lia]. cbn [Zdigits2].
  destruct (fexp prec emax (Z.pos (digits2_pos p) + e) - e) as [|q|q] eqn:Hn;
    cbn [fst snd]; try (rewrite shr_record_of_loc_m; lia).
  unfold fexp in Hn.
  assert (Z.pos q = Z.pos (digits2_pos p) - prec) as Hq by lia.
  rewrite iter_shr_1_div by (rewrite shr_record_of_loc_m; lia).
  rewrite shr_record_of_loc_m. split; [|lia].
  apply Z.div_str_pos. split; [apply Z.pow_pos_nonneg; lia|].
  etransitivity; [|apply digits2_pos_bound].
  rewrite Hq. apply Z.pow_le_mono_r; lia.
Qed.

Lemma round_nearest_even_ge m l : m <= round_nearest_even m l.
Proof. destruct l as [|[]]; cbn [round_nearest_even]; [lia| |lia|lia]. destruct (Z.even m); lia. Qed.

(** Rounding a positive value whose exponent is in the format yields a
    non-zero number of the same sign, or an infinity of that sign. *)
Lemma binary_round_aux_sign s m e l :
  emin prec emax <= e ->
  (exists m' e', binary_round_aux prec emax s (Z.pos m) e l = S754_finite s m' e') \/
  binary_round_aux prec emax s (Z.pos m) e l = S754_infinity s.
Proof.
  intros He. unfold binary_round_aux.
  pose proof (shr_fexp_pos (Z.pos m) e l He ltac:(lia)) as [H1 H1e].
  destruct (shr_fexp prec emax (Z.pos m) e l) as [mrs' e']. cbn [fst snd] in H1, H1e.
  pose proof (round_nearest_even_ge (shr_m mrs') (loc_of_shr_record mrs')) as Hr.
  pose proof (shr_fexp_pos (round_nearest_even (shr_m mrs') (loc_of_shr_record mrs'))
                e' loc_Exact H1e ltac:(lia)) as [H2 _].
  destruct (shr_fexp prec emax (round_nearest_even (shr_m mrs') (loc_of_shr_record mrs'))
              e' loc_Exact) as [mrs'' e'']. cbn [fst] in H2.
  destruct (shr_m mrs'') as [|m3|m3]; [lia| |lia].
  destruct (e'' <=? emax - prec); [left; eauto | right; reflexivity].
Qed.

End Format.

Lemma fgt_zero_signed (x : spec_float) (s : bool) :
  (exists m e, x = S754_finite s m e) \/ x = S754_infinity s -> fgt x fzero = negb s.
Proof. intros [(m & e & ->) | ->]; destruct s; reflexivity. Qed.

End FloatFacts.

Module QuantFacts.
Import HalScalar KernelSpec QuantSpec FloatFacts PackFacts.

(** *** The order of [SFcompare] on non-negative values *)

Lemma nonneg_abs x : x <> S754_nan -> nonneg (SFabs x).
Proof. destruct x; cbn; congruence || exact (fun _ => I). Qed.

Lemma flt_key a b : nonneg a -> nonneg b -> (flt a b = true <-> key_lt (key a) (key b)).
Proof.
  unfold flt, SFltb, key_lt.
  destruct a as [[]|[]| |[] ma ea], b as [[]|[]| |[] mb eb]; cbn; try tauto;
    try (intros _ _; split; [discriminate | lia]);
    try (intros _ _; split; [lia || reflexivity | reflexivity]).
  intros _ _. rewrite Pos.compare_cont_spec. cbn [Pos.switch_Eq].
  destruct (Z.compare_spec ea eb) as [->|Hlt|Hgt].
  - destruct (Pos.compare_spec ma mb) as [->|Hm|Hm]; split; try discriminate; try reflexivity; lia.
  - split; [lia | reflexivity].
  - split; [discriminate | lia].
Qed.

Lemma flt_nan_r a : flt a S754_nan = false.
Proof. destruct a as [| | |]; reflexivity. Qed.

Lemma flt_true_not_nan a b : flt a b = true -> a <> S754_nan /\ b <> S754_nan.
Proof.
  intros H. split; intros ->; [destruct b; discriminate | rewrite flt_nan_r in H; discriminate].
Qed.

(** If [m < a] and [x] is not above [m], then [x] is not above [a]. *)
Lemma flt_false_trans m a x :
  nonneg m -> nonneg a -> (x = S754_nan \/ nonneg x) ->
  flt m a = true -> flt m x = false -> flt a x = false.
Proof.
  intros Hm Ha [->|Hx] Hma Hmx; [apply flt_nan_r|].
  apply (flt_key m a Hm Ha) in Hma.
  destruct (flt a x) eqn:Hax; [|reflexivity].
  apply (flt_key a x Ha Hx) in Hax.
  assert (key_lt (key m) (key x)) as Hk.
  { unfold key_lt in *. destruct (key m) as [[c1 e1] m1], (key a) as [[c2 e2] m2],
      (key x) as [[c3 e3] m3]. lia. }
  apply (flt_key m x Hm Hx) in Hk. congruence.
Qed.

Lemma abs_nan_or_nonneg x : SFabs x = S754_nan \/ nonneg (SFabs x).
Proof. destruct x; cbn; auto. Qed.

(** *** Step 1: the scale is the largest absolute value *)

Lemma max_abs_loop_spec src :
  exists m, max_abs_loop src (Z.of_nat (length src)) = Some m /\ is_max_abs src m /\ nonneg m.
Proof.
  unfold max_abs_loop.
  destruct (for_loop_inv
              (fun i max_val =>
                 w ← read src i;
                 let abs_val := SFabs (f64_of_f32 w) in
                 Some (if fgt abs_val max_val then abs_val else max_val))
              (fun i m => is_max_abs (take (Z.to_nat i) src) m /\ nonneg m)
              (Z.to_nat (Z.of_nat (length src))) 0 fzero) as (m & Hrun & Hmax & Hnn).
  - split; [|exact I]. split; [discriminate|]. split; [left; reflexivity|].
    intros w Hw. cbn in Hw. apply elem_of_nil in Hw. contradiction.
  - intros i m Hi ((Hnan & Hin & Hall) & Hnn).
    destruct (read_in_range src i ltac:(lia)) as [w Hw]. rewrite Hw. cbn [mbind option_bind].
    eexists. split; [reflexivity|].
    assert (src !! Z.to_nat i = Some w) as Hlk
      by (unfold read in Hw; destruct (i <? 0); [discriminate | exact Hw]).
    replace (Z.to_nat (i + 1)) with (S (Z.to_nat i)) by lia.
    rewrite (take_S_r _ _ _ Hlk). fold (abs64 w). unfold fgt.
    destruct (SFltb m (abs64 w)) eqn:Hlt.
    + destruct (flt_true_not_nan _ _ Hlt) as [_ Hwn].
      assert (nonneg (abs64 w)) as Hwnn by (destruct (abs_nan_or_nonneg (f64_of_f32 w)); [contradiction | assumption]).
      split; [|exact Hwnn]. split; [exact Hwn|]. split.
      * right. exists w. split; [apply elem_of_app; right; apply list_elem_of_singleton; reflexivity | reflexivity].
      * intros x [Hx | Hx%list_elem_of_singleton]%elem_of_app.
        -- apply (flt_false_trans m); try assumption; [apply abs_nan_or_nonneg | apply Hall, Hx].
        -- subst x. destruct (flt (abs64 w) (abs64 w)) eqn:E; [|reflexivity].
           apply (flt_key _ _ Hwnn Hwnn) in E. unfold key_lt in E.
           destruct (key (abs64 w)) as [[c e] k]. lia.
    + split; [|exact Hnn]. split; [exact Hnan|]. split.
      * destruct Hin as [-> | (x & Hx & ->)]; [left; reflexivity|].
        right. exists x. split; [apply elem_of_app; left; exact Hx | reflexivity].
      * intros x [Hx | Hx%list_elem_of_singleton]%elem_of_app; [apply Hall, Hx | subst x; exact Hlt].
  - exists m. split; [exact Hrun|].
    rewrite Z.add_0_l, !Nat2Z.id, firstn_all in Hmax. split; assumption.
Qed.

(** *** Step 2: the sign test against the product with the scale *)

Lemma convert_finite_sign prec emax s m e :
  0 < prec -> emin prec emax <= e ->
  (exists m' e', convert prec emax (S754_finite s m e) = S754_finite s m' e') \/
  convert prec emax (S754_finite s m e) = S754_infinity s.
Proof.
  intros Hp He. unfold convert, binary_normalize.
  assert (forall sx, (exists m' e', binary_round prec emax sx m e = S754_finite sx m' e') \/
                     binary_round prec emax sx m e = S754_infinity sx) as Hround.
  { intros sx. unfold binary_round.
    destruct (shl_align m e (fexp prec emax (Z.pos (digits2_pos m) + e))) as [mz ez] eqn:Hal.
    apply binary_round_aux_sign; [exact Hp|].
    unfold shl_align in Hal.
    destruct (fexp prec emax (Z.pos (digits2_pos m) + e) - e) as [|d|d] eqn:Hd;
      injection Hal as <- <-; try exact He.
    unfold fexp. lia. }
  destruct s; cbn [cond_Zopp Z.opp]; apply Hround.
Qed.

Lemma is_f32_exponent s m e : is_f32 (S754_finite s m e) -> -149 <= e.
Proof.
  unfold is_f32, valid_binary, bounded, canonical_mantissa, fexp, emin.
  intros [H _]%andb_true_iff. apply Z.eqb_eq in H. lia.
Qed.

(** The conversion to [double] keeps the sign of a well-formed [float]. *)
Lemma f64_of_f32_class w :
  is_f32 w ->
  match w with
  | S754_finite s _ _ =>
      (exists m' e', f64_of_f32 w = S754_finite s m' e') \/ f64_of_f32 w = S754_infinity s
  | _ => f64_of_f32 w = w
  end.
Proof.
  intros Hw. destruct w as [s|s| |s m e]; try reflexivity.
  apply convert_finite_sign; [lia|].
  pose proof (is_f32_exponent s m e Hw). unfold emin. lia.
Qed.

Lemma fgt_f64_of_f32 w : is_f32 w -> fgt (f64_of_f32 w) fzero = fgt w fzero.
Proof.
  intros Hw. pose proof (f64_of_f32_class w Hw) as H.
  destruct w as [s|s| |s m e]; try (rewrite H; reflexivity).
  rewrite (fgt_zero_signed _ s H). destruct s; reflexivity.
Qed.

Lemma not_small_big d : d <> S754_nan -> flt (SFabs d) lit_1e_6 = false -> big (SFabs d).
Proof.
  unfold flt, SFltb, lit_1e_6. intros Hn H.
  destruct d as [s|s| |s m e]; cbn [SFabs big] in *.
  - discriminate.
  - exact I.
  - congruence.
  - cbv beta iota delta [SFcompare] in H.
    destruct (Z.compare_spec e (-72)); try discriminate; lia.
Qed.

Lemma mul_big_sign d S :
  d <> S754_nan -> big (SFabs d) -> big S -> fgt (f64_mul d S) fzero = fgt d fzero.
Proof.
  intros Hn Hd HS.
  destruct S as [ss|ss| |ss ms es]; cbn [big] in HS; try contradiction;
    destruct ss; try contradiction;
    (destruct d as [sd|sd| |sd md ed]; cbn [big SFabs] in Hd; try contradiction; try congruence).
  - destruct sd; reflexivity.
  - destruct sd; reflexivity.
  - destruct sd; reflexivity.
  - unfold f64_mul, SFmul.
    rewrite (fgt_zero_signed _ (xorb sd false)).
    + destruct sd; reflexivity.
    + apply binary_round_aux_sign; [lia|]. unfold emin. lia.
Qed.

(** The scale is big as soon as one weight is not small. *)
Lemma max_abs_big ws m w :
  is_max_abs ws m -> nonneg m -> w ∈ ws -> big (abs64 w) -> big m.
Proof.
  intros (Hnan & _ & Hall) Hnn Hw Hbig. specialize (Hall w Hw).
  unfold flt, SFltb in Hall.
  destruct m as [[]|[]| |[] mm em]; cbn in Hnn; try contradiction; try exact I;
    destruct (abs64 w) as [[]|[]| |[] mw ew]; cbn in Hbig; try contradiction;
    cbn in Hall; try discriminate.
  cbn. destruct (Z.compare_spec em ew); try discriminate; lia.
Qed.

Lemma quantize_one_code ws m w :
  is_max_abs ws m -> nonneg m -> w ∈ ws -> is_f32 w ->
  quantize_one m w = ternary_code w.
Proof.
  intros Hmax Hnn Hin Hw. unfold quantize_one, ternary_code. fold (abs64 w).
  destruct (flt (abs64 w) lit_1e_6) eqn:Hsmall; [reflexivity|].
  assert (f64_of_f32 w = S754_nan \/ f64_of_f32 w <> S754_nan) as [Hnan|Hnan]
    by (destruct (f64_of_f32 w); auto; right; discriminate).
  - rewrite Hnan. pose proof (f64_of_f32_class w Hw) as Hc.
    destruct w as [s|s| |s mw ew]; try (rewrite Hc in Hnan; discriminate); [reflexivity|].
    destruct Hc as [(m' & e' & Hc) | Hc]; rewrite Hc in Hnan; discriminate.
  - assert (big (abs64 w)) as Hbig by (apply not_small_big; assumption).
    rewrite mul_big_sign; [| assumption | assumption | exact (max_abs_big ws m w Hmax Hnn Hin Hbig)].
    rewrite fgt_f64_of_f32 by assumption. reflexivity.
Qed.

End QuantFacts.

(** ** The conversion [float -> double -> float] is the identity *)

Module ConvertFacts.
Import QuantSpec FloatFacts QuantFacts.

Lemma iter_pos_Pos_iter {A : Type} (f : A -> A) (p : positive) :
  forall x, SpecFloat.iter_pos f p x = Pos.iter f x p.
Proof.
  induction p as [p IH|p IH|]; intros x; cbn [SpecFloat.iter_pos Pos.iter].
  - rewrite !IH. rewrite <- !Pos.iter_swap. reflexivity.
  - rewrite !IH. reflexivity.
  - reflexivity.
Qed.

Lemma digits2_pos_shift m q :
  Z.pos (digits2_pos (Pos.iter xO m q)) = Z.pos (digits2_pos m) + Z.pos q.
Proof.
  induction q as [|q IH] using Pos.peano_ind.
  - cbn [Pos.iter digits2_pos]. lia.
  - rewrite Pos.iter_succ. cbn [digits2_pos]. lia.
Qed.

Lemma shr_shifted m q :
  Pos.iter shr_1 {| shr_m := Z.pos (Pos.iter xO m q); shr_r := false; shr_s := false |} q
  = {| shr_m := Z.pos m; shr_r := false; shr_s := false |}.
Proof.
  induction q as [|q IH] using Pos.peano_ind.
  - reflexivity.
  - rewrite Pos.iter_succ_r, Pos.iter_succ. cbn [shr_1 orb]. exact IH.
Qed.

Lemma binary_normalize_signed prec emax s m e :
  binary_normalize prec emax (cond_Zopp s (Z.pos m)) e s = binary_round prec emax s m e.
Proof. destruct s; reflexivity. Qed.

Lemma is_f32_finite s m e :
  is_f32 (S754_finite s m e) ->
  Z.pos (digits2_pos m) <= 24 /\ -149 <= e <= 104 /\
  Z.max (Z.pos (digits2_pos m) + e - 24) (-149) = e.
Proof.
  unfold is_f32, valid_binary, bounded, canonical_mantissa, fexp, emin.
  intros [H1 H2]%andb_true_iff. apply Z.eqb_eq in H1. apply Z.leb_le in H2. lia.
Qed.

(** Rounding a mantissa that already has the precision of the format. *)
Lemma binary_round_aux_exact prec emax s m e :
  fexp prec emax (Z.pos (digits2_pos m) + e) = e -> e <= emax - prec ->
  binary_round_aux prec emax s (Z.pos m) e loc_Exact = S754_finite s m e.
Proof.
  intros Hf He. unfold binary_round_aux, shr_fexp. cbn [Zdigits2 shr_record_of_loc].
  rewrite Hf, Z.sub_diag. cbn [shr shr_m loc_of_shr_record round_nearest_even Zdigits2].
  rewrite Hf, Z.sub_diag. cbn [shr shr_m].
  destruct (e <=? emax - prec) eqn:E; [reflexivity | apply Z.leb_gt in E; lia].
Qed.

Lemma f64_of_f32_finite s m e :
  is_f32 (S754_finite s m e) ->
  exists q, Z.pos q = 53 - Z.pos (digits2_pos m) /\
            f64_of_f32 (S754_finite s m e) = S754_finite s (Pos.iter xO m q) (e - Z.pos q).
Proof.
  intros (Hd & He & Hc)%is_f32_finite.
  unfold f64_of_f32, convert. rewrite binary_normalize_signed. unfold binary_round, shl_align.
  assert (fexp 53 1024 (Z.pos (digits2_pos m) + e) = Z.pos (digits2_pos m) + e - 53) as Hf
    by (unfold fexp, emin; lia).
  rewrite Hf.
  destruct (Z.pos (digits2_pos m) + e - 53 - e) as [|q|q] eqn:Hq; [lia|lia|].
  exists q. split; [lia|].
  replace (Z.pos (digits2_pos m) + e - 53) with (e - Z.pos q) by lia.
  apply binary_round_aux_exact; [|lia].
  rewrite digits2_pos_shift. unfold fexp, emin. lia.
Qed.

Lemma f32_of_f64_back s m e q :
  is_f32 (S754_finite s m e) -> Z.pos q = 53 - Z.pos (digits2_pos m) ->
  f32_of_f64 (S754_finite s (Pos.iter xO m q) (e - Z.pos q)) = S754_finite s m e.
Proof.
  intros (Hd & He & Hc)%is_f32_finite Hq.
  unfold f32_of_f64, convert. rewrite binary_normalize_signed. unfold binary_round, shl_align.
  rewrite digits2_pos_shift.
  assert (fexp 24 128 (Z.pos (digits2_pos m) + Z.pos q + (e - Z.pos q)) = e) as Hf
    by (unfold fexp, emin; lia).
  rewrite Hf.
  destruct (e - (e - Z.pos q)) as [|p|p] eqn:Hp; [lia| |lia].
  unfold binary_round_aux, shr_fexp. cbn [Zdigits2 shr_record_of_loc].
  rewrite digits2_pos_shift, Hf, Hp. cbn [shr].
  assert (p = q) as -> by lia.
  rewrite iter_pos_Pos_iter, shr_shifted.
  cbn [shr_m loc_of_shr_record round_nearest_even Zdigits2].
  assert (fexp 24 128 (Z.pos (digits2_pos m) + (e - Z.pos q + Z.pos q)) = e - Z.pos q + Z.pos q)
    as Hf2 by (unfold fexp, emin; lia).
  rewrite Hf2, Z.sub_diag. cbn [shr shr_m].
  replace (e - Z.pos q + Z.pos q) with e by lia.
  destruct (e <=? 128 - 24) eqn:E; [reflexivity | apply Z.leb_gt in E; lia].
Qed.

(** [(float) fabs ((double) w)] is [|w|] for every well-formed [float]. *)
Lemma f32_of_f64_abs64 w : is_f32 w -> f32_of_f64 (abs64 w) = SFabs w.
Proof.
  intros Hw. unfold abs64. destruct w as [s|s| |s m e]; try reflexivity.
  destruct (f64_of_f32_finite s m e Hw) as (q & Hq & ->). cbn [SFabs].
  apply f32_of_f64_back; [exact Hw | exact Hq].
Qed.

End ConvertFacts.

Module QuantizeFacts.
Import HalScalar KernelSpec QuantSpec FloatFacts PackFacts DotFacts QuantFacts.

Lemma quantize_one_range scale w : 0 <= quantize_one scale w <= 3.
Proof.
  unfold quantize_one. destruct (flt _ _); [lia|]. destruct (fgt _ _); lia.
Qed.

Lemma quantize_loop_spec src scale :
  exists q8,
    quantize_loop src (Z.of_nat (length src)) scale = Some q8 /\
    length q8 = length src /\
    Forall (fun v => 0 <= v <= 3) q8 /\
    (forall i w, read src i = Some w -> read q8 i = Some (quantize_one scale w)).
Proof.
  unfold quantize_loop. rewrite Nat2Z.id.
  destruct (for_loop_inv
              (fun i q8 => w ← read src i; write q8 i (quantize_one scale w))
              (fun i q8 =>
                 length q8 = length src /\
                 Forall (fun v => 0 <= v <= 3) q8 /\
                 (forall k w, k < i -> read src k = Some w ->
                              read q8 k = Some (quantize_one scale w)))
              (length src) 0 (replicate (length src) 0)) as (q8 & Hrun & Hlen & Hall & Hq).
  - split; [apply length_replicate|]. split; [apply Forall_replicate; lia|].
    intros k w Hk Hr. apply read_Some_range in Hr. lia.
  - intros i q8 Hi (Hlen & Hall & Hq).
    destruct (read_in_range src i ltac:(lia)) as [w Hw]. rewrite Hw. cbn [mbind option_bind].
    rewrite write_in_range by lia.
    eexists. split; [reflexivity|]. split; [rewrite length_insert; exact Hlen|]. split.
    + apply Forall_insert; [exact Hall | apply quantize_one_range].
    + intros k w' Hk Hr. destruct (decide (k = i)) as [->|Hne].
      * rewrite read_insert_eq by lia. congruence.
      * rewrite read_insert_ne by lia. apply Hq; [lia | exact Hr].
  - exists q8. split; [exact Hrun|]. split; [exact Hlen|]. split; [exact Hall|].
    intros i w Hr. apply Hq; [|exact Hr]. apply read_Some_range in Hr. lia.
Qed.

Lemma pack_loop_spec q8 nb :
  0 <= nb -> Z.of_nat (length q8) = 128 * nb -> Forall (fun v => 0 <= v <= 3) q8 ->
  exists out,
    pack_loop q8 (128 * nb) = Some out /\
    Z.of_nat (length out) = 32 * nb /\
    (forall b k, 0 <= b < nb -> 0 <= k < 32 ->
       read out (b * 32 + k)
       = Some (byte_of (at_ q8 (b * 128 + k)) (at_ q8 (b * 128 + (32 + k)))
                       (at_ q8 (b * 128 + (64 + k))) (at_ q8 (b * 128 + (96 + k))))).
Proof.
  intros Hnb Hlen Hall. unfold pack_loop, SCALAR_QK_I2_S.
  assert (Z.quot (128 * nb) 128 = nb) as ->
    by (rewrite Z.quot_div_nonneg by lia; rewrite Z.mul_comm, Z.div_mul; lia).
  assert (Z.quot (128 * nb) 4 = 32 * nb) as ->
    by (rewrite Z.quot_div_nonneg by lia; replace (128 * nb) with (32 * nb * 4) by lia;
        apply Z.div_mul; lia).
  destruct (for_loop_inv
              (fun blk out => pack_block q8 blk out)
              (fun blk out =>
                 Z.of_nat (length out) = 32 * nb /\
                 (forall b k, 0 <= b < blk -> 0 <= k < 32 ->
                    read out (b * 32 + k)
                    = Some (byte_of (at_ q8 (b * 128 + k)) (at_ q8 (b * 128 + (32 + k)))
                                    (at_ q8 (b * 128 + (64 + k))) (at_ q8 (b * 128 + (96 + k))))) /\
                 (forall i, blk * 32 <= i < 32 * nb -> read out i = Some 0))
              (Z.to_nat nb) 0 (replicate (Z.to_nat (32 * nb)) 0)) as (out & Hrun & Hl & Hb & _).
  - split; [rewrite length_replicate; lia|]. split; [intros b k Hb; lia|].
    intros i Hi. unfold read. destruct (i <? 0) eqn:E; [apply Z.ltb_lt in E; lia|].
    apply lookup_replicate_2. lia.
  - intros blk out Hblk (Hl & Hdone & Hzero).
    destruct (pack_block_spec q8 blk out) as (out' & Hp & Hl' & Hnew & Hkeep);
      [lia | lia | lia | exact Hall | intros k Hk; apply Hzero; lia |].
    exists out'. split; [exact Hp|]. split; [lia|]. split.
    + intros b k Hb Hk. destruct (decide (b = blk)) as [->|Hne].
      * apply Hnew, Hk.
      * rewrite Hkeep by lia. apply Hdone; lia.
    + intros i Hi. rewrite Hkeep by lia. apply Hzero. lia.
  - exists out. split; [exact Hrun|]. split; [exact Hl|].
    intros b k Hbb Hk. apply Hb; lia.
Qed.

End QuantizeFacts.

Module QuantizeTheorem.
Import HalScalar KernelSpec QuantSpec FloatFacts PackFacts DotFacts QuantFacts ConvertFacts QuantizeFacts.

Lemma read_elem_of {A : Type} (a : list A) i v : read a i = Some v -> v ∈ a.
Proof.
  unfold read. destruct (i <? 0); [discriminate|]. apply list_elem_of_lookup_2.
Qed.

Lemma at_read (a : list Z) i v : read a i = Some v -> at_ a i = v.
Proof. unfold at_. intros ->. reflexivity. Qed.

Lemma byte_of_range v0 v1 v2 v3 :
  0 <= v0 <= 3 -> 0 <= v1 <= 3 -> 0 <= v2 <= 3 -> 0 <= v3 <= 3 ->
  0 <= byte_of v0 v1 v2 v3 <= 255.
Proof. unfold byte_of. lia. Qed.

(** The literal claim fails: a zero weight, whose magnitude is below
    [1e-6], is emitted as raw 1 and not as raw 2. *)
Lemma quantize_zero_weights_raw_1 :
  scalar_quantize_i2 true (replicate 128 fzero) 1 128
  = Some (QDone (replicate 32 85) 32 fzero 64) /\
  flt (abs64 fzero) lit_1e_6 = true /\
  raw_code (replicate 32 85) 0 0 = 1 /\
  raw_code (replicate 32 85) 0 0 <> ternary_code_spec fzero.
Proof.
  split; [vm_compute; reflexivity|]. split; [vm_compute; reflexivity|].
  split; [vm_compute; reflexivity|]. vm_compute. discriminate.
Qed.

(** Weights beyond the last complete block of 128 get no code: with four
    weights [1.0] no block is packed and the only output byte stays 0. *)
Lemma quantize_partial_block_dropped :
  scalar_quantize_i2 true (replicate 4 (f32_of_Z 1)) 1 4
  = Some (QDone [0] 1 (f32_of_Z 1) 33).
Proof. vm_compute. reflexivity. Qed.

(** Claim C2 (amended). For [n = nrow * n_per_row] well-formed weights, [n] a
    multiple of 128, the quantizer computes the scale [m = max |w|], emits
    for each weight raw 1 when [|w| < 1e-6], else raw 2 when [w > 0], else
    raw 0, packs the codes four per byte in the layout of the block
    (decoding position [i] gives the code of weight [i]), and stores the
    scale as a [float] at byte offset [n / 4], right after the packed
    bytes; that [float] is [+0] or the magnitude of one of the weights. *)
Theorem quantize_i2_rule (src : list spec_float) (nrow n_per_row nb : Z) :
  nrow * n_per_row = 128 * nb -> 0 <= nb -> 128 * nb <= INT64_MAX ->
  Z.of_nat (length src) = 128 * nb ->
  Forall is_f32 src ->
  exists packed m,
    scalar_quantize_i2 true src nrow n_per_row
    = Some (QDone packed (32 * nb) (f32_of_f64 m) (32 * nb + 32)) /\
    is_max_abs src m /\
    (f32_of_f64 m = fzero \/ exists w, w ∈ src /\ f32_of_f64 m = SFabs w) /\
    Z.of_nat (length packed) = 32 * nb /\
    Forall (fun b => 0 <= b <= 255) packed /\
    (forall i w, read src i = Some w -> raw_code packed 0 i = ternary_code w).
Proof.
  intros Hn Hnb Hmaxn Hlen Hvalid. unfold scalar_quantize_i2. cbv zeta.
  rewrite Hn, wrap64_id by (unfold in_int64, INT64_MIN, INT64_MAX in *; lia).
  destruct (max_abs_loop_spec src) as (m & Hrun1 & Hmax & Hnn). rewrite Hlen in Hrun1.
  rewrite Hrun1. cbn [mbind option_bind negb].
  destruct (128 * nb <? 0) eqn:Hneg; [apply Z.ltb_lt in Hneg; lia|].
  destruct (quantize_loop_spec src m) as (q8 & Hrun2 & Hqlen & Hqall & Hq).
  rewrite Hlen in Hrun2. rewrite Hrun2. cbn [mbind option_bind].
  destruct (pack_loop_spec q8 nb Hnb ltac:(lia) Hqall) as (out & Hrun3 & Holen & Hout).
  rewrite Hrun3. cbn [mbind option_bind].
  assert (Z.quot (128 * nb) 4 = 32 * nb) as ->
    by (rewrite Z.quot_div_nonneg by lia; replace (128 * nb) with (32 * nb * 4) by lia;
        apply Z.div_mul; lia).
  exists out, m. split; [reflexivity|]. split; [exact Hmax|].
  split.
  { destruct Hmax as (_ & [-> | (w & Hw & ->)] & _); [left; reflexivity|].
    right. exists w. split; [exact Hw|]. apply f32_of_f64_abs64.
    rewrite Forall_forall in Hvalid. apply Hvalid, Hw. }
  split; [exact Holen|].
  assert (forall i, 0 <= at_ q8 i <= 3) as Hq3 by (intros i; apply at_range; [lia | exact Hqall]).
  split.
  - apply Forall_lookup. intros idx x Hx.
    assert (0 <= Z.of_nat idx < 32 * nb) as Hidx by (apply lookup_lt_Some in Hx; lia).
    pose proof (Z.div_mod (Z.of_nat idx) 32 ltac:(lia)) as Hdm.
    pose proof (Z.mod_pos_bound (Z.of_nat idx) 32 ltac:(lia)) as Hk.
    assert (0 <= Z.of_nat idx / 32 < nb) as Hb
      by (split; [apply Z.div_pos; lia | apply Z.div_lt_upper_bound; lia]).
    specialize (Hout (Z.of_nat idx / 32) (Z.of_nat idx mod 32) Hb Hk).
    replace (Z.of_nat idx / 32 * 32 + Z.of_nat idx mod 32) with (Z.of_nat idx) in Hout by lia.
    unfold read in Hout. destruct (Z.of_nat idx <? 0) eqn:E; [apply Z.ltb_lt in E; lia|].
    rewrite Nat2Z.id in Hout. rewrite Hx in Hout. injection Hout as ->.
    apply byte_of_range; apply Hq3.
  - intros i w Hr. pose proof (read_Some_range _ _ _ Hr) as Hi. rewrite Hlen in Hi.
    pose proof (Z.div_mod i 128 ltac:(lia)) as Hdm.
    pose proof (Z.mod_pos_bound i 128 ltac:(lia)) as Hj.
    assert (0 <= i / 128 < nb) as Hb
      by (split; [apply Z.div_pos; lia | apply Z.div_lt_upper_bound; lia]).
    set (b := i / 128) in *. set (j := i mod 128) in *.
    replace i with (128 * b + j) at 1 by lia.
    rewrite raw_code_in_block by lia.
    pose proof (Z.div_mod j 32 ltac:(lia)) as Hdm2.
    pose proof (Z.mod_pos_bound j 32 ltac:(lia)) as Hk.
    assert (0 <= j / 32 <= 3) as Hg
      by (split; [apply Z.div_pos; lia | apply Z.lt_succ_r, Z.div_lt_upper_bound; lia]).
    set (g := j / 32) in *. set (k := j mod 32) in *.
    rewrite Z.add_0_l. rewrite (at_read _ _ _ (Hout b k ltac:(lia) Hk)).
    destruct (fields_of_byte _ _ _ _ (Hq3 (b * 128 + k)) (Hq3 (b * 128 + (32 + k)))
                (Hq3 (b * 128 + (64 + k))) (Hq3 (b * 128 + (96 + k)))) as (E0 & E1 & E2 & E3).
    assert (at_ q8 i = ternary_code w) as Hcode.
    { rewrite (at_read _ _ _ (Hq i w Hr)).
      apply (quantize_one_code src m w Hmax Hnn (read_elem_of _ _ _ Hr)).
      rewrite Forall_forall in Hvalid. apply Hvalid. exact (read_elem_of _ _ _ Hr). }
    rewrite <- Hcode.
    assert (g = 0 \/ g = 1 \/ g = 2 \/ g = 3) as [G | [G | [G | G]]] by lia; rewrite G in *;
      [rewrite E0 | rewrite E1 | rewrite E2 | rewrite E3]; f_equal; lia.
Qed.

Lemma quantize_i2_rule_witness :
  exists packed m,
    scalar_quantize_i2 true sample_weights 1 128
    = Some (QDone packed (32 * 1) (f32_of_f64 m) (32 * 1 + 32)) /\
    is_max_abs sample_weights m /\
    (f32_of_f64 m = fzero \/ exists w, w ∈ sample_weights /\ f32_of_f64 m = SFabs w) /\
    Z.of_nat (length packed) = 32 * 1 /\
    Forall (fun b => 0 <= b <= 255) packed /\
    (forall i w, read sample_weights i = Some w -> raw_code packed 0 i = ternary_code w).
Proof.
  apply (quantize_i2_rule sample_weights 1 128 1).
  - reflexivity.
  - lia.
  - unfold INT64_MAX. lia.
  - reflexivity.
  - unfold sample_weights. apply Forall_app. split.
    + apply Forall_replicate. vm_compute. reflexivity.
    + repeat constructor; vm_compute; reflexivity.
Defined.

End QuantizeTheorem.

(** ** More on the registry: lookup, registration and execution together *)

Lemma scan_from_ext (p p' : nat -> bool) (i n : nat) :
  (forall k, (i <= k < i + n)%nat -> p k = p' k) -> scan_from p i n = scan_from p' i n.
Proof.
  revert i. induction n as [|n IH]; intros i H; [reflexivity|]. simpl.
  rewrite (H i) by lia. destruct (p' i); [reflexivity|]. apply IH. intros k Hk. apply H. lia.
Qed.

Lemma scan_from_snoc (p : nat -> bool) (i n : nat) :
  p (i + n)%nat = false -> scan_from p i (S n) = scan_from p i n.
Proof.
  revert i. induction n as [|n IH]; intros i H.
  - simpl. rewrite Nat.add_0_r in H. rewrite H. reflexivity.
  - change (scan_from p i (S (S n))) with (if p i then Some i else scan_from p (S i) (S n)).
    rewrite IH by (replace (S i + n)%nat with (i + S n)%nat by lia; exact H).
    reflexivity.
Qed.

Module RegistryMore.
Import ToolRegistry RegistrySpec RegistryMoreSpec RegistryFacts.

(** The five ways of a register call, as one case analysis. *)
Lemma register_cases r d :
  (neuronos_tool_register (Some r) (Some d) = (Some r, -1) /\
   (name d = None \/ execute d = None \/ NEURONOS_MAX_TOOLS <= count r \/
    exists nm k, name d = Some nm /\ find_tool r nm = Some k)) \/
  (exists nm f, name d = Some nm /\ execute d = Some f /\
     count r < NEURONOS_MAX_TOOLS /\ find_tool r nm = None /\
     neuronos_tool_register (Some r) (Some d)
     = (Some {| tools := <[Z.to_nat (count r) := d]> (tools r); count := count r + 1 |}, 0)).
Proof.
  unfold neuronos_tool_register.
  destruct (name d) as [nm|] eqn:Hnm; [|left; split; [reflexivity | auto]].
  destruct (execute d) as [f|] eqn:Hex; [|left; split; [reflexivity | auto]].
  destruct (NEURONOS_MAX_TOOLS <=? count r) eqn:Hcap.
  { apply Z.leb_le in Hcap. left. split; [reflexivity | auto]. }
  apply Z.leb_gt in Hcap.
  destruct (find_tool r nm) as [k|] eqn:Hfind.
  - left. split; [reflexivity|]. right. right. right. eauto.
  - right. exists nm, f. auto.
Qed.

(** The slot written by a successful register call is in use afterwards. *)
Lemma registered_new r d :
  reg_inv r -> count r < NEURONOS_MAX_TOOLS ->
  registered {| tools := <[Z.to_nat (count r) := d]> (tools r); count := count r + 1 |}
             (Z.to_nat (count r)) d.
Proof.
  intros Hinv Hlt. pose proof (inv_count r Hinv) as Hc. pose proof (inv_length r Hinv) as Hl.
  split; simpl; [lia|]. apply list_lookup_insert_eq. lia.
Qed.

Lemma registered_old r d i t :
  registered r i t ->
  registered {| tools := <[Z.to_nat (count r) := d]> (tools r); count := count r + 1 |} i t.
Proof.
  intros [Hi Ht]. split; simpl; [lia|]. rewrite list_lookup_insert_ne by lia. exact Ht.
Qed.

(** The sample registry satisfies the invariant. *)
Lemma two_tools_inv : reg_inv two_tools.
Proof.
  pose proof two_tools_reachable as Hreach.
  unfold neuronos_tool_registry_create in Hreach.
  destruct (register_all_inv _ [Some desc_calc; Some (desc_shell 4)]
              (create_inv _ eq_refl)) as (r' & Hr' & Hinv).
  rewrite Hreach in Hr'. injection Hr' as <-. exact Hinv.
Qed.

(** Property X1. Executing a name answers "Tool not found" exactly when no slot in
    use carries that name; no executor is called then. *)
Theorem execute_not_found_iff (r : tool_reg) (nm : string) (args : option string) :
  neuronos_tool_execute (Some r) (Some nm) args = Ret tool_not_found
  <-> (forall i t, registered r i t -> name t <> Some nm).
Proof.
  unfold neuronos_tool_execute. split.
  - destruct (find_tool r nm) as [k|] eqn:Hf.
    + destruct (tools r !! k) as [t|]; [destruct (execute t)|]; discriminate.
    + intros _. apply find_tool_None, Hf.
  - intros Hnone. destruct (find_tool r nm) as [k|] eqn:Hf; [|reflexivity].
    destruct (find_tool_Some r nm k Hf) as (t & Hr & Hn).
    exfalso. exact (Hnone k t Hr Hn).
Qed.

(** Property X2. A descriptor that was registered with status 0 is what execute runs
    for its name: its executor is called with the arguments (or "{}") and
    with the descriptor's own user data. *)
Theorem register_then_execute
  (r : tool_reg) (d : tool_desc) (reg' : option tool_reg) (nm : string)
  (args : option string) :
  reg_inv r ->
  neuronos_tool_register (Some r) (Some d) = (reg', 0) ->
  name d = Some nm ->
  exists f, execute d = Some f /\
            neuronos_tool_execute reg' (Some nm) args
            = Call f (args_or_empty args) (user_data d).
Proof.
  intros Hinv Hreg Hnm.
  destruct (register_cases r d) as [[Hrej _] | (nm' & f & Hnm' & Hex & Hlt & Hfresh & Hok)];
    [rewrite Hrej in Hreg; discriminate|].
  rewrite Hok in Hreg. injection Hreg as <-.
  destruct (register_inv r (Some d) _ _ Hinv Hok) as (r' & [= <-] & Hinv').
  exists f. split; [exact Hex|].
  unfold neuronos_tool_execute.
  rewrite (find_tool_unique _ (Z.to_nat (count r)) d nm Hinv' (registered_new r d Hinv Hlt) Hnm).
  destruct (registered_new r d Hinv Hlt) as [_ ->]. rewrite Hex. reflexivity.
Qed.

Lemma register_then_execute_witness :
  exists f, execute sample_desc = Some f /\
            neuronos_tool_execute
              (Some {| tools := <[Z.to_nat (count two_tools) := sample_desc]> (tools two_tools);
                       count := count two_tools + 1 |})
              (Some "echo"%string) None
            = Call f (args_or_empty None) (user_data sample_desc).
Proof.
  apply (register_then_execute two_tools sample_desc _ "echo"%string None).
  - exact two_tools_inv.
  - reflexivity.
  - reflexivity.
Defined.

(** Property X3. A register call returns 0 or -1, and it returns 0 exactly when the
    descriptor has a name and an executor, fewer than 64 tools are
    registered, and no tool in use carries the name. *)
Theorem register_succeeds_iff (r : tool_reg) (d : tool_desc) :
  (snd (neuronos_tool_register (Some r) (Some d)) = 0 \/
   snd (neuronos_tool_register (Some r) (Some d)) = -1) /\
  (snd (neuronos_tool_register (Some r) (Some d)) = 0 <->
   name d <> None /\ execute d <> None /\ count r < 64 /\
   forall i t, registered r i t -> name t <> name d).
Proof.
  destruct (register_cases r d) as [[Hrej Hwhy] | (nm & f & Hnm & Hex & Hlt & Hfresh & Hok)].
  - rewrite Hrej. simpl. split; [right; reflexivity|].
    split; [discriminate|]. intros (Hn & He & Hc & Hd). exfalso.
    destruct Hwhy as [H | [H | [H | (nm & k & Hnm & Hk)]]];
      [congruence | congruence | unfold NEURONOS_MAX_TOOLS in H; lia |].
    destruct (find_tool_Some r nm k Hk) as (t & Hr & Ht).
    apply (Hd k t Hr). congruence.
  - rewrite Hok. simpl. split; [left; reflexivity|].
    split; [|reflexivity]. intros _.
    split; [congruence|]. split; [congruence|]. split; [exact Hlt|].
    intros i t Hr. rewrite Hnm. apply (find_tool_None r nm Hfresh i t Hr).
Qed.

(** Property X4. A successful register call appends: the count grows by one, the
    new name is read at the old count, and every other index reads what it
    read before. *)
Theorem register_appends (r : tool_reg) (d : tool_desc) (reg' : option tool_reg) :
  reg_inv r ->
  neuronos_tool_register (Some r) (Some d) = (reg', 0) ->
  neuronos_tool_count reg' = count r + 1 /\
  forall index,
    neuronos_tool_name reg' index
    = if index =? count r then name d else neuronos_tool_name (Some r) index.
Proof.
  intros Hinv Hreg.
  destruct (register_cases r d) as [[Hrej _] | (nm' & f & Hnm' & Hex & Hlt & Hfresh & Hok)];
    [rewrite Hrej in Hreg; discriminate|].
  rewrite Hok in Hreg. injection Hreg as <-.
  pose proof (inv_count r Hinv) as Hc. pose proof (inv_length r Hinv) as Hl.
  split; [reflexivity|]. intros index. unfold neuronos_tool_name. cbn [count tools].
  destruct (index =? count r) eqn:E.
  - apply Z.eqb_eq in E. subst index.
    destruct (count r <? 0) eqn:E1; [apply Z.ltb_lt in E1; lia|].
    destruct (count r + 1 <=? count r) eqn:E2; [apply Z.leb_le in E2; lia|].
    cbn [orb]. rewrite list_lookup_insert_eq by lia. reflexivity.
  - apply Z.eqb_neq in E.
    destruct (index <? 0) eqn:E1; [reflexivity|]. apply Z.ltb_ge in E1. cbn [orb].
    destruct (count r + 1 <=? index) eqn:E2.
    + apply Z.leb_le in E2.
      destruct (count r <=? index) eqn:E3; [reflexivity | apply Z.leb_gt in E3; lia].
    + apply Z.leb_gt in E2.
      destruct (count r <=? index) eqn:E3; [apply Z.leb_le in E3; lia|].
      rewrite list_lookup_insert_ne by lia. reflexivity.
Qed.

Lemma register_appends_witness :
  neuronos_tool_count
    (Some {| tools := <[Z.to_nat (count two_tools) := sample_desc]> (tools two_tools);
             count := count two_tools + 1 |}) = count two_tools + 1 /\
  forall index,
    neuronos_tool_name
      (Some {| tools := <[Z.to_nat (count two_tools) := sample_desc]> (tools two_tools);
               count := count two_tools + 1 |}) index
    = if index =? count two_tools then name sample_desc
      else neuronos_tool_name (Some two_tools) index.
Proof.
  apply (register_appends two_tools sample_desc).
  - exact two_tools_inv.
  - reflexivity.
Defined.

(** The lookup of another name is not disturbed by a register call. *)
Lemma find_tool_insert_other r d nm :
  reg_inv r -> count r < NEURONOS_MAX_TOOLS -> name d <> Some nm ->
  find_tool {| tools := <[Z.to_nat (count r) := d]> (tools r); count := count r + 1 |} nm
  = find_tool r nm.
Proof.
  intros Hinv Hlt Hne. pose proof (inv_count r Hinv) as Hc. pose proof (inv_length r Hinv) as Hl.
  unfold find_tool. cbn [count].
  replace (Z.to_nat (count r + 1)) with (S (Z.to_nat (count r))) by lia.
  rewrite scan_from_snoc.
  - apply scan_from_ext. intros k Hk. unfold name_at. cbn [tools].
    rewrite list_lookup_insert_ne by lia. reflexivity.
  - unfold name_at. cbn [tools]. rewrite Nat.add_0_l, list_lookup_insert_eq by lia.
    destruct (name d) as [s|]; [|reflexivity].
    apply String.eqb_neq. congruence.
Qed.

(** Property X5. A register call, accepted or not, changes nothing for the other
    names: executing a name different from the descriptor's does after the
    call what it did before. *)
Theorem register_keeps_other_tools
  (r : tool_reg) (d : tool_desc) (nm : string) (args : option string) :
  reg_inv r -> name d <> Some nm ->
  neuronos_tool_execute (fst (neuronos_tool_register (Some r) (Some d))) (Some nm) args
  = neuronos_tool_execute (Some r) (Some nm) args.
Proof.
  intros Hinv Hne.
  destruct (register_cases r d) as [[Hrej _] | (nm' & f & Hnm' & Hex & Hlt & Hfresh & Hok)].
  - rewrite Hrej. reflexivity.
  - rewrite Hok. cbn [fst]. unfold neuronos_tool_execute.
    rewrite (find_tool_insert_other r d nm Hinv Hlt Hne).
    destruct (find_tool r nm) as [k|] eqn:Hf; [|reflexivity].
    destruct (find_tool_Some r nm k Hf) as (t & [Hk Ht] & _).
    cbn [tools]. rewrite list_lookup_insert_ne by lia. reflexivity.
Qed.

Lemma register_keeps_other_tools_witness :
  neuronos_tool_execute (fst (neuronos_tool_register (Some two_tools) (Some sample_desc)))
                        (Some "shell"%string) None
  = neuronos_tool_execute (Some two_tools) (Some "shell"%string) None.
Proof.
  apply (register_keeps_other_tools two_tools sample_desc "shell"%string None).
  - exact two_tools_inv.
  - discriminate.
Defined.

(** *** Registering again *)

(** A call that was rejected stays rejected when more tools have been
    registered in between. *)
Lemma rejected_later r r' d :
  neuronos_tool_register (Some r) d = (Some r, -1) ->
  count r <= count r' -> (forall i t, registered r i t -> registered r' i t) ->
  neuronos_tool_register (Some r') d = (Some r', -1).
Proof.
  intros Hrej Hcount Hkeep. destruct d as [d|]; [|reflexivity].
  destruct (register_cases r d) as [[_ Hwhy] | (nm & f & _ & _ & _ & _ & Hok)];
    [|rewrite Hok in Hrej; discriminate].
  unfold neuronos_tool_register.
  destruct Hwhy as [-> | [-> | [H | (nm & k & Hnm & Hk)]]].
  - reflexivity.
  - destruct (name d); reflexivity.
  - destruct (name d), (execute d); try reflexivity.
    destruct (NEURONOS_MAX_TOOLS <=? count r') eqn:E; [reflexivity|].
    apply Z.leb_gt in E. lia.
  - rewrite Hnm. destruct (execute d); [|reflexivity].
    destruct (NEURONOS_MAX_TOOLS <=? count r'); [reflexivity|].
    destruct (find_tool_Some r nm k Hk) as (t & Hr & Ht).
    destruct (find_tool_registered r' k t nm (Hkeep k t Hr) Ht) as [k' ->]. reflexivity.
Qed.

(** Whatever a register call did, the same call is rejected right after. *)
Lemma register_twice r d reg' rc :
  reg_inv r -> neuronos_tool_register (Some r) d = (Some reg', rc) ->
  neuronos_tool_register (Some reg') d = (Some reg', -1).
Proof.
  intros Hinv Hreg. destruct d as [d|]; [|injection Hreg as <- _; reflexivity].
  destruct (register_cases r d) as [[Hrej _] | (nm & f & Hnm & Hex & Hlt & Hfresh & Hok)].
  - rewrite Hrej in Hreg. injection Hreg as <- _. exact Hrej.
  - rewrite Hok in Hreg. injection Hreg as <- _.
    unfold neuronos_tool_register. rewrite Hnm, Hex.
    destruct (NEURONOS_MAX_TOOLS <=? _); [reflexivity|].
    destruct (find_tool_registered _ _ d nm (registered_new r d Hinv Hlt) Hnm) as [k ->].
    reflexivity.
Qed.

(** A register call only adds: the count does not shrink and the slots in
    use keep their content. *)
Lemma register_grows r d reg' rc :
  neuronos_tool_register (Some r) d = (Some reg', rc) ->
  count r <= count reg' /\ forall i t, registered r i t -> registered reg' i t.
Proof.
  intros Hreg. destruct d as [d|]; [|injection Hreg as <- _; split; [lia | auto]].
  destruct (register_cases r d) as [[Hrej _] | (nm & f & _ & _ & _ & _ & Hok)].
  - rewrite Hrej in Hreg. injection Hreg as <- _. split; [lia | auto].
  - rewrite Hok in Hreg. injection Hreg as <- _. split; [simpl; lia|].
    intros i t. apply registered_old.
Qed.

Lemma register_all_grows ds : forall r r',
  reg_inv r -> register_all (Some r) ds = Some r' ->
  count r <= count r' /\ forall i t, registered r i t -> registered r' i t.
Proof.
  induction ds as [|d ds IH]; intros r r' Hinv Hall.
  - injection Hall as <-. split; [lia | auto].
  - rewrite register_all_cons in Hall.
    destruct (neuronos_tool_register (Some r) d) as [reg1 rc] eqn:Hreg.
    destruct (register_inv r d reg1 rc Hinv Hreg) as (r1 & -> & Hinv1).
    destruct (register_grows r d r1 rc Hreg) as [Hc1 Hk1].
    destruct (IH r1 r' Hinv1 Hall) as [Hc2 Hk2].
    split; [lia | auto].
Qed.

Lemma register_all_rejected ds : forall r r',
  reg_inv r -> register_all (Some r) ds = Some r' ->
  Forall (fun d => neuronos_tool_register (Some r') d = (Some r', -1)) ds.
Proof.
  induction ds as [|d ds IH]; intros r r' Hinv Hall; [constructor|].
  rewrite register_all_cons in Hall.
  destruct (neuronos_tool_register (Some r) d) as [reg1 rc] eqn:Hreg.
  destruct (register_inv r d reg1 rc Hinv Hreg) as (r1 & -> & Hinv1).
  constructor.
  - destruct (register_all_grows ds r1 r' Hinv1 Hall) as [Hc Hk].
    apply (rejected_later r1 r' d); [|exact Hc | exact Hk].
    apply (register_twice r d r1 rc Hinv Hreg).
  - apply (IH r1 r' Hinv1 Hall).
Qed.

(** Calls that are all rejected leave the registry as it is. *)
Lemma register_all_fixed r ds :
  Forall (fun d => neuronos_tool_register (Some r) d = (Some r, -1)) ds ->
  register_all (Some r) ds = Some r.
Proof.
  induction 1 as [|d ds' Hd _ IH]; [reflexivity|].
  rewrite register_all_cons, Hd. exact IH.
Qed.

(** Property X6. Registering a list of descriptors a second time changes nothing:
    every call of the second pass is rejected, so the registry is the one
    the first pass left. *)
Theorem register_all_idempotent (r : tool_reg) (ds : list (option tool_desc)) :
  reg_inv r ->
  register_all (register_all (Some r) ds) ds = register_all (Some r) ds.
Proof.
  intros Hinv.
  destruct (register_all_inv r ds Hinv) as (r' & Hall & _). rewrite Hall.
  apply register_all_fixed.
  apply (register_all_rejected ds r r' Hinv Hall).
Qed.

Lemma register_all_idempotent_witness :
  register_all (register_all (Some two_tools) [Some sample_desc; None; Some desc_calc])
               [Some sample_desc; None; Some desc_calc]
  = register_all (Some two_tools) [Some sample_desc; None; Some desc_calc].
Proof.
  apply (register_all_idempotent two_tools [Some sample_desc; None; Some desc_calc]).
  exact two_tools_inv.
Defined.

End RegistryMore.

Module DefaultsMore.
Import ToolRegistry RegistrySpec RegistryMoreSpec RegistryFacts RegistryMore.

Section Defaults.
Variables SH FS : Z.

(** One counted register call: the counter grows by what the count of the
    registry grows, which is 0 or 1. *)
Lemma register_counting_step r k d :
  exists r',
    register_counting (Some r, k) d = (Some r', k + (count r' - count r)) /\
    fst (neuronos_tool_register (Some r) (Some d)) = Some r' /\
    0 <= count r' - count r <= 1.
Proof.
  unfold register_counting.
  destruct (register_cases r d) as [[Hrej _] | (nm & f & _ & _ & _ & _ & Hok)].
  - rewrite Hrej. exists r. cbn [fst]. split; [|split; [reflexivity | lia]].
    change (-1 =? 0) with false. cbv iota. f_equal. lia.
  - rewrite Hok. eexists. cbn [fst]. split; [|split; [reflexivity | simpl; lia]].
    change (0 =? 0) with true. cbv iota. cbn [count]. f_equal. lia.
Qed.

(** The registry that the function leaves is the one that the register
    calls for the allowed descriptors leave, and the returned number is
    the growth of the count. *)
Lemma register_defaults_as_register_all r allowed :
  exists r',
    neuronos_tool_register_defaults SH FS (Some r) allowed = (Some r', count r' - count r) /\
    register_all (Some r) (default_descs SH FS allowed) = Some r' /\
    0 <= count r' - count r <= 4.
Proof.
  unfold neuronos_tool_register_defaults, default_descs. cbv zeta.
  destruct (negb (Z.land allowed SH =? 0)); destruct (negb (Z.land allowed FS =? 0));
    cbn [app register_all fold_left].
  - destruct (register_counting_step r 0 (desc_shell SH)) as (r1 & -> & -> & H1).
    destruct (register_counting_step r1 (0 + (count r1 - count r)) (desc_read FS))
      as (r2 & -> & -> & H2).
    destruct (register_counting_step r2 (0 + (count r1 - count r) + (count r2 - count r1))
                                     (desc_write FS)) as (r3 & -> & -> & H3).
    destruct (register_counting_step r3
                (0 + (count r1 - count r) + (count r2 - count r1) + (count r3 - count r2))
                desc_calc) as (r4 & -> & -> & H4).
    exists r4. split; [f_equal; lia|]. split; [reflexivity | lia].
  - destruct (register_counting_step r 0 (desc_shell SH)) as (r1 & -> & -> & H1).
    destruct (register_counting_step r1 (0 + (count r1 - count r)) desc_calc)
      as (r2 & -> & -> & H2).
    exists r2. split; [f_equal; lia|]. split; [reflexivity | lia].
  - destruct (register_counting_step r 0 (desc_read FS)) as (r1 & -> & -> & H1).
    destruct (register_counting_step r1 (0 + (count r1 - count r)) (desc_write FS))
      as (r2 & -> & -> & H2).
    destruct (register_counting_step r2 (0 + (count r1 - count r) + (count r2 - count r1))
                                     desc_calc) as (r3 & -> & -> & H3).
    exists r3. split; [f_equal; lia|]. split; [reflexivity | lia].
  - destruct (register_counting_step r 0 desc_calc) as (r1 & -> & -> & H1).
    exists r1. split; [f_equal; lia|]. split; [reflexivity | lia].
Qed.

(** Property X7. The number returned by [neuronos_tool_register_defaults] is the
    number of tools the call added (between 0 and 4), -1 for a NULL
    registry; on a fresh registry it is 1 for [calculate], plus 1 when the
    shell capability is allowed, plus 2 when the filesystem capability is. *)
Theorem register_defaults_counts (allowed : Z) :
  neuronos_tool_register_defaults SH FS None allowed = (None, -1) /\
  (forall r, exists r',
      neuronos_tool_register_defaults SH FS (Some r) allowed = (Some r', count r' - count r) /\
      0 <= count r' - count r <= 4) /\
  snd (neuronos_tool_register_defaults SH FS (neuronos_tool_registry_create true) allowed)
  = (if Z.land allowed SH =? 0 then 0 else 1) + (if Z.land allowed FS =? 0 then 0 else 2) + 1.
Proof.
  split; [reflexivity|]. split.
  - intros r. destruct (register_defaults_as_register_all r allowed) as (r' & H1 & _ & H2).
    eauto.
  - unfold neuronos_tool_register_defaults, neuronos_tool_registry_create. cbv zeta.
    destruct (Z.land allowed SH =? 0); destruct (Z.land allowed FS =? 0); reflexivity.
Qed.

(** Property X8. Calling [neuronos_tool_register_defaults] again with the same mask
    adds nothing: the second call returns 0 and leaves the registry as the
    first call left it. *)
Theorem register_defaults_twice (r r' : tool_reg) (allowed n : Z) :
  reg_inv r ->
  neuronos_tool_register_defaults SH FS (Some r) allowed = (Some r', n) ->
  neuronos_tool_register_defaults SH FS (Some r') allowed = (Some r', 0).
Proof.
  intros Hinv Hfirst.
  destruct (register_defaults_as_register_all r allowed) as (r1 & H1 & Hall1 & _).
  rewrite H1 in Hfirst. injection Hfirst as -> _.
  destruct (register_defaults_as_register_all r' allowed) as (r2 & H2 & Hall2 & _).
  pose proof (register_all_fixed r' (default_descs SH FS allowed)
                (register_all_rejected _ r r' Hinv Hall1)) as Hfixed.
  rewrite Hall2 in Hfixed. injection Hfixed as ->.
  rewrite H2. f_equal. lia.
Qed.

End Defaults.

Lemma register_defaults_twice_witness :
  neuronos_tool_register_defaults 4 1
    (fst (neuronos_tool_register_defaults 4 1 (Some two_tools) 5)) 5
  = (fst (neuronos_tool_register_defaults 4 1 (Some two_tools) 5), 0).
Proof.
  apply (register_defaults_twice 4 1 two_tools _ 5 2).
  - exact two_tools_inv.
  - reflexivity.
Defined.

End DefaultsMore.

Module PromptFacts.
Import ToolRegistry RegistrySpec ToolPrompt RegistryMoreSpec RegistryFacts GrammarFacts.

Lemma prompt_step_fits cap r i t txt :
  tools r !! i = Some t -> name t <> None ->
  strlen (txt +:+ prompt_line t) < cap ->
  prompt_step cap r i (exact_buf txt) = Some (exact_buf (txt +:+ prompt_line t)).
Proof.
  intros Ht Hn Hfit. unfold prompt_step. rewrite Ht. cbn [mbind option_bind].
  destruct (name t) as [nm|] eqn:Hnm; [|congruence]. cbn [mbind option_bind].
  unfold prompt_line in *. rewrite Hnm in *. cbn [default] in *. change (id nm) with nm in *.
  set (head := "- " +:+ nm +:+ ": " +:+ default "No description"%string (description t)).
  set (sch := match args_schema_json t with
              | Some sch => " Args schema: " +:+ sch
              | None => EmptyString
              end) in *.
  assert (txt +:+ "- " +:+ nm +:+ ": "
              +:+ default "No description"%string (description t) +:+ sch +:+ NL
          = ((txt +:+ head) +:+ sch) +:+ NL) as Heq
    by (unfold head; rewrite !str_app_assoc; reflexivity).
  rewrite Heq in *. rewrite !strlen_app in Hfit.
  pose proof (strlen_nonneg head). pose proof (strlen_nonneg sch).
  pose proof (strlen_nonneg NL). pose proof (strlen_nonneg txt).
  rewrite snprintf_at_fits by (rewrite strlen_app; lia). cbn [mbind option_bind].
  assert (match args_schema_json t with
          | Some s => snprintf_at cap (exact_buf (txt +:+ head)) (" Args schema: " +:+ s)
          | None => Some (exact_buf (txt +:+ head))
          end = Some (exact_buf ((txt +:+ head) +:+ sch))) as ->.
  { unfold sch in *. destruct (args_schema_json t) as [s|].
    - apply snprintf_at_fits. rewrite !strlen_app in *. lia.
    - rewrite str_app_nil_r. reflexivity. }
  cbn [mbind option_bind]. apply snprintf_at_fits. rewrite !strlen_app. lia.
Qed.

Lemma prompt_loop_fits cap r l : forall i txt,
  (forall k t, l !! k = Some t -> tools r !! (i + k)%nat = Some t /\ name t <> None) ->
  strlen (txt +:+ prompt_lines l) < cap ->
  prompt_loop cap r i (length l) (exact_buf txt) = Some (exact_buf (txt +:+ prompt_lines l)).
Proof.
  induction l as [|a l IH]; intros i txt Hl Hfit.
  - simpl. rewrite str_app_nil_r. reflexivity.
  - cbn [length prompt_loop prompt_lines] in *.
    rewrite <- str_app_assoc in Hfit |- *.
    destruct (Hl O a eq_refl) as [Ha Hn]. rewrite Nat.add_0_r in Ha.
    rewrite (prompt_step_fits cap r i a txt Ha Hn).
    + cbn [mbind option_bind]. apply IH; [|exact Hfit].
      intros k t Hk. replace (S i + k)%nat with (i + S k)%nat by lia. apply Hl. exact Hk.
    + rewrite strlen_app in Hfit. pose proof (strlen_nonneg (prompt_lines l)). lia.
Qed.

Lemma prompt_lines_bound l :
  Forall (fun t => strlen (prompt_line t) <= 256) l ->
  strlen (prompt_lines l) <= 256 * Z.of_nat (length l).
Proof.
  induction 1 as [|t l Ht _ IH]; [simpl; unfold strlen; simpl; lia|].
  cbn [prompt_lines length]. rewrite strlen_app. lia.
Qed.

(** Property X9. The description of the tools for the system prompt: the text
    "No tools available." for a NULL or empty registry; otherwise, as long
    as the text is shorter than the buffer of [512 + 256 * count] bytes,
    the header line followed by one line per tool in registration order,
    "- name: description", with "No description" for a NULL description
    and " Args schema: ..." appended when a schema is present. The text
    fits whenever no line has more than 256 characters. *)
Theorem prompt_description_text :
  neuronos_tool_prompt_description None = Some no_tools /\
  (forall r, count r = 0 -> neuronos_tool_prompt_description (Some r) = Some no_tools) /\
  (forall r,
      reg_inv r -> 0 < count r ->
      strlen ("Available tools:" +:+ NL +:+ prompt_lines (tools_in_use r))
      < 512 + count r * 256 ->
      neuronos_tool_prompt_description (Some r)
      = Some ("Available tools:" +:+ NL +:+ prompt_lines (tools_in_use r))) /\
  (forall r,
      reg_inv r ->
      Forall (fun t => strlen (prompt_line t) <= 256) (tools_in_use r) ->
      strlen ("Available tools:" +:+ NL +:+ prompt_lines (tools_in_use r))
      < 512 + count r * 256).
Proof.
  split; [reflexivity|]. split; [|split].
  - intros r Hc. unfold neuronos_tool_prompt_description. rewrite Hc. reflexivity.
  - intros r Hinv Hpos Hfit. unfold neuronos_tool_prompt_description.
    destruct (count r =? 0) eqn:Hz; [apply Z.eqb_eq in Hz; lia|].
    pose proof (inv_count r Hinv) as Hc. pose proof (inv_length r Hinv) as Hl.
    set (cap := 512 + count r * 256) in *.
    change {| sb_text := EmptyString; sb_len := 0 |} with (exact_buf EmptyString).
    rewrite <- str_app_assoc in Hfit |- *.
    set (header := "Available tools:" +:+ NL) in *.
    rewrite snprintf_at_fits
      by (rewrite str_app_nil_l; rewrite strlen_app in Hfit;
          pose proof (strlen_nonneg (prompt_lines (tools_in_use r))); lia).
    rewrite str_app_nil_l. cbn [mbind option_bind].
    assert (length (tools_in_use r) = Z.to_nat (count r)) as Hlen
      by (unfold tools_in_use; rewrite length_take; unfold NEURONOS_MAX_TOOLS in *; lia).
    rewrite <- Hlen.
    rewrite (prompt_loop_fits cap r (tools_in_use r) 0 header); [reflexivity | | exact Hfit].
    intros k t Hk. unfold tools_in_use in Hk. apply lookup_take_Some in Hk as [Hk Hlt].
    split; [exact Hk|].
    apply (inv_used r Hinv k t). split; [lia | exact Hk].
  - intros r Hinv Hlines.
    pose proof (inv_count r Hinv) as Hc. pose proof (inv_length r Hinv) as Hl.
    assert (length (tools_in_use r) = Z.to_nat (count r)) as Hlen
      by (unfold tools_in_use; rewrite length_take; unfold NEURONOS_MAX_TOOLS in *; lia).
    pose proof (prompt_lines_bound _ Hlines) as Hb. rewrite Hlen in Hb.
    rewrite <- str_app_assoc, strlen_app.
    assert (strlen ("Available tools:" +:+ NL) = 17) as -> by reflexivity.
    lia.
Qed.

Lemma prompt_description_text_witness :
  neuronos_tool_prompt_description (Some two_tools)
  = Some ("Available tools:" +:+ NL +:+ prompt_lines (tools_in_use two_tools)).
Proof.
  apply (proj1 (proj2 (proj2 prompt_description_text)) two_tools).
  - exact RegistryMore.two_tools_inv.
  - simpl. lia.
  - vm_compute. reflexivity.
Defined.

End PromptFacts.

(** ** When the rule of the tool names is complete *)

Module GrammarFits.
Import ToolRegistry RegistrySpec RegistryMoreSpec RegistryFacts GrammarFacts.

(** Under the invariant the slots in use all carry a name. *)
Lemma names_in_use_some r :
  reg_inv r -> exists nms, names_in_use r = map Some nms /\ length nms = Z.to_nat (count r).
Proof.
  intros Hinv. pose proof (inv_count r Hinv) as Hc. pose proof (inv_length r Hinv) as Hl.
  unfold names_in_use.
  assert (forall k t, take (Z.to_nat (count r)) (tools r) !! k = Some t -> name t <> None) as Hn.
  { intros k t [Hk Hlt]%lookup_take_Some. apply (inv_used r Hinv k t). split; [lia | exact Hk]. }
  assert (length (take (Z.to_nat (count r)) (tools r)) = Z.to_nat (count r)) as Hlen
    by (rewrite length_take; unfold NEURONOS_MAX_TOOLS in *; lia).
  revert Hn Hlen. generalize (take (Z.to_nat (count r)) (tools r)).
  generalize (Z.to_nat (count r)). intros n l. revert n. induction l as [|t l IH]; intros n Hn Hlen.
  - exists []. split; [reflexivity | exact Hlen].
  - destruct n as [|n]; [discriminate|].
    destruct (IH n) as (nms & Hnms & Hlen').
    { intros k t' Hk. apply (Hn (S k) t'). exact Hk. }
    { simpl in Hlen. lia. }
    destruct (name t) as [nm|] eqn:Hnm; [|exfalso; apply (Hn O t eq_refl); exact Hnm].
    exists (nm :: nms). split; [cbn [map]; rewrite Hnm, Hnms; reflexivity | simpl; lia].
Qed.

Lemma quoted_name_length nm : strlen (quoted_name nm) = strlen nm + 6.
Proof.
  unfold quoted_name. rewrite !strlen_app.
  change (strlen DQ) with 1. change (strlen "\") with 1. lia.
Qed.

Lemma tail_alternatives_length nms :
  Forall (fun nm => strlen nm <= 31) nms ->
  strlen (tail_alternatives nms) <= 40 * Z.of_nat (length nms).
Proof.
  induction 1 as [|nm nms Hnm _ IH]; [unfold strlen; simpl; lia|].
  cbn [tail_alternatives length]. rewrite !strlen_app, quoted_name_length.
  change (strlen " | ") with 3. lia.
Qed.

(** Property X10. The rule of the tool names is complete, every registered name in
    registration order and nothing cut, whenever no name has more than 31
    characters: the buffer of [256 + 40 * count] bytes is then large
    enough. *)
Theorem grammar_names_complete (r : tool_reg) :
  reg_inv r -> 0 < count r ->
  (forall i t nm, registered r i t -> name t = Some nm -> strlen nm <= 31) ->
  exists nms,
    names_in_use r = map Some nms /\
    neuronos_tool_grammar_names (Some r) = Some (rule_of_names nms).
Proof.
  intros Hinv Hpos Hshort.
  destruct (names_in_use_some r Hinv) as (nms & Hnames & Hlen).
  exists nms. split; [exact Hnames|].
  assert (Forall (fun nm => strlen nm <= 31) nms) as Hall.
  { apply Forall_lookup. intros k nm Hk.
    assert (names_in_use r !! k = Some (Some nm)) as Hlk
      by (rewrite Hnames, list_lookup_fmap, Hk; reflexivity).
    unfold names_in_use in Hlk. rewrite list_lookup_fmap in Hlk.
    destruct (take (Z.to_nat (count r)) (tools r) !! k) as [t|] eqn:Ht; [|discriminate].
    apply lookup_take_Some in Ht as [Ht Hlt]. injection Hlk as Hnm.
    apply (Hshort k t nm); [split; [lia | exact Ht] | exact Hnm]. }
  destruct nms as [|a l]; [simpl in Hlen; lia|].
  apply Forall_cons in Hall as [Ha Hl].
  pose proof (tail_alternatives_length l Hl) as Htail.
  pose proof (strlen_nonneg (tail_alternatives l)) as Htail0.
  pose proof (strlen_nonneg a) as Ha0.
  assert (Z.of_nat (length l) = count r - 1) as Hcount by (simpl in Hlen; lia).
  unfold neuronos_tool_grammar_names.
  destruct (count r =? 0) eqn:Hz; [apply Z.eqb_eq in Hz; lia|].
  set (cap := 256 + count r * 40) in *.
  unfold rule_of_names, alternatives.
  change {| sb_text := EmptyString; sb_len := 0 |} with (exact_buf EmptyString).
  rewrite snprintf_at_fits
    by (rewrite str_app_nil_l; change (strlen "tool-name ::= ") with 14; unfold cap; lia).
  rewrite str_app_nil_l. simpl in Hlen. rewrite <- Hlen.
  cbn [mbind option_bind grammar_loop].
  rewrite (grammar_step_fits cap r 0 a).
  - simpl. rewrite str_app_nil_l.
    rewrite (grammar_loop_fits cap r l 1).
    + simpl. rewrite str_app_assoc. reflexivity.
    + lia.
    + intros k nm Hk. apply (names_in_use_lookup r (a :: l)); assumption.
    + rewrite !strlen_app, quoted_name_length.
      change (strlen "tool-name ::= ") with 14. unfold cap. lia.
  - apply (names_in_use_lookup r (a :: l)); [assumption | reflexivity].
  - unfold separator. simpl. rewrite str_app_nil_l.
    rewrite !strlen_app, quoted_name_length.
    change (strlen "tool-name ::= ") with 14. unfold cap. lia.
Qed.

Lemma grammar_names_complete_witness :
  exists nms,
    names_in_use two_tools = map Some nms /\
    neuronos_tool_grammar_names (Some two_tools) = Some (rule_of_names nms).
Proof.
  apply (grammar_names_complete two_tools).
  - exact RegistryMore.two_tools_inv.
  - simpl. lia.
  - intros i t nm [Hi Ht] Hnm. simpl in Hi.
    destruct i as [|[|i]]; [| |lia]; injection Ht as <-; injection Hnm as <-;
      vm_compute; discriminate.
Defined.

End GrammarFits.

(** ** The built-in tools: what they take from the JSON arguments *)

Module ParseFacts.
Import ToolRegistry CString BuiltinTools ToolSpec ScoreSpec ScoreFacts.

Lemma q_cons k : q k = String DQc (k +:+ String DQc EmptyString).
Proof. reflexivity. Qed.

Lemma q_app k rest : q k +:+ rest = String DQc (k +:+ String DQc rest).
Proof. rewrite q_cons, str_app_cons, str_app_assoc. reflexivity. Qed.

Lemma strstr_here h n : String.prefix n h = true -> ModelSelect.strstr h n = Some h.
Proof. intros H. destruct h; cbn [ModelSelect.strstr]; rewrite H; reflexivity. Qed.

Lemma strstr_next a h n :
  String.prefix n (String a h) = false ->
  ModelSelect.strstr (String a h) n = ModelSelect.strstr h n.
Proof. intros H. cbn [ModelSelect.strstr]. rewrite H. reflexivity. Qed.

(** A search for a quoted key steps over text without quotes. *)
Lemma strstr_skip_free s rest k :
  free_of DQc s = true ->
  ModelSelect.strstr (s +:+ rest) (String DQc k) = ModelSelect.strstr rest (String DQc k).
Proof.
  induction s as [|a s IH]; intros Hs; [reflexivity|].
  cbn [free_of] in Hs. apply andb_true_iff in Hs as [Ha Hs].
  rewrite str_app_cons, strstr_next; [apply IH, Hs|].
  cbn [String.prefix]. destruct (ascii_dec DQc a) as [<-|]; [|reflexivity].
  rewrite Ascii.eqb_refl in Ha. discriminate.
Qed.

Lemma prefix_quoted k : forall s rest,
  free_of DQc s = true -> free_of DQc k = true ->
  String.prefix (k +:+ String DQc EmptyString) (s +:+ String DQc rest) = true -> s = k.
Proof.
  induction k as [|b k IH]; intros s rest Hs Hk Hp.
  - destruct s as [|a s]; [reflexivity|]. exfalso.
    rewrite str_app_nil_l, str_app_cons in Hp. cbn [String.prefix] in Hp.
    cbn [free_of] in Hs. apply andb_true_iff in Hs as [Ha _].
    destruct (ascii_dec DQc a) as [<-|]; [|discriminate].
    rewrite Ascii.eqb_refl in Ha. discriminate.
  - cbn [free_of] in Hk. apply andb_true_iff in Hk as [Hb Hk].
    destruct s as [|a s].
    + exfalso. rewrite str_app_nil_l, str_app_cons in Hp. cbn [String.prefix] in Hp.
      destruct (ascii_dec b DQc) as [->|]; [|discriminate].
      rewrite Ascii.eqb_refl in Hb. discriminate.
    + rewrite !str_app_cons in Hp. cbn [String.prefix] in Hp.
      cbn [free_of] in Hs. apply andb_true_iff in Hs as [_ Hs].
      destruct (ascii_dec b a) as [->|]; [|discriminate].
      f_equal. apply (IH s rest Hs Hk Hp).
Qed.

(** A search for the quoted key [k] steps over a quoted text other than [k]. *)
Lemma strstr_skip_quoted s rest k :
  free_of DQc s = true -> free_of DQc k = true -> s <> k ->
  ModelSelect.strstr (String DQc (s +:+ String DQc rest)) (q k)
  = ModelSelect.strstr (String DQc rest) (q k).
Proof.
  intros Hs Hk Hne. rewrite q_cons.
  rewrite strstr_next.
  - apply strstr_skip_free, Hs.
  - cbn [String.prefix]. destruct (ascii_dec DQc DQc); [|congruence].
    destruct (String.prefix _ _) eqn:Hp; [|reflexivity].
    exfalso. apply Hne. apply (prefix_quoted k s rest Hs Hk Hp).
Qed.

Lemma ptr_add_app s rest : ptr_add (s +:+ rest) (String.length s) = rest.
Proof.
  induction s as [|a s IH]; [destruct rest; reflexivity|].
  rewrite str_app_cons. cbn [String.length ptr_add]. exact IH.
Qed.

Lemma ptr_add_1 a p : ptr_add (String a p) 1 = p.
Proof. destruct p; reflexivity. Qed.

Lemma strchr_skip_free s rest c :
  free_of c s = true -> strchr (s +:+ rest) c = strchr rest c.
Proof.
  induction s as [|a s IH]; intros Hs; [reflexivity|].
  cbn [free_of] in Hs. apply andb_true_iff in Hs as [Ha Hs].
  rewrite str_app_cons. cbn [strchr].
  destruct (Ascii.eqb a c); [discriminate | apply IH, Hs].
Qed.

Lemma strchr_here c rest : strchr (String c rest) c = Some (String c rest).
Proof. cbn [strchr]. rewrite Ascii.eqb_refl. reflexivity. Qed.

Lemma copy_app s rest : copy (s +:+ rest) (String.length s) = s.
Proof.
  unfold copy. induction s as [|a s IH]; [destruct rest; reflexivity|].
  rewrite str_app_cons. cbn [String.length String.substring]. f_equal. exact IH.
Qed.

(** The scan for the closing quote stops right after a well-escaped body. *)
Lemma scan_value_escaped n : forall c rest,
  (String.length c <= n)%nat -> well_escaped c = true ->
  scan_value (c +:+ String DQc rest) = String.length c.
Proof.
  induction n as [|n IH]; intros c rest Hlen Hc.
  - destruct c; [|simpl in Hlen; lia]. rewrite str_app_nil_l. cbn [scan_value].
    rewrite Ascii.eqb_refl. reflexivity.
  - destruct c as [|a c].
    { rewrite str_app_nil_l. cbn [scan_value]. rewrite Ascii.eqb_refl. reflexivity. }
    rewrite str_app_cons. cbn [scan_value well_escaped String.length] in *.
    destruct (Ascii.eqb a DQc); [discriminate|].
    destruct (Ascii.eqb a BSc).
    + destruct c as [|b c]; [discriminate|].
      rewrite str_app_cons. cbn [String.length] in *. f_equal. f_equal.
      apply IH; [lia | exact Hc].
    + f_equal. apply IH; [lia | exact Hc].
Qed.

Lemma free_well_escaped c :
  free_of DQc c = true -> free_of BSc c = true -> well_escaped c = true.
Proof.
  induction c as [|a c IH]; [reflexivity|]. cbn [free_of well_escaped].
  intros [Ha Hq]%andb_true_iff [Hb Hs]%andb_true_iff.
  destruct (Ascii.eqb a DQc); [discriminate|]. destruct (Ascii.eqb a BSc); [discriminate|].
  apply IH; assumption.
Qed.

(** Where the value of a key is found: the search for the key, the step
    over it and the search for the opening quote. *)
Lemma locate_value pre k sep rest :
  free_of DQc pre = true -> free_of DQc sep = true ->
  exists p,
    ModelSelect.strstr (pre +:+ q k +:+ sep +:+ String DQc rest) (q k) = Some p /\
    strchr (ptr_add p (String.length (q k))) DQc = Some (String DQc rest).
Proof.
  intros Hpre Hsep. exists (q k +:+ sep +:+ String DQc rest). split.
  - rewrite (q_cons k) at 2. rewrite strstr_skip_free by exact Hpre.
    rewrite <- q_cons. apply strstr_here, prefix_app.
  - rewrite ptr_add_app, strchr_skip_free by exact Hsep. apply strchr_here.
Qed.

Lemma length_app_sub s rest :
  (String.length (s +:+ rest) - String.length rest)%nat = String.length s.
Proof. rewrite str_length_app. lia. Qed.

(** The value between the opening quote and the next quote. *)
Lemma value_to_quote v rest :
  free_of DQc v = true ->
  exists e,
    strchr (v +:+ String DQc rest) DQc = Some e /\
    copy (v +:+ String DQc rest)
         (String.length (v +:+ String DQc rest) - String.length e) = v.
Proof.
  intros Hv. exists (String DQc rest). split.
  - rewrite strchr_skip_free by exact Hv. apply strchr_here.
  - rewrite length_app_sub. apply copy_app.
Qed.

(** The value up to the closing quote that the escape-aware scan finds. *)
Lemma value_scanned v rest :
  well_escaped v = true ->
  copy (v +:+ String DQc rest) (scan_value (v +:+ String DQc rest)) = v.
Proof.
  intros Hv. rewrite (scan_value_escaped (String.length v)) by (auto; lia).
  apply copy_app.
Qed.

End ParseFacts.

Module ToolFacts.
Import ToolRegistry CString BuiltinTools ToolSpec ScoreSpec ScoreFacts ParseFacts GrammarFacts.

(** Property X11. [tool_shell] on arguments of the form [... "command" ... "c" ...]
    (no quote before the key nor between key and value, [c] the body of a
    JSON string) hands [c] to [popen] as it is written, escapes included,
    and reports the outcome: success exactly for the exit status 0, the
    output in both cases, and the status in the error text otherwise. *)
Theorem tool_shell_runs_command
  (popen : string -> option (string * Z)) (pre sep c post : string) :
  free_of DQc pre = true -> free_of DQc sep = true -> well_escaped c = true ->
  tool_shell popen (pre +:+ q "command" +:+ sep +:+ q c +:+ post)
  = shell_result (popen c) /\
  (forall out status,
      popen c = Some (out, status) ->
      success (shell_result (popen c)) = (status =? 0) /\
      output (shell_result (popen c)) = Some out /\
      (status <> 0 ->
       error (shell_result (popen c))
       = Some ("Command exited with status " +:+ pretty status))).
Proof.
  intros Hpre Hsep Hc. split.
  - unfold tool_shell.
    assert (q c +:+ post = String DQc (c +:+ String DQc post)) as ->
      by (rewrite q_cons, str_app_cons, str_app_assoc; reflexivity).
    destruct (locate_value pre "command" sep (c +:+ String DQc post) Hpre Hsep)
      as (p & -> & Hp).
    change (String.length (q "command")) with 9%nat in Hp. rewrite Hp.
    rewrite ptr_add_1. rewrite value_scanned by exact Hc. reflexivity.
  - intros out status ->. cbn [shell_result success output error].
    split; [reflexivity|]. split; [reflexivity|].
    intros Hne. destruct (status =? 0) eqn:E; [apply Z.eqb_eq in E; congruence | reflexivity].
Qed.

Lemma tool_shell_runs_command_witness :
  tool_shell popen_echo ("{" +:+ q "command" +:+ ": " +:+ q "ls -l" +:+ "}")
  = shell_result (popen_echo "ls -l").
Proof.
  apply (proj1 (tool_shell_runs_command popen_echo "{" ": " "ls -l" "}"
                  eq_refl eq_refl eq_refl)).
Defined.

(** [tool_shell] does not decode the JSON escapes: the command
    [echo \"hi\"] reaches [popen] with its backslashes. *)
Example tool_shell_keeps_escapes :
  tool_shell popen_echo
    ("{" +:+ q "command" +:+ ": " +:+ q ("echo \" +:+ DQ +:+ "hi\" +:+ DQ) +:+ "}")
  = {| success := true; output := Some ("echo \" +:+ DQ +:+ "hi\" +:+ DQ); error := None |}.
Proof. vm_compute. reflexivity. Qed.

Lemma str_take_length n s : 0 <= n -> strlen (str_take n s) = Z.min n (strlen s).
Proof.
  intros Hn. unfold str_take, strlen.
  assert (forall k t, String.length (String.substring 0 k t) = Nat.min k (String.length t)) as H.
  { intros k. induction k as [|k IH]; intros t; destruct t as [|a t]; try reflexivity.
    cbn [String.substring String.length]. rewrite IH. reflexivity. }
  rewrite H. lia.
Qed.

Lemma str_take_all n s : strlen s <= n -> str_take n s = s.
Proof. intros H. unfold str_take. apply substring_all. unfold strlen in H. lia. Qed.



(** A file of /proc reports the size 0: the output is empty. A FIFO makes
    [ftell] fail: the read is undefined. *)
Example tool_read_file_special :
  tool_read_file fopen_special ("{" +:+ q "path" +:+ ": " +:+ q "/proc/version" +:+ "}")
  = Some {| success := true; output := Some EmptyString; error := None |} /\
  tool_read_file fopen_special ("{" +:+ q "path" +:+ ": " +:+ q "/tmp/fifo" +:+ "}") = None.
Proof. split; vm_compute; reflexivity. Qed.

(** Property X13. [tool_write_file] on arguments of the form
    [... "path" ... "p" ... "content" ... "c" ...] (no quotes in the texts
    around the keys and in [p], none of the texts between the first key and
    the second being the word content, [c] the body of a JSON string)
    writes to the file [p] the bytes of [c] as they are written in the
    arguments, and nothing when the file cannot be opened. *)
Theorem tool_write_file_writes
  (fopen_w : string -> bool) (pre sep1 p mid sep2 c post : string) :
  free_of DQc pre = true -> free_of DQc sep1 = true -> free_of DQc p = true ->
  free_of DQc mid = true -> free_of DQc sep2 = true -> well_escaped c = true ->
  sep1 <> "content"%string -> p <> "content"%string -> mid <> "content"%string ->
  tool_write_file fopen_w
    (pre +:+ q "path" +:+ sep1 +:+ q p +:+ mid +:+ q "content" +:+ sep2 +:+ q c +:+ post)
  = if fopen_w p
    then ({| success := true; output := Some "File written successfully"%string;
             error := None |}, Some (p, c))
    else (fail "Cannot write file", None).
Proof.
  intros Hpre Hsep1 Hp Hmid Hsep2 Hc Hn1 Hn2 Hn3. unfold tool_write_file.
  rewrite (q_app c post), (q_app "content"), (q_app p).
  set (value := c +:+ String DQc post).
  set (tail := String DQc ("content" +:+ String DQc (sep2 +:+ String DQc value))).
  destruct (locate_value pre "path" sep1 (p +:+ String DQc (mid +:+ tail)) Hpre Hsep1)
    as (s & Hfind & Hs).
  rewrite Hfind. change (String.length (q "path")) with 6%nat in Hs. rewrite Hs.
  rewrite ptr_add_1.
  destruct (value_to_quote p (mid +:+ tail) Hp) as (e & -> & ->).
  assert (ModelSelect.strstr
            (pre +:+ q "path" +:+ sep1 +:+ String DQc (p +:+ String DQc (mid +:+ tail)))
            (q "content") = Some tail) as ->.
  { rewrite (q_cons "content") at 1. rewrite strstr_skip_free by exact Hpre.
    rewrite <- q_cons. rewrite (q_app "path").
    rewrite strstr_skip_quoted by (try reflexivity; discriminate).
    rewrite strstr_skip_quoted by (try reflexivity; assumption).
    rewrite strstr_skip_quoted by (try reflexivity; assumption).
    unfold tail.
    rewrite strstr_skip_quoted by (try reflexivity; assumption).
    apply strstr_here. rewrite <- q_app. apply prefix_app. }
  assert (strchr (ptr_add tail 9) DQc = Some (String DQc value)) as ->.
  { unfold tail. rewrite <- q_app.
    change 9%nat with (String.length (q "content")).
    rewrite ptr_add_app, strchr_skip_free by exact Hsep2. apply strchr_here. }
  rewrite ptr_add_1. unfold value. rewrite value_scanned by exact Hc. reflexivity.
Qed.

Lemma tool_write_file_writes_witness :
  tool_write_file (fun _ => true)
    ("{" +:+ q "path" +:+ ": " +:+ q "/tmp/abc" +:+ ", " +:+ q "content" +:+ ": "
     +:+ q "abc" +:+ "}")
  = if (fun _ : string => true) "/tmp/abc"%string
    then ({| success := true; output := Some "File written successfully"%string;
             error := None |}, Some ("/tmp/abc"%string, "abc"%string))
    else (fail "Cannot write file", None).
Proof.
  apply (tool_write_file_writes (fun _ => true) "{" ": " "/tmp/abc" ", " ": " "abc" "}");
    try reflexivity; discriminate.
Defined.

(** The hypothesis on the path is needed: a file that is itself called
    content is not written, the key being looked for from the start of the
    arguments. *)
Example tool_write_file_path_named_content :
  tool_write_file (fun _ => true)
    ("{" +:+ q "path" +:+ ": " +:+ q "content" +:+ ", " +:+ q "content" +:+ ": "
     +:+ q "abc" +:+ "}")
  = ({| success := true; output := Some "File written successfully"%string; error := None |},
     Some ("content"%string, "content"%string)).
Proof. vm_compute. reflexivity. Qed.

(** *** calculate *)

Lemma line_prefix_line l : forall n rest,
  free_of LFc l = true -> (String.length l < n)%nat ->
  line_prefix n (l +:+ String LFc rest) = l +:+ String LFc EmptyString.
Proof.
  induction l as [|a l IH]; intros n rest Hl Hn.
  - destruct n as [|n]; [simpl in Hn; lia|]. rewrite !str_app_nil_l.
    cbn [line_prefix]. rewrite Ascii.eqb_refl. reflexivity.
  - destruct n as [|n]; [simpl in Hn; lia|]. rewrite !str_app_cons.
    cbn [free_of] in Hl. apply andb_true_iff in Hl as [Ha Hl].
    cbn [line_prefix]. destruct (Ascii.eqb a LFc); [discriminate|].
    f_equal. apply IH; [exact Hl | simpl in Hn; lia].
Qed.

Lemma get_app_l s t n :
  (n < String.length s)%nat -> String.get n (s +:+ t) = String.get n s.
Proof.
  revert n. induction s as [|a s IH]; intros n Hn; [simpl in Hn; lia|].
  rewrite str_app_cons. destruct n as [|n]; [reflexivity|].
  cbn [String.get]. apply IH. simpl in Hn. lia.
Qed.

Lemma get_app_here s c t : String.get (String.length s) (s +:+ String c t) = Some c.
Proof.
  induction s as [|a s IH]; [reflexivity|]. rewrite str_app_cons. exact IH.
Qed.

Lemma calc_output_line l rest :
  clean_line l = true -> strlen l <= 254 ->
  calc_output (l +:+ String LFc rest) = l.
Proof.
  unfold clean_line, strlen. intros [Hfree Hlast]%andb_true_iff Hlen.
  unfold calc_output, fgets.
  assert (l +:+ String LFc rest <> EmptyString) as Hne
    by (destruct l; [rewrite str_app_nil_l | rewrite str_app_cons]; discriminate).
  destruct (l +:+ String LFc rest) as [|a s] eqn:Hs; [congruence|]. rewrite <- Hs. clear Hne.
  rewrite line_prefix_line by (auto; lia).
  rewrite str_length_app. cbn [String.length].
  replace (String.length l + 1)%nat with (S (String.length l)) by lia.
  cbn [trim_len]. rewrite get_app_here. unfold is_eol at 1. rewrite Ascii.eqb_refl.
  cbn [orb].
  destruct (String.length l) as [|k] eqn:Hk.
  - destruct l; [reflexivity | discriminate].
  - cbn [trim_len]. rewrite get_app_l by lia.
    replace (S k - 1)%nat with k in Hlast by lia.
    destruct (is_eol (String.get k l)); [discriminate|].
    rewrite <- Hk. apply copy_app.
Qed.

(** Property X14. [tool_calculate] on arguments of the form
    [... "expression" ... "e" ...] with an expression of at most 491
    characters runs the command [echo 'e' | bc -l 2>&1], the expression
    being pasted between the single quotes as it is; the output is the
    first line that the command prints, without its end of line, and the
    text 0 when it prints nothing. *)
Theorem tool_calculate_runs_bc
  (popen : string -> option string) (pre sep e post : string) :
  free_of DQc pre = true -> free_of DQc sep = true -> free_of DQc e = true ->
  strlen e <= 491 ->
  tool_calculate popen (pre +:+ q "expression" +:+ sep +:+ q e +:+ post)
  = calc_result (popen ("echo '" +:+ e +:+ "' | bc -l 2>&1")) /\
  (forall l rest, clean_line l = true -> strlen l <= 254 ->
                  calc_output (l +:+ String LFc rest) = l) /\
  calc_output EmptyString = "0"%string.
Proof.
  intros Hpre Hsep He Hlen. split; [|split; [apply calc_output_line | reflexivity]].
  unfold tool_calculate. rewrite (q_app e post).
  destruct (locate_value pre "expression" sep (e +:+ String DQc post) Hpre Hsep)
    as (s & -> & Hs).
  change (String.length (q "expression")) with 12%nat in Hs. rewrite Hs.
  rewrite ptr_add_1.
  assert (strchr (e +:+ String DQc post) DQc = Some (String DQc post)) as ->
    by (rewrite strchr_skip_free by exact He; apply strchr_here).
  cbv zeta. rewrite length_app_sub.
  pose proof (strlen_nonneg e) as Hnn. unfold strlen in Hlen, Hnn.
  rewrite wrap32_id by (unfold in_int32, INT32_MIN, INT32_MAX; lia).
  unfold print_prec.
  destruct (Z.of_nat (String.length e) <? 0) eqn:E; [apply Z.ltb_lt in E; lia|].
  assert (str_take (Z.of_nat (String.length e)) (e +:+ String DQc post) = e) as ->
    by (unfold str_take; rewrite Nat2Z.id; apply copy_app).
  rewrite str_take_all; [reflexivity|].
  rewrite !strlen_app. unfold strlen at 2. 
  change (strlen "echo '") with 6. change (strlen "' | bc -l 2>&1") with 14. lia.
Qed.

Lemma tool_calculate_runs_bc_witness :
  tool_calculate popen_42 ("{" +:+ q "expression" +:+ ": " +:+ q "6*7" +:+ "}")
  = calc_result (popen_42 ("echo '" +:+ "6*7" +:+ "' | bc -l 2>&1")).
Proof.
  apply (proj1 (tool_calculate_runs_bc popen_42 "{" ": " "6*7" "}"
                  eq_refl eq_refl eq_refl ltac:(vm_compute; discriminate))).
Defined.

Example tool_calculate_42 :
  tool_calculate popen_42 ("{" +:+ q "expression" +:+ ": " +:+ q "6*7" +:+ "}")
  = {| success := true; output := Some "42"%string; error := None |}.
Proof. vm_compute. reflexivity. Qed.

(** *** Arguments without the key *)

Lemma strstr_absent h n : containsb h n = false -> ModelSelect.strstr h n = None.
Proof.
  rewrite <- strstr_containsb. destruct (ModelSelect.strstr h n); [discriminate | reflexivity].
Qed.

(** Property X15. Arguments in which the quoted key does not occur are answered
    with the error text of the tool, without any call of [popen] or
    [fopen]: the result is the same whatever these would do. *)
Theorem missing_argument_errors (args : string) :
  (containsb args (q "command") = false ->
   forall popen, tool_shell popen args = fail "Missing 'command' argument") /\
  (containsb args (q "path") = false ->
   (forall fopen_r, tool_read_file fopen_r args = Some (fail "Missing 'path' argument")) /\
   (forall fopen_w, tool_write_file fopen_w args = (fail "Missing 'path'", None))) /\
  (containsb args (q "expression") = false ->
   forall popen, tool_calculate popen args = fail "Missing 'expression' argument").
Proof.
  split; [|split].
  - intros H popen. unfold tool_shell. rewrite (strstr_absent _ _ H). reflexivity.
  - intros H. split.
    + intros fopen_r. unfold tool_read_file. rewrite (strstr_absent _ _ H). reflexivity.
    + intros fopen_w. unfold tool_write_file. rewrite (strstr_absent _ _ H). reflexivity.
  - intros H popen. unfold tool_calculate. rewrite (strstr_absent _ _ H). reflexivity.
Qed.

Lemma missing_argument_errors_witness :
  tool_shell popen_echo "{}" = fail "Missing 'command' argument" /\
  tool_read_file fopen_abc "{}" = Some (fail "Missing 'path' argument") /\
  tool_calculate popen_42 "{}" = fail "Missing 'expression' argument".
Proof.
  split; [|split].
  - apply (proj1 (missing_argument_errors "{}")). reflexivity.
  - apply (proj1 (proj2 (missing_argument_errors "{}"))). reflexivity.
  - apply (proj2 (proj2 (missing_argument_errors "{}"))). reflexivity.
Defined.

End ToolFacts.

(** ** The model scanner *)

Module NameFacts.
Import CString ToolSpec ModelScan ParseFacts GrammarFacts ToolFacts.
Import ToolRegistry.

Lemma free_of_app c s t : free_of c (s +:+ t) = free_of c s && free_of c t.
Proof.
  induction s as [|a s IH]; [reflexivity|].
  rewrite str_app_cons. cbn [free_of]. rewrite IH. apply andb_assoc.
Qed.

Lemma strrchr_free c s : free_of c s = true -> strrchr s c = None.
Proof.
  induction s as [|a s IH]; [reflexivity|]. cbn [free_of strrchr].
  intros [Ha Hs]%andb_true_iff. rewrite (IH Hs).
  destruct (Ascii.eqb a c); [discriminate | reflexivity].
Qed.

Lemma strrchr_last c s rest :
  free_of c rest = true -> strrchr (s +:+ String c rest) c = Some (String c rest).
Proof.
  intros Hrest. induction s as [|a s IH].
  - rewrite str_app_nil_l. cbn [strrchr]. rewrite (strrchr_free c rest Hrest), Ascii.eqb_refl.
    reflexivity.
  - rewrite str_app_cons. cbn [strrchr]. rewrite IH. reflexivity.
Qed.

Lemma strrchr_Some c s p :
  strrchr s c = Some p -> exists t, p = String c t /\ free_of c t = true.
Proof.
  induction s as [|a s IH]; [discriminate|]. cbn [strrchr].
  destruct (strrchr s c) as [p'|] eqn:Hs.
  - intros [= <-]. apply IH. reflexivity.
  - destruct (Ascii.eqb_spec a c) as [->|]; [|discriminate].
    intros [= <-]. exists s. split; [reflexivity|].
    clear IH. induction s as [|b s IH]; [reflexivity|]. cbn [strrchr free_of] in *.
    destruct (strrchr s c); [discriminate|].
    destruct (Ascii.eqb b c); [discriminate|]. apply IH. reflexivity.
Qed.

Lemma strrchr_None c s : strrchr s c = None -> free_of c s = true.
Proof.
  induction s as [|b s IH]; [reflexivity|]. cbn [strrchr free_of].
  destruct (strrchr s c); [discriminate|].
  destruct (Ascii.eqb b c); [discriminate|]. intros _. apply IH. reflexivity.
Qed.

Lemma free_of_take c s : forall n, free_of c s = true -> free_of c (String.substring 0 n s) = true.
Proof.
  induction s as [|a s IH]; intros n Hs; [destruct n; reflexivity|].
  destruct n as [|n]; [reflexivity|]. cbn [free_of String.substring] in *.
  apply andb_true_iff in Hs as [Ha Hs]. rewrite Ha. apply IH, Hs.
Qed.

(** For a buffer of positive size the name is always defined, shorter
    than the buffer and free of slashes. *)
Lemma extract_model_name_total path name_len :
  0 < name_len ->
  exists nm, extract_model_name path name_len = Some nm /\
             strlen nm < name_len /\ free_of "/" nm = true.
Proof.
  intros Hpos. unfold extract_model_name.
  set (base := match match strrchr path "/" with
                     | Some b => Some b
                     | None => strrchr path "\"
                     end with
               | Some b => ptr_add b 1
               | None => path
               end).
  assert (free_of "/" base = true) as Hbase.
  { unfold base. destruct (strrchr path "/") as [b|] eqn:Hs.
    - destruct (strrchr_Some _ _ _ Hs) as (t & -> & Ht). rewrite ptr_add_1. exact Ht.
    - apply strrchr_None in Hs.
      destruct (strrchr path "\") as [b|] eqn:Hb; [|exact Hs].
      destruct (strrchr_Some _ _ _ Hb) as (t & -> & _). rewrite ptr_add_1.
      assert (forall s p, strrchr s "\" = Some p -> free_of "/" s = true ->
                          free_of "/" p = true) as Hsub.
      { clear. induction s as [|a s IH]; [discriminate|]. cbn [strrchr free_of].
        intros p Hp [Ha Hs]%andb_true_iff.
        destruct (strrchr s "\") as [p'|] eqn:E.
        - injection Hp as <-. apply (IH p' eq_refl Hs).
        - destruct (Ascii.eqb a "\"); [|discriminate]. injection Hp as <-.
          cbn [free_of]. rewrite Ha. exact Hs. }
      specialize (Hsub _ _ Hb Hs). cbn [free_of] in Hsub.
      apply andb_true_iff in Hsub as [_ Hsub]. exact Hsub. }
  cbv zeta.
  destruct (name_len <=? 0) eqn:E0; [apply Z.leb_le in E0; lia|].
  eexists. split; [reflexivity|]. split.
  + pose proof (strlen_nonneg base) as Hnn.
    destruct ((5 <? strlen base) && _) eqn:E5.
    * apply andb_true_iff in E5 as [E5 _]. apply Z.ltb_lt in E5.
      destruct (name_len <=? strlen base - 5) eqn:E1;
        [apply Z.leb_le in E1 | apply Z.leb_gt in E1]; rewrite str_take_length by lia; lia.
    * destruct (name_len <=? strlen base) eqn:E1;
        [apply Z.leb_le in E1 | apply Z.leb_gt in E1]; rewrite str_take_length by lia; lia.
  + unfold str_take. apply free_of_take, Hbase.
Qed.

(** Property X16. The name of a model is the file name without its directories and
    without the extension [.gguf]: the path [dir/base.gguf] gives [base]
    when [base] fits into the buffer; and for every path the name is
    shorter than the buffer and holds no slash. *)
Theorem extract_model_name_base :
  (forall dir base name_len,
      free_of "/" base = true -> base <> EmptyString -> strlen base < name_len ->
      extract_model_name (dir +:+ "/" +:+ base +:+ ".gguf") name_len = Some base) /\
  (forall path name_len,
      0 < name_len ->
      exists nm, extract_model_name path name_len = Some nm /\
                 strlen nm < name_len /\ free_of "/" nm = true).
Proof.
  split.
  - intros dir base name_len Hfree Hne Hfit. unfold extract_model_name.
    change ("/" +:+ base +:+ ".gguf") with (String "/" (base +:+ ".gguf")).
    rewrite strrchr_last by (rewrite free_of_app, Hfree; reflexivity).
    rewrite ptr_add_1. cbv zeta.
    rewrite strlen_app. change (strlen ".gguf") with 5.
    assert (0 < strlen base) as Hpos
      by (destruct base; [congruence | unfold strlen; simpl; lia]).
    destruct (5 <? strlen base + 5) eqn:E; [|apply Z.ltb_ge in E; lia].
    replace (Z.to_nat (strlen base + 5 - 5)) with (String.length base)
      by (unfold strlen; lia).
    rewrite ptr_add_app. cbn [andb]. rewrite String.eqb_refl.
    destruct (name_len <=? 0) eqn:E0; [apply Z.leb_le in E0; lia|].
    replace (strlen base + 5 - 5) with (strlen base) by lia.
    destruct (name_len <=? strlen base) eqn:E1; [apply Z.leb_le in E1; lia|].
    f_equal. unfold str_take, strlen. rewrite Nat2Z.id. apply copy_app.
  - intros path name_len Hpos. apply extract_model_name_total, Hpos.
Qed.

Lemma extract_model_name_base_witness :
  extract_model_name ("models/bitnet" +:+ "/" +:+ "ggml-model-i2_s" +:+ ".gguf") 128
  = Some "ggml-model-i2_s"%string.
Proof.
  apply (proj1 extract_model_name_base "models/bitnet" "ggml-model-i2_s" 128);
    [reflexivity | discriminate | vm_compute; reflexivity].
Defined.

End NameFacts.

Module SelectFacts.
Import HwDetect ModelSelect ModelScan ModelScanSpec.

Lemma select_from_spec es : forall n i,
  (i + n <= length es)%nat ->
  match select_from es i n with
  | Some (Some k) =>
      (i <= k < i + n)%nat /\
      (exists e, es !! k = Some e /\ eligible e = true) /\
      (forall j e, (i <= j < k)%nat -> es !! j = Some e -> eligible e = false)
  | Some None =>
      forall j e, (i <= j < i + n)%nat -> es !! j = Some e -> eligible e = false
  | None => False
  end.
Proof.
  induction n as [|n IH]; intros i Hlen; cbn [select_from].
  - intros j e Hj. lia.
  - destruct (lookup_lt_is_Some_2 es i ltac:(lia)) as [e He]. rewrite He.
    cbn [mbind option_bind].
    destruct (fits_in_ram e && fgt (score e) fzero) eqn:Hel.
    + split; [lia|]. split; [exists e; auto|]. intros j e' Hj. lia.
    + specialize (IH (S i) ltac:(lia)).
      destruct (select_from es (S i) n) as [[k|]|]; [| |exact IH].
      * destruct IH as (Hk & Hex & Hbefore). split; [lia|]. split; [exact Hex|].
        intros j e' Hj Hj'. destruct (decide (j = i)) as [->|Hne].
        -- rewrite He in Hj'. injection Hj' as <-. exact Hel.
        -- apply (Hbefore j e'); [lia | exact Hj'].
      * intros j e' Hj Hj'. destruct (decide (j = i)) as [->|Hne].
        -- rewrite He in Hj'. injection Hj' as <-. exact Hel.
        -- apply (IH j e'); [lia | exact Hj'].
Qed.

Lemma SFltb_irrefl x : SFltb x x = false.
Proof.
  unfold SFltb. destruct x as [s|s| |s m e]; try reflexivity; try (destruct s; reflexivity).
  cbn [SFcompare]. destruct s; rewrite Z.compare_refl.
  - rewrite Pos.compare_cont_refl. reflexivity.
  - rewrite Pos.compare_cont_refl. reflexivity.
Qed.

(** Property X17. [neuronos_model_select_best] returns NULL for a NULL or empty
    array; otherwise it returns the first of the [count] entries that
    fits in RAM and has a positive score, and NULL when there is none.
    On an array in the order that [compare_models_desc] asks of [qsort],
    no entry that fits and has a positive score has a greater score than
    the entry returned. *)
Theorem select_best_first_fit (es : list model_entry) (count : Z) :
  neuronos_model_select_best None count = Some None /\
  neuronos_model_select_best (Some es) 0 = Some None /\
  (0 <= count <= Z.of_nat (length es) ->
   match neuronos_model_select_best (Some es) count with
   | Some (Some k) =>
       Z.of_nat k < count /\
       (exists e, es !! k = Some e /\ eligible e = true /\
          ((forall i j ei ej, (i < j)%nat -> Z.of_nat j < count ->
                              es !! i = Some ei -> es !! j = Some ej ->
                              compare_models_desc ei ej <= 0) ->
           forall j e', Z.of_nat j < count -> es !! j = Some e' -> eligible e' = true ->
                        fgt (score e') (score e) = false)) /\
       (forall j e, (j < k)%nat -> es !! j = Some e -> eligible e = false)
   | Some None =>
       forall j e, Z.of_nat j < count -> es !! j = Some e -> eligible e = false
   | None => False
   end).
Proof.
  split; [reflexivity|]. split; [reflexivity|]. intros Hcount.
  unfold neuronos_model_select_best.
  destruct (count =? 0) eqn:Hz.
  { apply Z.eqb_eq in Hz. intros j e Hj. lia. }
  pose proof (select_from_spec es (Z.to_nat count) 0 ltac:(lia)) as Hspec.
  destruct (select_from es 0 (Z.to_nat count)) as [[k|]|]; [| |exact Hspec].
  - destruct Hspec as (Hk & (e & He & Hel) & Hbefore). split; [lia|]. split.
    + exists e. split; [exact He|]. split; [exact Hel|].
      intros Hsorted j e' Hj He' Hel'.
      destruct (Nat.lt_trichotomy j k) as [Hlt | [-> | Hgt]].
      * rewrite (Hbefore j e' ltac:(lia) He') in Hel'. discriminate.
      * rewrite He in He'. injection He' as <-. apply SFltb_irrefl.
      * specialize (Hsorted k j e e' Hgt Hj He He'). unfold compare_models_desc in Hsorted.
        destruct (fgt (score e') (score e)); [lia | reflexivity].
    + intros j e' Hj. apply Hbefore. lia.
  - intros j e Hj. apply Hspec. lia.
Qed.

Lemma select_best_first_fit_witness :
  match neuronos_model_select_best (Some sample_entries) 4 with
  | Some (Some k) =>
      Z.of_nat k < 4 /\
      (exists e, sample_entries !! k = Some e /\ eligible e = true /\
         ((forall i j ei ej, (i < j)%nat -> Z.of_nat j < 4 ->
                             sample_entries !! i = Some ei -> sample_entries !! j = Some ej ->
                             compare_models_desc ei ej <= 0) ->
          forall j e', Z.of_nat j < 4 -> sample_entries !! j = Some e' -> eligible e' = true ->
                       fgt (score e') (score e) = false)) /\
      (forall j e, (j < k)%nat -> sample_entries !! j = Some e -> eligible e = false)
  | Some None =>
      forall j e, Z.of_nat j < 4 -> sample_entries !! j = Some e -> eligible e = false
  | None => False
  end.
Proof.
  apply (proj2 (proj2 (select_best_first_fit sample_entries 4))).
  simpl. lia.
Defined.

(** The entry that does not fit is passed over although it comes first. *)
Example select_best_sample :
  neuronos_model_select_best (Some sample_entries) 4 = Some (Some 1%nat).
Proof. vm_compute. reflexivity. Qed.

End SelectFacts.

Module ScanFacts.
Import HwDetect ModelSelect ModelScan ModelScanSpec ScoreSpec.

Lemma estimate_ram_exact size :
  0 <= size <= 3000000000000 ->
  estimate_ram_needed size = size + size * 30 / 100 + 100.
Proof.
  intros Hs. unfold estimate_ram_needed.
  assert (0 <= size * 30 / 100 <= size) as Hq.
  { split; [apply Z.div_pos; lia|]. apply Z.div_le_upper_bound; lia. }
  rewrite (wrap64_id (size * 30)) by (unfold in_int64, INT64_MIN, INT64_MAX; lia).
  rewrite Z.quot_div_nonneg by lia.
  rewrite (wrap64_id (size + size * 30 / 100))
    by (unfold in_int64, INT64_MIN, INT64_MAX; lia).
  rewrite wrap64_id by (unfold in_int64, INT64_MIN, INT64_MAX; lia).
  reflexivity.
Qed.

Lemma estimate_params_exact size :
  0 <= size <= 3000000000000 ->
  estimate_params size = size * 1048576 / 35 * 100.
Proof.
  intros Hs. unfold estimate_params.
  rewrite (wrap64_id (size * 1024)) by (unfold in_int64, INT64_MIN, INT64_MAX; lia).
  rewrite (wrap64_id (size * 1024 * 1024)) by (unfold in_int64, INT64_MIN, INT64_MAX; lia).
  rewrite Z.quot_div_nonneg by lia.
  replace (size * 1024 * 1024) with (size * 1048576) by lia.
  assert (0 <= size * 1048576 / 35 <= size * 29960) as Hq.
  { split; [apply Z.div_pos; lia|]. apply Z.div_le_upper_bound; lia. }
  rewrite wrap64_id by (unfold in_int64, INT64_MIN, INT64_MAX; lia).
  reflexivity.
Qed.

Lemma tier_of_size size :
  0 <= size -> quality_tier (size * 1048576 / 35 * 100) = tier_by_size size.
Proof.
  intros Hs. unfold quality_tier, tier_by_size.
  pose proof (Z.div_mod (size * 1048576) 35 ltac:(lia)) as Hdm.
  pose proof (Z.mod_pos_bound (size * 1048576) 35 ltac:(lia)) as Hr.
  set (qv := size * 1048576 / 35) in *. set (rv := (size * 1048576) mod 35) in *.
  repeat match goal with
         | |- context [?a <? ?b] =>
             let E := fresh "E" in
             destruct (a <? b) eqn:E; [apply Z.ltb_lt in E | apply Z.ltb_ge in E]
         end; try reflexivity; exfalso; lia.
Qed.

Section Entry.
Variables path_size name_size : Z.

(** Property X18. The entry that the scanner makes for a model file: the name is
    the one [extract_model_name] gives, the size is in whole MB, the RAM
    estimate is the size plus 30 percent plus 100 MB, the entry fits when
    that estimate is at most the budget, the score is the one of
    [score_model], and the quality tier of that score follows the size of
    the file: below 334 MB the lowest tier, from 334, 668, 1336 and 2671
    MB on the next ones. *)
Theorem scan_entry_fields (hw : hw_info) (full_path : string) (st : option Z) :
  0 < name_size -> 0 <= file_size_mb_of st <= 3000000000000 ->
  exists e,
    scan_entry path_size name_size hw full_path st = Some e /\
    extract_model_name full_path name_size = Some (name e) /\
    file_size_mb e = file_size_mb_of st /\
    est_ram_mb e = file_size_mb e + file_size_mb e * 30 / 100 + 100 /\
    fits_in_ram e = (est_ram_mb e <=? model_budget_mb hw) /\
    quality_tier (n_params_est e) = tier_by_size (file_size_mb e) /\
    score e = score_model e hw.
Proof.
  intros Hname Hsize. unfold scan_entry.
  destruct (NameFacts.extract_model_name_total full_path name_size Hname)
    as (nm & Hnm & _).
  rewrite Hnm. cbn [mbind option_bind]. eexists. split; [reflexivity|].
  cbn [name file_size_mb est_ram_mb fits_in_ram n_params_est score path].
  split; [reflexivity|]. split; [reflexivity|].
  split; [apply estimate_ram_exact, Hsize|]. split; [reflexivity|].
  split; [|reflexivity].
  rewrite estimate_params_exact by exact Hsize. apply tier_of_size. lia.
Qed.

End Entry.

Lemma scan_entry_fields_witness :
  exists e,
    scan_entry 512 128 hw_200 "models/m.gguf" (Some 1048576000) = Some e /\
    extract_model_name "models/m.gguf" 128 = Some (name e) /\
    file_size_mb e = file_size_mb_of (Some 1048576000) /\
    est_ram_mb e = file_size_mb e + file_size_mb e * 30 / 100 + 100 /\
    fits_in_ram e = (est_ram_mb e <=? model_budget_mb hw_200) /\
    quality_tier (n_params_est e) = tier_by_size (file_size_mb e) /\
    score e = score_model e hw_200.
Proof.
  apply (scan_entry_fields 512 128 hw_200 "models/m.gguf" (Some 1048576000)).
  - lia.
  - vm_compute. split; discriminate.
Defined.

End ScanFacts.

(** ** The sign of a score *)

Module RoundFacts.
Import FloatFacts.

Lemma digits2_pos_upper p : Z.pos p < 2 ^ Z.pos (digits2_pos p).
Proof.
  induction p as [p IH|p IH|]; cbn [digits2_pos]; [| |reflexivity].
  - rewrite Pos2Z.inj_succ, Z.pow_succ_r by lia. lia.
  - rewrite Pos2Z.inj_succ, Z.pow_succ_r by lia. lia.
Qed.

Lemma Zdigits2_nonneg m : 0 <= Zdigits2 m.
Proof. destruct m; cbn [Zdigits2]; lia. Qed.

Lemma Zdigits2_upper m : 0 <= m -> m < 2 ^ Zdigits2 m.
Proof.
  intros Hm. destruct m as [|p|p]; [reflexivity | apply digits2_pos_upper | lia].
Qed.

Lemma Zdigits2_le m k : 0 <= m < 2 ^ k -> 0 <= k -> Zdigits2 m <= k.
Proof.
  intros [Hm Hlt] Hk. destruct m as [|p|p]; [exact Hk| |lia]. cbn [Zdigits2].
  pose proof (digits2_pos_bound p) as Hb.
  assert (2 ^ (Z.pos (digits2_pos p) - 1) < 2 ^ k) as Hpow by lia.
  apply Z.pow_lt_mono_r_iff in Hpow; lia.
Qed.

Lemma round_nearest_even_le m l : round_nearest_even m l <= m + 1.
Proof. destruct l as [|[]]; cbn [round_nearest_even]; [lia| |lia|lia]. destruct (Z.even m); lia. Qed.

Section Format.
Variables prec emax : Z.
Hypothesis prec_pos : 0 < prec.

(** What the shift to the exponent of the format does to a mantissa that
    is not negative. *)
Lemma shr_fexp_bounds m e l :
  0 <= m ->
  0 <= shr_m (fst (shr_fexp prec emax m e l)) /\
  emin prec emax <= snd (shr_fexp prec emax m e l) /\
  snd (shr_fexp prec emax m e l) <= Z.max e (fexp prec emax (Zdigits2 m + e)) /\
  Zdigits2 (shr_m (fst (shr_fexp prec emax m e l))) + snd (shr_fexp prec emax m e l)
  <= Z.max (snd (shr_fexp prec emax m e l)) (Zdigits2 m + e).
Proof.
  intros Hm. unfold shr_fexp, shr.
  pose proof (Zdigits2_nonneg m) as Hd.
  destruct (fexp prec emax (Zdigits2 m + e) - e) as [|q|q] eqn:Hn; cbn [fst snd].
  - rewrite shr_record_of_loc_m. unfold fexp in *. lia.
  - rewrite iter_shr_1_div by (rewrite shr_record_of_loc_m; lia).
    rewrite shr_record_of_loc_m.
    assert (0 <= m / 2 ^ Z.pos q) as Hq by (apply Z.div_pos; [lia | apply Z.pow_pos_nonneg; lia]).
    split; [exact Hq|]. split; [unfold fexp in *; lia|]. split; [lia|].
    destruct (Z.eq_dec (m / 2 ^ Z.pos q) 0) as [-> | Hnz]; [cbn [Zdigits2]; lia|].
    assert (2 ^ Z.pos q <= m) as Hge.
    { destruct (Z.lt_ge_cases m (2 ^ Z.pos q)) as [Hlt|]; [|assumption].
      rewrite Z.div_small in Hnz by lia. congruence. }
    pose proof (Zdigits2_upper m Hm) as Hup.
    assert (Z.pos q < Zdigits2 m) as Hqd.
    { assert (2 ^ Z.pos q < 2 ^ Zdigits2 m) as Hpow by lia.
      apply Z.pow_lt_mono_r_iff in Hpow; lia. }
    assert (Zdigits2 (m / 2 ^ Z.pos q) <= Zdigits2 m - Z.pos q); [|lia].
    apply Zdigits2_le; [|lia]. split; [exact Hq|].
    apply Z.div_lt_upper_bound; [apply Z.pow_pos_nonneg; lia|].
    rewrite <- Z.pow_add_r by lia. replace (Z.pos q + (Zdigits2 m - Z.pos q)) with (Zdigits2 m) by lia.
    exact Hup.
  - rewrite shr_record_of_loc_m. unfold fexp in *. lia.
Qed.

(** Rounding a value that is not negative gives a zero, a finite number
    with an exponent of the format, or an infinity, of the given sign. *)
Lemma binary_round_aux_nonneg s m e l :
  0 <= m ->
  match binary_round_aux prec emax s m e l with
  | S754_zero s' | S754_infinity s' => s' = s
  | S754_finite s' _ e' => s' = s /\ emin prec emax <= e'
  | S754_nan => False
  end.
Proof.
  intros Hm. unfold binary_round_aux.
  pose proof (shr_fexp_bounds m e l Hm) as (H1 & _).
  destruct (shr_fexp prec emax m e l) as [mrs' e']. cbn [fst snd] in H1.
  pose proof (round_nearest_even_ge (shr_m mrs') (loc_of_shr_record mrs')) as Hr.
  pose proof (shr_fexp_bounds (round_nearest_even (shr_m mrs') (loc_of_shr_record mrs'))
                e' loc_Exact ltac:(lia)) as (H2 & H2e & _).
  destruct (shr_fexp prec emax (round_nearest_even (shr_m mrs') (loc_of_shr_record mrs'))
              e' loc_Exact) as [mrs'' e'']. cbn [fst snd] in H2, H2e.
  destruct (shr_m mrs'') as [|m3|m3]; [reflexivity| |lia].
  destruct (e'' <=? emax - prec); [split; [reflexivity | exact H2e] | reflexivity].
Qed.

(** Rounding a positive value of magnitude below [2 ^ K], [K] in the
    range of the format, gives a finite number. *)
Lemma binary_round_aux_finite s m e l K :
  0 < m -> emin prec emax <= e ->
  Zdigits2 m + e <= K -> e <= K + 1 - prec -> K + 1 <= emax ->
  emin prec emax <= K + 1 - prec ->
  exists m' e', binary_round_aux prec emax s m e l = S754_finite s m' e' /\
                emin prec emax <= e'.
Proof.
  intros Hm He Hmag HeK HK Hmin. unfold binary_round_aux.
  pose proof (shr_fexp_pos prec emax prec_pos m e l He Hm) as [P1 _].
  pose proof (shr_fexp_bounds m e l ltac:(lia)) as (_ & E1 & B1 & D1).
  destruct (shr_fexp prec emax m e l) as [mrs' e']. cbn [fst snd] in P1, E1, B1, D1.
  set (mr := round_nearest_even (shr_m mrs') (loc_of_shr_record mrs')).
  pose proof (round_nearest_even_ge (shr_m mrs') (loc_of_shr_record mrs')) as Hge.
  pose proof (round_nearest_even_le (shr_m mrs') (loc_of_shr_record mrs')) as Hle.
  fold mr in Hge, Hle.
  assert (Zdigits2 mr <= Zdigits2 (shr_m mrs') + 1) as Dr.
  { pose proof (Zdigits2_upper (shr_m mrs') ltac:(lia)) as Hup.
    pose proof (Zdigits2_nonneg (shr_m mrs')).
    apply Zdigits2_le; [|lia]. split; [lia|].
    rewrite Z.pow_add_r by lia. change (2 ^ 1) with 2. lia. }
  pose proof (shr_fexp_pos prec emax prec_pos mr e' loc_Exact E1 ltac:(lia)) as [P2 E2].
  pose proof (shr_fexp_bounds mr e' loc_Exact ltac:(lia)) as (_ & _ & B2 & _).
  destruct (shr_fexp prec emax mr e' loc_Exact) as [mrs'' e'']. cbn [fst snd] in P2, E2, B2.
  destruct (shr_m mrs'') as [|m3|m3]; [lia| |lia].
  assert (e'' <= emax - prec) as Hfin by (unfold fexp in *; lia).
  destruct (e'' <=? emax - prec) eqn:E; [|apply Z.leb_gt in E; lia].
  exists m3, e''. split; [reflexivity | exact E2].
Qed.

End Format.

End RoundFacts.

Module ScoreSign.
Import HwDetect ModelSelect ModelScan ModelScanSpec ScoreSpec.
Import FloatFacts ConvertFacts RoundFacts.

Lemma positive_f32b_ok x : positive_f32b x = true -> positive_f32 x.
Proof.
  destruct x as [s|s| |s m e]; try discriminate; destruct s; try discriminate; cbn.
  - intros _. exact I.
  - intros H. apply Z.leb_le, H.
Qed.

Lemma positive_nonneg x : positive_f32 x -> nonneg_f32 x.
Proof. destruct x as [[]|[]| |[] m e]; cbn; tauto. Qed.

Lemma fgt_positive x : positive_f32 x -> fgt x fzero = true.
Proof. destruct x as [[]|[]| |[] m e]; cbn; try tauto; reflexivity. Qed.

(** [(float) z] for a positive [int64_t] [z] is a positive finite number. *)
Lemma f32_of_Z_finite z :
  0 < z < 2 ^ 63 -> exists m e, f32_of_Z z = S754_finite false m e /\ -149 <= e.
Proof.
  intros Hz. destruct z as [|p|p]; [lia| |lia].
  unfold f32_of_Z, binary_normalize, binary_round, shl_align.
  pose proof (Zdigits2_le (Z.pos p) 63 ltac:(lia) ltac:(lia)) as Hd. cbn [Zdigits2] in Hd.
  assert (fexp 24 128 (Z.pos (digits2_pos p) + 0) = Z.pos (digits2_pos p) - 24) as ->
    by (unfold fexp, emin; lia).
  destruct (Z.pos (digits2_pos p) - 24 - 0) as [|q|q] eqn:Hq.
  - apply (binary_round_aux_finite 24 128 ltac:(lia) false (Z.pos p) 0 loc_Exact 63);
      cbn [Zdigits2]; unfold emin; lia.
  - apply (binary_round_aux_finite 24 128 ltac:(lia) false (Z.pos p) 0 loc_Exact 63);
      cbn [Zdigits2]; unfold emin; lia.
  - apply (binary_round_aux_finite 24 128 ltac:(lia) false _ _ loc_Exact 63);
      cbn [Zdigits2]; try rewrite digits2_pos_shift; unfold emin; lia.
Qed.

Lemma f32_of_Z_nonneg z :
  0 <= z < 2 ^ 63 -> nonneg_f32 (f32_of_Z z) /\ f32_of_Z z <> S754_infinity false.
Proof.
  intros Hz. destruct (Z.eq_dec z 0) as [->|Hnz]; [split; [exact I | discriminate]|].
  destruct (f32_of_Z_finite z ltac:(lia)) as (m & e & -> & He).
  split; [exact He | discriminate].
Qed.

Lemma div_eucl_nonneg a b : 0 <= a -> 0 < b -> 0 <= fst (Z.div_eucl a b).
Proof. intros Ha Hb. change (fst (Z.div_eucl a b)) with (a / b). apply Z.div_pos; lia. Qed.

(** The quotient of a finite number that is not negative by a positive
    finite number is not negative. *)
Lemma f32_div_nonneg x my ey :
  nonneg_f32 x -> x <> S754_infinity false ->
  nonneg_f32 (f32_div x (S754_finite false my ey)).
Proof.
  intros Hx Hfin. destruct x as [s|s| |s mx ex].
  - destruct s; [exfalso; exact Hx | exact I].
  - destruct s; [exfalso; exact Hx | congruence].
  - exfalso; exact Hx.
  - destruct s; [exfalso; exact Hx|]. unfold f32_div, SFdiv.
    destruct (SFdiv_core_binary 24 128 (Z.pos mx) ex (Z.pos my) ey) as [[mz ez] lz] eqn:Hcore.
    assert (0 <= mz) as Hmz.
    { unfold SFdiv_core_binary in Hcore. cbv zeta in Hcore.
      match type of Hcore with
      | (let '(q, r) := Z.div_eucl ?a ?b in _) = _ =>
          pose proof (div_eucl_nonneg a b) as Hq; destruct (Z.div_eucl a b) as [qv rv]
      end.
      injection Hcore as <- _ _. cbn [fst] in Hq. apply Hq; [|lia].
      match goal with
      | |- 0 <= match ?sv with Z0 => _ | Zpos _ => _ | Zneg _ => _ end =>
          destruct sv; [lia | apply Z.shiftl_nonneg; lia | lia]
      end. }
    pose proof (binary_round_aux_nonneg 24 128 ltac:(lia) false mz ez lz Hmz) as Hr.
    cbn [xorb]. destruct (binary_round_aux 24 128 false mz ez lz) as [s|s| |s m e];
      [subst s; exact I | subst s; exact I | contradiction |].
    destruct Hr as [-> He]. exact He.
Qed.

(** The product of a number that is not negative with a positive finite
    number is not negative. *)
Lemma f32_mul_nonneg x mc ec :
  nonneg_f32 x -> nonneg_f32 (f32_mul x (S754_finite false mc ec)).
Proof.
  intros Hx. destruct x as [s|s| |s mx ex].
  1: destruct s; [exfalso; exact Hx | exact I].
  1: destruct s; [exfalso; exact Hx | exact I].
  1: exfalso; exact Hx.
  destruct s; [exfalso; exact Hx|].
  unfold f32_mul, SFmul. cbn [xorb].
  pose proof (binary_round_aux_nonneg 24 128 ltac:(lia) false (Z.pos (mx * mc)) (ex + ec) loc_Exact
                ltac:(lia)) as Hr.
  destruct (binary_round_aux 24 128 false (Z.pos (mx * mc)) (ex + ec) loc_Exact) as [s|s| |s m e];
    [subst s; exact I | subst s; exact I | contradiction |].
  destruct Hr as [-> He]. exact He.
Qed.

(** The sum of a positive number and a number that is not negative is
    positive. *)
Lemma f32_add_positive x y :
  positive_f32 x -> nonneg_f32 y -> positive_f32 (f32_add x y).
Proof.
  intros Hx Hy.
  destruct x as [sx|sx| |sx mx ex]; [exfalso; exact Hx | | exfalso; exact Hx |].
  { destruct sx; [exfalso; exact Hx|].
    destruct y as [sy|sy| |sy my ey]; [| |exfalso; exact Hy|];
      (destruct sy; [exfalso; exact Hy | exact I]). }
  destruct sx; [exfalso; exact Hx|].
  destruct y as [sy|sy| |sy my ey]; [| |exfalso; exact Hy|].
  { destruct sy; [exfalso; exact Hy | exact Hx]. }
  { destruct sy; [exfalso; exact Hy | exact I]. }
  destruct sy; [exfalso; exact Hy|].
  change (-149 <= ex) in Hx. change (-149 <= ey) in Hy.
  unfold f32_add, SFadd. cbv zeta. cbn [cond_Zopp].
  set (ez := Z.min ex ey). assert (-149 <= ez) as Hmin by (unfold ez; lia).
  set (a := fst (shl_align mx ex ez)). set (b := fst (shl_align my ey ez)).
  change (Z.pos a + Z.pos b) with (Z.pos (a + b)).
  unfold binary_normalize, binary_round.
  destruct (shl_align (a + b) ez (fexp 24 128 (Z.pos (digits2_pos (a + b)) + ez)))
    as [mz ez'] eqn:Hal.
  assert (-149 <= ez') as Hez.
  { unfold shl_align in Hal.
    destruct (fexp 24 128 (Z.pos (digits2_pos (a + b)) + ez) - ez) eqn:Hd;
      injection Hal as <- <-; unfold fexp, emin in *; lia. }
  pose proof (binary_round_aux_nonneg 24 128 ltac:(lia) false (Z.pos mz) ez' loc_Exact ltac:(lia)) as Hr.
  destruct (binary_round_aux_sign 24 128 ltac:(lia) false mz ez' loc_Exact
              ltac:(unfold emin; lia)) as [(m' & e' & Hfin) | Hinf].
  - rewrite Hfin in *. destruct Hr as [_ He]. exact He.
  - rewrite Hinf. exact I.
Qed.

Lemma f32_of_Z_positive z : 0 < z < 2 ^ 63 -> positive_f32 (f32_of_Z z).
Proof. intros Hz. destruct (f32_of_Z_finite z Hz) as (m & e & -> & He). exact He. Qed.

(** The score of an entry that fits is positive. *)
Lemma score_model_positive (e : model_entry) (hw : hw_info) :
  est_ram_mb e <= model_budget_mb hw -> 0 < est_ram_mb e -> model_budget_mb hw < 2 ^ 63 ->
  positive_f32 (score_model e hw).
Proof.
  intros Hfit Hest Hbud. unfold score_model. cbv zeta.
  destruct (model_budget_mb hw <? est_ram_mb e) eqn:E; [apply Z.ltb_lt in E; lia|]. clear E.
  rewrite wrap64_id by (unfold in_int64, INT64_MIN, INT64_MAX; lia).
  assert (forall x c, positive_f32 x -> positive_f32 (f32_add x (f32_of_Z c)) ->
                      forall b : bool, positive_f32 (if b then f32_add x (f32_of_Z c) else x))
    as Hbonus by (intros x c Hx Hxc b; destruct b; assumption).
  assert (forall x c, 0 < c < 2 ^ 63 -> positive_f32 x -> positive_f32 (f32_add x (f32_of_Z c)))
    as Hadd by (intros x c Hc Hx; apply f32_add_positive;
                [exact Hx | apply positive_nonneg, f32_of_Z_positive, Hc]).
  apply Hbonus; [|apply Hadd; [lia|]]; (apply Hbonus; [|apply Hadd; [lia|]]);
    (apply f32_add_positive;
     [ repeat match goal with
              | |- positive_f32 (if ?c then _ else _) => destruct c
              end; apply positive_f32b_ok; vm_compute; reflexivity
     | destruct (f32_of_Z_finite 50 ltac:(lia)) as (m50 & e50 & -> & _);
       apply f32_mul_nonneg;
       destruct (f32_of_Z_finite (model_budget_mb hw) ltac:(lia)) as (mb & eb & -> & _);
       apply f32_div_nonneg; apply f32_of_Z_nonneg; lia ]).
Qed.

Section Entry.
Variables path_size name_size : Z.

(** Score and fit of an entry that the scanner made. *)
Lemma scan_entry_score (hw : hw_info) (full_path : string) (st : option Z) (e : model_entry) :
  scan_entry path_size name_size hw full_path st = Some e ->
  0 <= file_size_mb_of st <= 3000000000000 -> model_budget_mb hw < 2 ^ 63 ->
  eligible e = fits_in_ram e /\
  (fits_in_ram e = true -> positive_f32 (score e)) /\
  (fits_in_ram e = false -> score e = f32_of_Z (-1)).
Proof.
  intros Hscan Hsize Hbud. unfold scan_entry in Hscan.
  destruct (extract_model_name full_path name_size) as [nm|]; [|discriminate].
  cbn [mbind option_bind] in Hscan. injection Hscan as <-.
  cbn [file_size_mb est_ram_mb fits_in_ram score n_params_est name path].
  rewrite ScanFacts.estimate_ram_exact by exact Hsize.
  set (est := file_size_mb_of st + file_size_mb_of st * 30 / 100 + 100).
  assert (0 < est) as Hpos
    by (unfold est; assert (0 <= file_size_mb_of st * 30 / 100) by (apply Z.div_pos; lia); lia).
  match goal with
  | |- context [score_model ?e0 hw] => set (e := e0)
  end.
  assert (est_ram_mb e = est) as Hest by reflexivity.
  assert ((est <=? model_budget_mb hw) = true -> positive_f32 (score_model e hw)) as Hyes.
  { intros Hf. apply Z.leb_le in Hf. apply score_model_positive; rewrite ?Hest; assumption. }
  assert ((est <=? model_budget_mb hw) = false -> score_model e hw = f32_of_Z (-1)) as Hno.
  { intros Hf. apply Z.leb_gt in Hf. unfold score_model. cbv zeta. rewrite Hest.
    destruct (model_budget_mb hw <? est) eqn:E; [reflexivity|].
    apply Z.ltb_ge in E. lia. }
  split; [|split; [exact Hyes | exact Hno]].
  unfold eligible. cbn [fits_in_ram score].
  destruct (est <=? model_budget_mb hw) eqn:Hf; [|reflexivity].
  cbn [andb]. apply fgt_positive, Hyes. reflexivity.
Qed.

(** Property X19. For the entries that the scanner makes, fitting in RAM and being
    eligible for selection are the same: the score of an entry that fits
    the budget is positive (1000 and more, never a NaN), the score of an
    entry that does not fit is -1. [neuronos_model_select_best] therefore
    returns the first scanned entry that fits. *)
Theorem scanned_entry_eligible_iff_fits
  (hw : hw_info) (full_path : string) (st : option Z) :
  0 < name_size -> 0 <= file_size_mb_of st <= 3000000000000 ->
  model_budget_mb hw < 2 ^ 63 ->
  exists e,
    scan_entry path_size name_size hw full_path st = Some e /\
    eligible e = fits_in_ram e /\
    (fits_in_ram e = true -> positive_f32 (score e)) /\
    (fits_in_ram e = false -> score e = f32_of_Z (-1)).
Proof.
  intros Hname Hsize Hbud.
  destruct (scan_entry path_size name_size hw full_path st) as [e|] eqn:Hscan.
  - exists e. split; [reflexivity|]. apply (scan_entry_score hw full_path st e Hscan Hsize Hbud).
  - exfalso. unfold scan_entry in Hscan.
    destruct (NameFacts.extract_model_name_total full_path name_size Hname) as (nm & Hnm & _).
    rewrite Hnm in Hscan. discriminate.
Qed.

End Entry.

Lemma scanned_entry_eligible_iff_fits_witness :
  exists e,
    scan_entry 512 128 hw_200 "models/m.gguf" (Some 1048576000) = Some e /\
    eligible e = fits_in_ram e /\
    (fits_in_ram e = true -> positive_f32 (score e)) /\
    (fits_in_ram e = false -> score e = f32_of_Z (-1)).
Proof.
  apply (scanned_entry_eligible_iff_fits 512 128 hw_200 "models/m.gguf" (Some 1048576000)).
  - lia.
  - vm_compute. split; discriminate.
  - vm_compute. reflexivity.
Defined.

End ScoreSign.

(** ** The directory walk *)

Module WalkFacts.
Import HwDetect ModelSelect ModelScan DirScan DirScanSpec.

(** Induction over a tree of files: a directory has the property as soon
    as the nodes of its listing have it. *)
Lemma fs_node_induction (P : fs_node -> Prop) :
  P FsNoStat -> P FsOther -> (forall sz, P (FsReg sz)) -> P (FsDir None) ->
  (forall l, Forall (fun p => P (snd p)) l -> P (FsDir (Some l))) ->
  forall n, P n.
Proof.
  intros H1 H2 H3 H4 H5. fix IH 1.
  intros [| |sz|[l|]]; [exact H1 | exact H2 | apply H3 | | exact H4].
  apply H5. induction l as [|[nm c] l IHl]; constructor; [apply IH | exact IHl].
Qed.

Lemma walk_result_nil pre rest : walk_result pre rest [] = Some (pre ++ rest, Z.of_nat (length pre)).
Proof. unfold walk_result. cbn [app length drop]. rewrite Nat.add_0_r. reflexivity. Qed.

Lemma walk_result_cons pre r0 rest x new :
  walk_result (pre ++ [x]) rest new = walk_result pre (r0 :: rest) (x :: new).
Proof.
  unfold walk_result. cbn [length drop]. rewrite <- !app_assoc, length_app. cbn [app length].
  f_equal. f_equal. lia.
Qed.

Lemma walk_result_app pre rest n1 n2 :
  walk_result (pre ++ n1) (drop (length n1) rest) n2 = walk_result pre rest (n1 ++ n2).
Proof.
  unfold walk_result. rewrite drop_drop, <- !app_assoc, !length_app.
  f_equal. f_equal. lia.
Qed.

Section Walk.
Variables path_size name_size : Z.
Variable hw : hw_info.
Variable max_entries : Z.
Hypothesis name_pos : 0 < name_size.

Lemma scan_entry_defined full_path st :
  scan_entry path_size name_size hw full_path st
  = Some (entry_for path_size name_size hw (full_path, st)).
Proof.
  unfold entry_for. cbn [fst snd]. unfold scan_entry.
  destruct (NameFacts.extract_model_name_total full_path name_size name_pos) as (nm & -> & _).
  reflexivity.
Qed.

Lemma first_found_full pre found :
  max_entries <= Z.of_nat (length pre) -> first_found max_entries pre found = [].
Proof.
  intros H. unfold first_found.
  replace (Z.to_nat (max_entries - Z.of_nat (length pre))) with 0%nat by lia. reflexivity.
Qed.

Lemma first_found_cons pre x found :
  Z.of_nat (length pre) < max_entries ->
  first_found max_entries pre (x :: found) = x :: first_found max_entries (pre ++ [x]) found.
Proof.
  intros H. unfold first_found. rewrite length_app. cbn [length].
  replace (Z.to_nat (max_entries - Z.of_nat (length pre)))
    with (S (Z.to_nat (max_entries - Z.of_nat (length pre + 1)))) by lia.
  reflexivity.
Qed.

Lemma first_found_app pre f1 f2 :
  first_found max_entries pre (f1 ++ f2)
  = first_found max_entries pre f1
    ++ first_found max_entries (pre ++ first_found max_entries pre f1) f2.
Proof.
  unfold first_found. rewrite take_app. f_equal. f_equal.
  rewrite length_app, length_take. lia.
Qed.

Lemma first_found_length pre found :
  Z.of_nat (length (first_found max_entries pre found))
  <= Z.max 0 (max_entries - Z.of_nat (length pre)).
Proof. unfold first_found. rewrite length_take. lia. Qed.

(** The loop over a listing, given what the walk does below each of its
    nodes. *)
Lemma scan_loop_spec recurse below dir_path l :
  Forall (fun p =>
            forall path pre rest,
              max_entries <= Z.of_nat (length pre + length rest) ->
              recurse (snd p) path (pre ++ rest) (Z.of_nat (length pre))
              = walk_result pre rest
                  (first_found max_entries pre
                     (map (entry_for path_size name_size hw) (below (snd p) path)))) l ->
  forall pre rest,
    max_entries <= Z.of_nat (length pre + length rest) ->
    scan_loop path_size name_size hw max_entries recurse dir_path l
              (pre ++ rest) (Z.of_nat (length pre))
    = walk_result pre rest
        (first_found max_entries pre
           (map (entry_for path_size name_size hw) (gguf_listing below dir_path l))).
Proof.
  induction 1 as [|[d_name child] l Hchild _ IH]; intros pre rest Hroom.
  - cbn [scan_loop gguf_listing map]. unfold first_found. rewrite take_nil.
    symmetry. apply walk_result_nil.
  - cbn [scan_loop gguf_listing]. cbn [snd] in Hchild.
    destruct (max_entries <=? Z.of_nat (length pre)) eqn:Hfull.
    { apply Z.leb_le in Hfull. rewrite first_found_full by exact Hfull.
      symmetry. apply walk_result_nil. }
    apply Z.leb_gt in Hfull.
    destruct (starts_with_dot d_name); [apply IH, Hroom|].
    cbv zeta.
    destruct child as [| |st_size|listing]; try (apply IH, Hroom).
    + destruct (ends_with_gguf d_name); [|apply IH, Hroom].
      rewrite scan_entry_defined. cbn [mbind option_bind map].
      destruct rest as [|r0 rest]; [rewrite Nat.add_0_r in Hroom; lia|].
      rewrite write_in_range by (rewrite length_app; cbn [length]; lia).
      cbn [mbind option_bind]. rewrite Nat2Z.id.
      rewrite insert_app_r_alt by lia. rewrite Nat.sub_diag. cbn [insert list_insert].
      rewrite first_found_cons by exact Hfull.
      rewrite <- walk_result_cons.
      set (e := entry_for path_size name_size hw (join_path dir_path d_name, st_size)).
      replace (pre ++ e :: rest) with ((pre ++ [e]) ++ rest) by (rewrite <- app_assoc; reflexivity).
      replace (Z.of_nat (length pre) + 1) with (Z.of_nat (length (pre ++ [e])))
        by (rewrite length_app; cbn [length]; lia).
      apply IH. rewrite length_app. cbn [length] in *. lia.
    + rewrite (Hchild (join_path dir_path d_name) pre rest Hroom).
      rewrite map_app, first_found_app.
      set (n1 := first_found max_entries pre
                   (map (entry_for path_size name_size hw)
                        (below (FsDir listing) (join_path dir_path d_name)))).
      pose proof (first_found_length pre
                    (map (entry_for path_size name_size hw)
                         (below (FsDir listing) (join_path dir_path d_name)))) as Hlen.
      fold n1 in Hlen.
      unfold walk_result at 1. rewrite app_assoc, <- length_app.
      rewrite <- walk_result_app.
      apply IH. rewrite length_app, length_drop. lia.
Qed.

(** The walk below a node. *)
Lemma scan_dir_spec node : forall dir_path pre rest,
  max_entries <= Z.of_nat (length pre + length rest) ->
  scan_dir_recursive path_size name_size hw max_entries node dir_path
                     (pre ++ rest) (Z.of_nat (length pre))
  = walk_result pre rest
      (first_found max_entries pre
         (map (entry_for path_size name_size hw) (gguf_files node dir_path))).
Proof.
  induction node as [| |sz| |l IH] using fs_node_induction; intros dir_path pre rest Hroom;
    cbn [scan_dir_recursive gguf_files map];
    try (unfold first_found; rewrite take_nil; symmetry; apply walk_result_nil).
  apply scan_loop_spec; assumption.
Qed.

(** Property X20. The directory walk of the scanner, started with [pre] already in
    the array: it writes behind [pre] the entries of the model files
    below the directory (regular files named [*.gguf], names with a
    leading dot passed over, also directories), in the order in which
    the directories list them, and stops when [max_entries] entries are
    in the array. Nothing is written outside the array, the other
    elements stay as they were, and the count returned is the number of
    entries then in the array. *)
Theorem scan_dir_collects (node : fs_node) (dir_path : string)
  (pre rest : list model_entry) :
  max_entries <= Z.of_nat (length pre + length rest) ->
  exists new,
    new = first_found max_entries pre
            (map (entry_for path_size name_size hw) (gguf_files node dir_path)) /\
    scan_dir_recursive path_size name_size hw max_entries node dir_path
                       (pre ++ rest) (Z.of_nat (length pre))
    = Some (pre ++ new ++ drop (length new) rest, Z.of_nat (length pre + length new)) /\
    length (pre ++ new ++ drop (length new) rest) = length (pre ++ rest) /\
    Z.of_nat (length pre + length new) <= Z.max (Z.of_nat (length pre)) max_entries.
Proof.
  intros Hroom. eexists. split; [reflexivity|].
  split; [apply scan_dir_spec, Hroom|].
  pose proof (first_found_length pre
                (map (entry_for path_size name_size hw) (gguf_files node dir_path))) as Hlen.
  split; [|lia].
  rewrite !length_app, length_drop. lia.
Qed.

End Walk.

Lemma scan_dir_collects_witness :
  exists new,
    new = first_found 2 []
            (map (entry_for 512 128 ScoreSpec.hw_200) (gguf_files sample_tree "models")) /\
    scan_dir_recursive 512 128 ScoreSpec.hw_200 2 sample_tree "models"
                       ([] ++ replicate 3 entry_zero) (Z.of_nat (length (@nil model_entry)))
    = Some ([] ++ new ++ drop (length new) (replicate 3 entry_zero),
            Z.of_nat (length (@nil model_entry) + length new)) /\
    length ([] ++ new ++ drop (length new) (replicate 3 entry_zero))
    = length ([] ++ replicate 3 entry_zero) /\
    Z.of_nat (length (@nil model_entry) + length new)
    <= Z.max (Z.of_nat (length (@nil model_entry))) 2.
Proof.
  apply (scan_dir_collects 512 128 ScoreSpec.hw_200 2 ltac:(lia) sample_tree "models" []
           (replicate 3 entry_zero)).
  simpl. lia.
Defined.

(** Of the three model files of the sample tree the first two are
    entered; the one in the hidden directory is not seen. *)
Example scan_sample_tree :
  map (fun f => fst f) (gguf_files sample_tree "models")
  = ["models/a.gguf"; "models/sub/b.gguf"; "models/sub/c.gguf"]%string /\
  option_map (fun r => (map name (take 2 (fst r)), snd r))
             (scan_dir_recursive 512 128 ScoreSpec.hw_200 2 sample_tree "models"
                                 (replicate 3 entry_zero) 0)
  = Some (["a"; "b"]%string, 2).
Proof. split; vm_compute; reflexivity. Qed.

End WalkFacts.

(** ** Scan and selection together *)

Module AutoFacts.
Import HwDetect ModelSelect ModelScan ModelScanSpec DirScan DirScanSpec.
Import SelectFacts ScoreSign WalkFacts.

Section Scan.
Variables path_size name_size : Z.
Variable qsort : list model_entry -> list model_entry.
Hypothesis name_pos : 0 < name_size.

(** What [neuronos_model_scan] returns when its arguments are not NULL and
    the allocation succeeds. *)
Lemma model_scan_result root dir_path hw oc :
  neuronos_model_scan path_size name_size qsort true root
                      (Some dir_path) (Some hw) (Some oc)
  = Some (if Z.of_nat (length (models_found path_size name_size hw root dir_path)) =? 0
          then (None, Some 0)
          else
            (Some (qsort (models_found path_size name_size hw root dir_path)
                   ++ drop (length (models_found path_size name_size hw root dir_path))
                           (replicate (Z.to_nat MAX_SCAN_MODELS) entry_zero)),
             Some (Z.of_nat (length (models_found path_size name_size hw root dir_path))))).
Proof.
  unfold neuronos_model_scan. cbn [negb].
  pose proof (scan_dir_spec path_size name_size hw MAX_SCAN_MODELS name_pos root dir_path []
                (replicate (Z.to_nat MAX_SCAN_MODELS) entry_zero)) as Hwalk.
  cbn [app length] in Hwalk. change (Z.of_nat 0) with 0 in Hwalk.
  rewrite Hwalk by (rewrite length_replicate; simpl; lia). clear Hwalk.
  assert (first_found MAX_SCAN_MODELS []
            (map (entry_for path_size name_size hw) (gguf_files root dir_path))
          = models_found path_size name_size hw root dir_path) as -> by reflexivity.
  set (found := models_found path_size name_size hw root dir_path).
  unfold walk_result. cbn [app length Nat.add].
  destruct (Z.of_nat (length found) =? 0) eqn:E; [reflexivity|].
  rewrite Nat2Z.id, take_app_length, drop_app_length. reflexivity.
Qed.

(** Property X21. Scan and selection together, as the commands scan and auto use
    them: [neuronos_model_scan] returns NULL and the count 0 when no model
    file is below the directory; otherwise, the model files having sizes
    up to 3*10^12 MB, the budget being an [int64_t] and [qsort] leaving
    the entries found in the order it was asked for, the array holds the
    entries found and [neuronos_model_select_best] returns NULL exactly
    when none of them fits in RAM, and otherwise an entry that fits and
    whose score no other fitting entry exceeds. *)
Theorem auto_selects_best (root : fs_node) (dir_path : string) (hw : hw_info) (oc : Z) :
  model_budget_mb hw < 2 ^ 63 ->
  Forall (fun f => 0 <= file_size_mb_of (snd f) <= 3000000000000)
         (gguf_files root dir_path) ->
  qsort (models_found path_size name_size hw root dir_path)
  ≡ₚ models_found path_size name_size hw root dir_path ->
  sorted_desc (qsort (models_found path_size name_size hw root dir_path)) ->
  match neuronos_model_scan path_size name_size qsort true root
                            (Some dir_path) (Some hw) (Some oc) with
  | Some (None, count) =>
      models_found path_size name_size hw root dir_path = [] /\ count = Some 0
  | Some (Some models, count) =>
      models_found path_size name_size hw root dir_path <> [] /\
      count = Some (Z.of_nat (length (models_found path_size name_size hw root dir_path))) /\
      take (length (models_found path_size name_size hw root dir_path)) models
      ≡ₚ models_found path_size name_size hw root dir_path /\
      match neuronos_model_select_best
              (Some models)
              (Z.of_nat (length (models_found path_size name_size hw root dir_path))) with
      | Some (Some k) =>
          exists e, models !! k = Some e /\
                    e ∈ models_found path_size name_size hw root dir_path /\
                    fits_in_ram e = true /\
                    forall e', e' ∈ models_found path_size name_size hw root dir_path ->
                               fits_in_ram e' = true -> fgt (score e') (score e) = false
      | Some None =>
          forall e, e ∈ models_found path_size name_size hw root dir_path ->
                    fits_in_ram e = false
      | None => False
      end
  | None => False
  end.
Proof.
  intros Hbud Hsizes Hperm Hsorted. rewrite model_scan_result.
  set (found := models_found path_size name_size hw root dir_path) in *.
  assert (forall e, e ∈ found -> eligible e = fits_in_ram e) as Hel.
  { intros e He. unfold found, models_found in He.
    apply elem_of_take in He as (i & He & _).
    rewrite list_lookup_fmap in He.
    destruct (gguf_files root dir_path !! i) as [f|] eqn:Hf; [|discriminate].
    injection He as <-.
    rewrite Forall_forall in Hsizes.
    pose proof (Hsizes f (list_elem_of_lookup_2 _ _ _ Hf)) as Hsize.
    apply (scan_entry_score path_size name_size hw (fst f) (snd f));
      [|exact Hsize | exact Hbud].
    rewrite (scan_entry_defined path_size name_size hw name_pos). destruct f; reflexivity. }
  destruct (Z.of_nat (length found) =? 0) eqn:E0.
  { apply Z.eqb_eq in E0. split; [|reflexivity]. destruct found; [reflexivity | simpl in E0; lia]. }
  apply Z.eqb_neq in E0.
  set (rest := drop (length found) (replicate (Z.to_nat MAX_SCAN_MODELS) entry_zero)).
  assert (length (qsort found) = length found) as Hlen by (apply Permutation_length, Hperm).
  assert (found <> []) as Hne by (intros E; rewrite E in E0; simpl in E0; lia).
  split; [exact Hne|]. split; [reflexivity|]. split.
  { rewrite <- Hlen, take_app_length. exact Hperm. }
  assert (forall j e, (j < length found)%nat -> (qsort found ++ rest) !! j = Some e ->
                      qsort found !! j = Some e) as Hfront
    by (intros j e Hj; rewrite lookup_app_l by lia; auto).
  unfold neuronos_model_select_best.
  destruct (Z.of_nat (length found) =? 0) eqn:E; [apply Z.eqb_eq in E; lia|].
  rewrite Nat2Z.id.
  pose proof (select_from_spec (qsort found ++ rest) (length found) 0
                ltac:(rewrite length_app; lia)) as Hspec.
  destruct (select_from (qsort found ++ rest) 0 (length found)) as [[k|]|]; [| |exact Hspec].
  - destruct Hspec as (Hk & (e & He & Hele) & Hbefore).
    pose proof (Hfront k e ltac:(lia) He) as Heq.
    assert (e ∈ found) as Hin by (rewrite <- Hperm; eapply list_elem_of_lookup_2; exact Heq).
    exists e. split; [exact He|]. split; [exact Hin|].
    split; [rewrite <- (Hel e Hin); exact Hele|].
    intros e' Hin' Hfit'.
    assert (e' ∈ qsort found) as Hq by (rewrite Hperm; exact Hin').
    apply list_elem_of_lookup_1 in Hq as [j Hj].
    pose proof (lookup_lt_Some _ _ _ Hj) as Hjlen.
    destruct (Nat.lt_trichotomy j k) as [Hlt | [-> | Hgt]].
    + assert (eligible e' = false) as Hno
        by (apply (Hbefore j e'); [lia | rewrite lookup_app_l by lia; exact Hj]).
      rewrite (Hel e' Hin') in Hno. congruence.
    + rewrite Heq in Hj. injection Hj as <-. apply SFltb_irrefl.
    + specialize (Hsorted k j e e' Hgt Heq Hj). unfold compare_models_desc in Hsorted.
      destruct (fgt (score e') (score e)); [lia | reflexivity].
  - intros e Hin.
    assert (e ∈ qsort found) as Hq by (rewrite Hperm; exact Hin).
    apply list_elem_of_lookup_1 in Hq as [j Hj].
    pose proof (lookup_lt_Some _ _ _ Hj) as Hjlen.
    rewrite <- (Hel e Hin).
    apply (Hspec j e); [lia | rewrite lookup_app_l by lia; exact Hj].
Qed.

End Scan.

Lemma insert_desc_perm e l : insert_desc e l ≡ₚ e :: l.
Proof.
  induction l as [|x l IH]; [reflexivity|]. cbn [insert_desc].
  destruct (fgt (score e) (score x)); [reflexivity|].
  rewrite IH. apply Permutation_swap.
Qed.

Lemma sort_desc_perm l : sort_desc l ≡ₚ l.
Proof.
  induction l as [|x l IH]; [reflexivity|]. unfold sort_desc in *. cbn [foldr].
  rewrite insert_desc_perm, IH. reflexivity.
Qed.

Lemma auto_selects_best_witness :
  match neuronos_model_scan 512 128 sort_desc true sample_tree
                            (Some "models"%string) (Some hw_2000) (Some 0) with
  | Some (None, count) =>
      models_found 512 128 hw_2000 sample_tree "models" = [] /\ count = Some 0
  | Some (Some models, count) =>
      models_found 512 128 hw_2000 sample_tree "models" <> [] /\
      count = Some (Z.of_nat (length (models_found 512 128 hw_2000 sample_tree "models"))) /\
      take (length (models_found 512 128 hw_2000 sample_tree "models")) models
      ≡ₚ models_found 512 128 hw_2000 sample_tree "models" /\
      match neuronos_model_select_best
              (Some models)
              (Z.of_nat (length (models_found 512 128 hw_2000 sample_tree "models"))) with
      | Some (Some k) =>
          exists e, models !! k = Some e /\
                    e ∈ models_found 512 128 hw_2000 sample_tree "models" /\
                    fits_in_ram e = true /\
                    forall e', e' ∈ models_found 512 128 hw_2000 sample_tree "models" ->
                               fits_in_ram e' = true -> fgt (score e') (score e) = false
      | Some None =>
          forall e, e ∈ models_found 512 128 hw_2000 sample_tree "models" ->
                    fits_in_ram e = false
      | None => False
      end
  | None => False
  end.
Proof.
  apply (auto_selects_best 512 128 sort_desc ltac:(lia) sample_tree "models" hw_2000 0).
  - vm_compute. reflexivity.
  - repeat constructor; vm_compute; discriminate.
  - apply sort_desc_perm.
  - intros i j ei ej Hij Hi Hj. vm_compute in Hi, Hj.
    destruct i as [|[|[|i]]]; destruct j as [|[|[|j]]]; try lia; try discriminate;
      injection Hi as <-; injection Hj as <-; vm_compute; discriminate.
Defined.

(** In the sample tree the model of 1000 MB is selected: the one of 2000
    MB does not fit the budget of 2000 MB, the empty one scores less. *)
Example auto_sample :
  option_map (fun r => option_map (map name) (fst r))
             (neuronos_model_scan 512 128 sort_desc true sample_tree
                                  (Some "models"%string) (Some hw_2000) (Some 0))
  = Some (Some (["a"; "c"; "b"]%string ++ replicate 125 EmptyString)) /\
  match neuronos_model_scan 512 128 sort_desc true sample_tree
                            (Some "models"%string) (Some hw_2000) (Some 0) with
  | Some (models, _) => neuronos_model_select_best models 3
  | None => None
  end = Some (Some 0%nat).
Proof. split; vm_compute; reflexivity. Qed.

End AutoFacts.

(** ** Reading /proc/meminfo *)

Module ProcFacts.
Import ToolRegistry CString ProcFile ToolSpec ProcFileSpec ParseFacts ToolFacts.

Lemma pretty_char_digit x :
  (x < 10)%N ->
  is_digit (pretty_N_char x) = true /\
  Z.of_nat (nat_of_ascii (pretty_N_char x)) - 48 = Z.of_N x.
Proof.
  intros Hx.
  assert (x = 0 \/ x = 1 \/ x = 2 \/ x = 3 \/ x = 4 \/ x = 5 \/ x = 6 \/ x = 7
          \/ x = 8 \/ x = 9)%N as Hc by lia.
  repeat (destruct Hc as [-> | Hc]; [split; reflexivity|]). subst x. split; reflexivity.
Qed.

(** The decimal digits are read back, most significant digit first. *)
Lemma digits_value_go x : forall s t,
  digits_value 0 (pretty_N_go x s +:+ t) = digits_value (Z.of_N x) (s +:+ t).
Proof.
  induction (N.lt_wf_0 x) as [x _ IH]. intros s t.
  assert (x = 0 \/ 0 < x)%N as [-> | Hpos] by lia.
  - rewrite pretty_N_go_0. reflexivity.
  - rewrite pretty_N_go_step by exact Hpos.
    rewrite IH by (apply N.div_lt; lia).
    rewrite str_app_cons. cbn [digits_value].
    destruct (pretty_char_digit (x mod 10)%N) as [Hd Hv]; [apply N.mod_lt; lia|].
    rewrite Hd, Hv. f_equal.
    pose proof (N.div_mod x 10 ltac:(lia)) as Hdm. lia.
Qed.

Lemma all_digits_go x : forall s, all_digits s = true -> all_digits (pretty_N_go x s) = true.
Proof.
  induction (N.lt_wf_0 x) as [x _ IH]. intros s Hs.
  assert (x = 0 \/ 0 < x)%N as [-> | Hpos] by lia.
  - rewrite pretty_N_go_0. exact Hs.
  - rewrite pretty_N_go_step by exact Hpos. apply IH; [apply N.div_lt; lia|].
    cbn [all_digits]. rewrite Hs.
    destruct (pretty_char_digit (x mod 10)%N) as [-> _]; [apply N.mod_lt; lia | reflexivity].
Qed.

Lemma nonempty_go x : forall s, (0 < x)%N \/ s <> EmptyString -> pretty_N_go x s <> EmptyString.
Proof.
  induction (N.lt_wf_0 x) as [x _ IH]. intros s Hs.
  assert (x = 0 \/ 0 < x)%N as [-> | Hpos] by lia.
  - rewrite pretty_N_go_0. destruct Hs as [Hs | Hs]; [lia | exact Hs].
  - rewrite pretty_N_go_step by exact Hpos. apply IH; [apply N.div_lt; lia|].
    right. discriminate.
Qed.

Lemma length_go (k : nat) : forall x s,
  (x < 10 ^ N.of_nat k)%N ->
  (String.length (pretty_N_go x s) <= String.length s + k)%nat.
Proof.
  induction k as [|k IH]; intros x s Hx.
  - assert (x = 0)%N as -> by (simpl in Hx; lia). rewrite pretty_N_go_0. lia.
  - assert (x = 0 \/ 0 < x)%N as [-> | Hpos] by lia.
    + rewrite pretty_N_go_0. lia.
    + rewrite pretty_N_go_step by exact Hpos.
      etransitivity; [apply IH|cbn [String.length]; lia].
      apply N.Div0.div_lt_upper_bound.
      replace (N.of_nat (S k)) with (N.succ (N.of_nat k)) in Hx by lia.
      rewrite N.pow_succ_r' in Hx. exact Hx.
Qed.

(** What is needed of the decimal form of a value in [0, 2^63). *)
Lemma pretty_decimal (n : Z) :
  0 <= n < 2 ^ 63 ->
  all_digits (pretty n) = true /\ pretty n <> EmptyString /\
  (String.length (pretty n) <= 19)%nat /\
  forall t, digits_value 0 (pretty n +:+ t) = digits_value n t.
Proof.
  intros Hn. destruct n as [|p|p]; [| |lia].
  - repeat split; [discriminate | simpl; lia].
  - change (pretty (Z.pos p)) with (pretty_N_go (N.pos p) EmptyString).
    split; [apply all_digits_go; reflexivity|].
    split; [apply nonempty_go; left; lia|].
    split.
    + apply (length_go 19 (N.pos p) EmptyString).
      change (10 ^ N.of_nat 19)%N with 10000000000000000000%N. lia.
    + intros t. rewrite digits_value_go. reflexivity.
Qed.

Lemma digits_value_ends n t : ends_number t = true -> digits_value n t = n.
Proof.
  destruct t as [|c t]; [reflexivity|]. cbn [ends_number digits_value].
  destruct (is_digit c); [discriminate | reflexivity].
Qed.

Lemma digit_not_blank c : is_digit c = true -> is_blank c = false.
Proof.
  destruct c as [[] [] [] [] [] [] [] []]; vm_compute; intros; congruence.
Qed.

Lemma digit_not_space c :
  is_digit c = true ->
  is_space c = false /\ Ascii.eqb c "-"%char = false /\ Ascii.eqb c "+"%char = false.
Proof.
  destruct c as [[] [] [] [] [] [] [] []]; vm_compute; intros; repeat split; congruence.
Qed.

Lemma digit_not_eol c : is_digit c = true -> is_eol (Some c) = false.
Proof.
  destruct c as [[] [] [] [] [] [] [] []]; vm_compute; intros; congruence.
Qed.

(** [atoll] on a decimal number followed by something else. *)
Lemma atoll_decimal (n : Z) (t : string) :
  0 <= n < 2 ^ 63 -> ends_number t = true -> atoll (pretty n +:+ t) = Some n.
Proof.
  intros Hn Ht. destruct (pretty_decimal n Hn) as (Hall & Hne & _ & Hval).
  unfold atoll. specialize (Hval t). rewrite (digits_value_ends n t Ht) in Hval.
  destruct (pretty n) as [|c p] eqn:Hp; [congruence|].
  cbn [all_digits] in Hall. apply andb_true_iff in Hall as [Hc _].
  destruct (digit_not_space c Hc) as (Hs & Hm & Hpl).
  rewrite str_app_cons. cbn [skip_space]. rewrite Hs, Hm, Hpl.
  rewrite str_app_cons in Hval. rewrite Hval.
  unfold INT64_MIN, INT64_MAX.
  destruct (- 2 ^ 63 <=? n) eqn:H1; [|apply Z.leb_gt in H1; lia].
  destruct (n <=? 2 ^ 63 - 1) eqn:H2; [|apply Z.leb_gt in H2; lia].
  reflexivity.
Qed.

Lemma skip_blanks_app b : forall p,
  all_blank b = true -> skip_blanks p = p -> skip_blanks (b +:+ p) = p.
Proof.
  induction b as [|c b IH]; intros p Hb Hp.
  - rewrite str_app_nil_l. exact Hp.
  - cbn [all_blank] in Hb. apply andb_true_iff in Hb as [Hc Hb].
    rewrite str_app_cons. cbn [skip_blanks]. rewrite Hc. apply IH; assumption.
Qed.

(** The trimming loop stops at the latest behind a character that is no
    line end. *)
Lemma trim_len_ge out k : forall len,
  (k <= len)%nat ->
  (0 < k)%nat -> is_eol (String.get (k - 1) out) = false ->
  (k <= trim_len out len <= len)%nat.
Proof.
  induction len as [|len IH]; intros Hk Hpos Hget; [lia|].
  cbn [trim_len]. destruct (is_eol (String.get len out)) eqn:He; [|lia].
  assert (k <> S len) as Hne.
  { intros ->. replace (S len - 1)%nat with len in Hget by lia. congruence. }
  assert (k <= len)%nat as Hk' by lia.
  specialize (IH Hk' Hpos Hget). lia.
Qed.

Lemma get_all_digits p : forall k,
  all_digits p = true -> (k < String.length p)%nat ->
  exists c, String.get k p = Some c /\ is_digit c = true.
Proof.
  induction p as [|a p IH]; intros k Hall Hk; [simpl in Hk; lia|].
  cbn [all_digits] in Hall. apply andb_true_iff in Hall as [Ha Hall].
  destruct k as [|k]; [exists a; split; [reflexivity | exact Ha]|].
  cbn [String.get]. apply IH; [exact Hall | simpl in Hk; lia].
Qed.

Lemma copy_app_ge p : forall t m,
  (String.length p <= m)%nat ->
  copy (p +:+ t) m = p +:+ copy t (m - String.length p).
Proof.
  unfold copy. induction p as [|a p IH]; intros t m Hm.
  - rewrite !str_app_nil_l. cbn [String.length]. f_equal. lia.
  - destruct m as [|m]; [simpl in Hm; lia|]. rewrite !str_app_cons.
    cbn [String.substring String.length]. f_equal.
    rewrite IH by (simpl in Hm; lia). reflexivity.
Qed.

Lemma ends_number_copy t m : ends_number t = true -> ends_number (copy t m) = true.
Proof.
  unfold copy. destruct t as [|c t]; destruct m as [|m]; intros Ht; try reflexivity.
  exact Ht.
Qed.

(** The value of the line of the key. *)
Lemma line_value_number label blanks n unit :
  0 <= n < 2 ^ 63 ->
  free_of COLONc label = true -> all_blank blanks = true ->
  ends_number (unit +:+ LFs) = true ->
  exists v t,
    line_value (label +:+ String COLONc (blanks +:+ pretty n +:+ unit +:+ LFs)) 64 = Some v /\
    v = pretty n +:+ t /\ ends_number t = true.
Proof.
  intros Hn Hlabel Hblank Hunit.
  destruct (pretty_decimal n Hn) as (Hall & Hne & Hlen & _).
  unfold line_value.
  rewrite strchr_skip_free by exact Hlabel. rewrite strchr_here, ptr_add_1.
  assert (skip_blanks (pretty n +:+ unit +:+ LFs) = pretty n +:+ unit +:+ LFs) as Hstop.
  { destruct (pretty n) as [|c p]; [congruence|].
    cbn [all_digits] in Hall. apply andb_true_iff in Hall as [Hc _].
    rewrite str_app_cons. cbn [skip_blanks]. rewrite (digit_not_blank c Hc). reflexivity. }
  rewrite (skip_blanks_app blanks _ Hblank Hstop).
  set (val := pretty n +:+ unit +:+ LFs).
  assert (String.length (pretty n) <= trim_len val (String.length val) <= String.length val)%nat
    as Htrim.
  { apply trim_len_ge.
    - unfold val. rewrite str_length_app. lia.
    - destruct (pretty n); [congruence | simpl; lia].
    - assert (String.length (pretty n) - 1 < String.length (pretty n))%nat as Hk
        by (destruct (pretty n); [congruence | simpl; lia]).
      unfold val. rewrite get_app_l by exact Hk.
      destruct (get_all_digits (pretty n) _ Hall Hk) as (c & -> & Hc).
      apply digit_not_eol. exact Hc. }
  set (len := if (64 <=? trim_len val (String.length val))%nat then (64 - 1)%nat
              else trim_len val (String.length val)).
  assert (String.length (pretty n) <= len)%nat as Hlen'.
  { unfold len. destruct (64 <=? trim_len val (String.length val))%nat; lia. }
  exists (copy val len), (copy (unit +:+ LFs) (len - String.length (pretty n))).
  split; [reflexivity|]. split.
  - unfold val. apply copy_app_ge. exact Hlen'.
  - apply ends_number_copy. exact Hunit.
Qed.

Lemma fgets_line l rest :
  whole_line l = true ->
  fgets 512 (l +:+ LFs +:+ rest) = Some (l +:+ LFs) /\
  ptr_add (l +:+ LFs +:+ rest) (String.length (l +:+ LFs)) = rest.
Proof.
  intros Hl. unfold whole_line in Hl. apply andb_true_iff in Hl as [Hfree Hlen].
  apply Nat.ltb_lt in Hlen. split.
  - unfold fgets, LFs.
    replace (l +:+ String LFc EmptyString +:+ rest) with (l +:+ String LFc rest)
      by reflexivity.
    assert (line_prefix (512 - 1) (l +:+ String LFc rest) = l +:+ String LFc EmptyString) as ->
      by (apply line_prefix_line; [exact Hfree | lia]).
    destruct l; reflexivity.
  - rewrite <- str_app_assoc. apply ptr_add_app.
Qed.

Lemma strstr_app h n : forall t,
  ModelSelect.strstr h n <> None -> ModelSelect.strstr (h +:+ t) n <> None.
Proof.
  induction h as [|a h IH]; intros t Hh.
  - cbn [ModelSelect.strstr] in Hh. destruct n as [|b n]; [|cbn in Hh; congruence].
    rewrite str_app_nil_l. destruct t; cbn; congruence.
  - rewrite str_app_cons. cbn [ModelSelect.strstr] in *.
    destruct (String.prefix n (String a h)) eqn:Hp.
    + assert (String.prefix n (String a (h +:+ t)) = true) as ->; [|congruence].
      clear -Hp. change (String a (h +:+ t)) with (String a h +:+ t)%string.
      revert Hp. generalize (String a h). clear. induction n as [|b n IH]; intros s Hp.
      * destruct (s +:+ t); reflexivity.
      * destruct s as [|c s]; [discriminate|]. rewrite str_app_cons. cbn [String.prefix] in *.
        destruct (ascii_dec b c); [apply IH; exact Hp | discriminate].
    + destruct (String.prefix n (String a (h +:+ t))); [congruence|]. apply IH. exact Hh.
Qed.

Lemma text_of_length lines : (length lines <= String.length (text_of lines))%nat.
Proof.
  induction lines as [|l lines IH]; [simpl; lia|].
  cbn [text_of length]. rewrite !str_length_app. unfold LFs at 1. cbn [String.length]. lia.
Qed.

(** The loop passes over the lines before the one of the key. *)
Lemma read_loop_skips key buflen line rest before : forall rounds,
  Forall (fun l => whole_line l = true /\ passed_over key l = true) before ->
  whole_line line = true ->
  (length before < rounds)%nat ->
  ModelSelect.strstr (line +:+ LFs) key <> None ->
  line_value (line +:+ LFs) buflen <> None ->
  read_loop rounds key buflen (text_of before +:+ line +:+ LFs +:+ rest)
  = line_value (line +:+ LFs) buflen.
Proof.
  induction before as [|l before IH]; intros rounds Hbefore Hline Hrounds Hkey Hval.
  - destruct rounds as [|rounds]; [simpl in Hrounds; lia|].
    cbn [text_of]. rewrite str_app_nil_l. cbn [read_loop].
    destruct (fgets_line line rest Hline) as [-> _].
    destruct (ModelSelect.strstr (line +:+ LFs) key); [|congruence].
    destruct (line_value (line +:+ LFs) buflen); [reflexivity | congruence].
  - destruct rounds as [|rounds]; [simpl in Hrounds; lia|].
    apply Forall_cons in Hbefore as [[Hl Hpass] Hbefore].
    cbn [text_of].
    replace ((l +:+ LFs +:+ text_of before) +:+ line +:+ LFs +:+ rest)
      with (l +:+ LFs +:+ (text_of before +:+ line +:+ LFs +:+ rest))
      by (rewrite !str_app_assoc; reflexivity).
    cbn [read_loop].
    destruct (fgets_line l (text_of before +:+ line +:+ LFs +:+ rest) Hl) as [-> ->].
    specialize (IH rounds Hbefore Hline ltac:(simpl in Hrounds; lia) Hkey Hval).
    unfold passed_over in Hpass. apply orb_true_iff in Hpass as [Hpass | Hpass].
    + destruct (ModelSelect.strstr (l +:+ LFs) key); [discriminate | exact IH].
    + unfold line_value.
      destruct (strchr (l +:+ LFs) COLONc); [discriminate|].
      destruct (ModelSelect.strstr (l +:+ LFs) key); exact IH.
Qed.

(** Property X22. [read_meminfo_kb] returns the number of the first line of
    /proc/meminfo that mentions the key and has a colon: for a file of
    lines of fewer than 511 characters in which that line reads
    [label: n unit] with [0 <= n < 2^63], the result is [n]. *)
Theorem read_meminfo_kb_value (fopen : string -> option string) (key : string)
  (before : list string) (label blanks unit rest : string) (n : Z) :
  let line := label +:+ String COLONc (blanks +:+ pretty n +:+ unit) in
  0 <= n < 2 ^ 63 ->
  Forall (fun l => whole_line l = true /\ passed_over key l = true) before ->
  whole_line line = true ->
  ModelSelect.strstr label key <> None ->
  free_of COLONc label = true -> all_blank blanks = true ->
  ends_number unit = true ->
  fopen "/proc/meminfo"%string = Some (text_of before +:+ line +:+ LFs +:+ rest) ->
  read_meminfo_kb fopen key = Some n.
Proof.
  intros line Hn Hbefore Hline Hkey Hlabel Hblank Hunit Hopen.
  assert (ends_number (unit +:+ LFs) = true) as Hunit'.
  { destruct unit; [reflexivity | exact Hunit]. }
  destruct (line_value_number label blanks n unit Hn Hlabel Hblank Hunit')
    as (v & t & Hv & -> & Ht).
  assert (line +:+ LFs = label +:+ String COLONc (blanks +:+ pretty n +:+ unit +:+ LFs)) as Hshape.
  { unfold line. rewrite str_app_assoc, str_app_cons, !str_app_assoc. reflexivity. }
  unfold read_meminfo_kb, read_proc_line. rewrite Hopen.
  rewrite read_loop_skips.
  - rewrite Hshape, Hv. apply atoll_decimal; assumption.
  - exact Hbefore.
  - exact Hline.
  - rewrite !str_length_app. change (String.length LFs) with 1%nat.
    pose proof (text_of_length before). lia.
  - unfold line. rewrite str_app_assoc. apply strstr_app. exact Hkey.
  - rewrite Hshape, Hv. discriminate.
Qed.

Lemma read_meminfo_kb_value_witness :
  read_meminfo_kb (fun _ => Some meminfo_sample) "MemTotal" = Some 16384000.
Proof.
  apply (read_meminfo_kb_value (fun _ => Some meminfo_sample) "MemTotal"
           ["SwapTotal:       2097148 kB"%string] "MemTotal" "       " " kB"
           (text_of ["MemFree:         1048576 kB"%string]) 16384000).
  - lia.
  - repeat constructor.
  - reflexivity.
  - vm_compute. discriminate.
  - reflexivity.
  - reflexivity.
  - reflexivity.
  - reflexivity.
Defined.

(** The key is searched anywhere in the line: a line about another value
    whose label contains the key is taken when it comes first. *)
Example read_meminfo_kb_substring :
  read_meminfo_kb
    (fun _ => Some (text_of ["SwapCached:        12 kB"; "Cached:        4096 kB"]%string))
    "Cached" = Some 12.
Proof. vm_compute. reflexivity. Qed.

End ProcFacts.

(** ** The number of physical cores *)

Module CoresFacts.
Import HwCores HwCoresSpec.

(** The literal [0.6] is the [double] nearest to 6/10. *)
Example lit_0_6_nearest :
  SFdiv 53 1024 (f64_of_Z 6) (f64_of_Z 10) = lit_0_6.
Proof. vm_compute. reflexivity. Qed.

Lemma check_cores_ok : check_cores 4097 = true.
Proof. vm_compute. reflexivity. Qed.

Lemma check_cores_spec bound n :
  check_cores bound = true -> 8 < n < bound -> n_cores_physical n = Some (3 * n / 5).
Proof.
  intros Hall Hn. unfold check_cores in Hall.
  apply (forallb_seqZ _ bound) with (z := n) in Hall; [|lia].
  assert ((8 <? n) = true) as E by (apply Z.ltb_lt; lia).
  rewrite E in Hall.
  destruct (n_cores_physical n) as [p|]; [|discriminate].
  f_equal. apply Z.eqb_eq, Hall.
Qed.

(** Property X23. The heuristic for the physical cores: up to 8 logical cores all
    of them count; from 9 to 4096 logical cores the product with the
    [double] 0.6, cut to an [int], is exactly three fifths of the number
    rounded down (16 logical cores give 9, 10 give 6), so that at least
    one and at most all of the cores count. *)
Theorem physical_cores_rule (n : Z) :
  (n <= 8 -> n_cores_physical n = Some n) /\
  (8 < n <= 4096 -> n_cores_physical n = Some (3 * n / 5)) /\
  (1 <= n <= 4096 -> exists p, n_cores_physical n = Some p /\ 1 <= p <= n).
Proof.
  assert (8 < n <= 4096 -> n_cores_physical n = Some (3 * n / 5)) as Hbig
    by (intros Hn; apply (check_cores_spec 4097 n check_cores_ok); lia).
  assert (n <= 8 -> n_cores_physical n = Some n) as Hsmall.
  { intros Hn. unfold n_cores_physical.
    destruct (8 <? n) eqn:E; [apply Z.ltb_lt in E; lia | reflexivity]. }
  split; [exact Hsmall|]. split; [exact Hbig|].
  intros Hn. destruct (Z.le_gt_cases n 8) as [H8 | H8].
  - exists n. split; [apply Hsmall, H8 | lia].
  - exists (3 * n / 5). split; [apply Hbig; lia|].
    clear Hbig Hsmall. split.
    + apply Z.div_le_lower_bound; lia.
    + apply Z.div_le_upper_bound; lia.
Qed.

Lemma physical_cores_rule_witness :
  n_cores_physical 4 = Some 4 /\ n_cores_physical 16 = Some (3 * 16 / 5).
Proof.
  split.
  - apply (proj1 (physical_cores_rule 4)). lia.
  - apply (proj1 (proj2 (physical_cores_rule 16))). lia.
Defined.

End CoresFacts.

(** ** The matrix kernels, and the quantizer together with the dot product *)

Lemma for_loop_ext {St : Type} (f g : Z -> St -> option St) (n : nat) : forall i s,
  (forall k s', i <= k < i + Z.of_nat n -> f k s' = g k s') ->
  for_loop f i n s = for_loop g i n s.
Proof.
  induction n as [|n IH]; intros i s H; [reflexivity|].
  cbn [for_loop]. rewrite (H i s) by lia.
  destruct (g i s) as [s1|]; [|reflexivity]. cbn [mbind option_bind].
  apply IH. intros k s' Hk. apply H. lia.
Qed.

Module GemvFacts.
Import HalScalar HalGemv KernelSpec SumFacts DotFacts.

Lemma size_t_id z : 0 <= z < 2 ^ 64 -> size_t z = z.
Proof. intros H. unfold size_t. apply Z.mod_small. exact H. Qed.

Lemma store_float_aligned (s : list spec_float) k v :
  0 <= k < Z.of_nat (length s) ->
  store_float_at s (k * 4) v = Some (<[Z.to_nat k := v]> s).
Proof.
  intros Hk. unfold store_float_at. rewrite Z.mod_mul by lia.
  change (0 =? 0) with true. cbv iota. rewrite Z.div_mul by lia.
  apply write_in_range, Hk.
Qed.

(** Property X24. [scalar_gemv_i2_i8] (and [scalar_gemm_i2_i8], which only calls
    it) for [n] a multiple of 128 and an output stride of [4 * stride]
    bytes: row [row] of the packed matrix starts at byte [row * n / 4],
    and its raw dot product with the activations, as [float] of the
    [int32] accumulator, is stored in element [row * stride] of the
    output; every other element of the output is left as it was. *)
Theorem gemv_rows
  (n nb : Z) (s : list spec_float) (stride : Z) (vx vy : list Z) (nr nc : Z) :
  n = 128 * nb -> 0 <= nb -> 1 <= stride -> 0 <= nr ->
  (nr - 1) * stride < Z.of_nat (length s) ->
  4 * Z.of_nat (length s) < 2 ^ 64 -> Z.of_nat (length vx) < 2 ^ 64 ->
  n <= Z.of_nat (length vy) -> nr * (32 * nb) <= Z.of_nat (length vx) ->
  exists s',
    scalar_gemv_i2_i8 n s (4 * stride) vx vy nr nc = Some s' /\
    scalar_gemm_i2_i8 n s (4 * stride) vx vy nr nc = Some s' /\
    length s' = length s /\
    (forall row, 0 <= row < nr ->
       read s' (row * stride)
       = Some (f32_of_Z (wrap32 (raw_dot vx vy (row * (32 * nb)) n)))) /\
    (forall i, (forall row, 0 <= row < nr -> i <> row * stride) -> read s' i = read s i).
Proof.
  intros Hn Hnb Hstride Hnr Hs Hs64 Hx64 Hvy Hvx.
  unfold scalar_gemm_i2_i8, scalar_gemv_i2_i8. cbv zeta.
  assert (Z.quot n SCALAR_QK_I2_S = nb) as ->
    by (unfold SCALAR_QK_I2_S; rewrite Z.quot_div_nonneg by lia; subst n;
        rewrite Z.mul_comm, Z.div_mul; lia).
  destruct (for_loop_inv
              (fun row s =>
                 let x_row := size_t (row * size_t (nb * 32)) in
                 sum ← dot_row vx vy x_row nb;
                 store_float_at s (size_t (row * (4 * stride))) (f32_of_Z sum))
              (fun r s0 =>
                 length s0 = length s /\
                 (forall row, 0 <= row < r ->
                    read s0 (row * stride)
                    = Some (f32_of_Z (wrap32 (raw_dot vx vy (row * (32 * nb)) n)))) /\
                 (forall i, (forall row, 0 <= row < r -> i <> row * stride) ->
                            read s0 i = read s i))
              (Z.to_nat nr) 0 s) as (s' & Hrun & Hlen & Hrows & Hrest).
  - split; [reflexivity|]. split; [intros row Hr; lia | reflexivity].
  - intros r s0 Hr (Hlen & Hrows & Hrest). cbv zeta.
    assert (0 <= 32 * nb <= Z.of_nat (length vx)) as Hrow1 by nia.
    assert (0 <= r * (32 * nb) /\ r * (32 * nb) + 32 * nb <= Z.of_nat (length vx)) as Hrow2 by nia.
    assert (0 <= r * stride < Z.of_nat (length s)) as Hout by nia.
    rewrite (size_t_id (nb * 32)) by lia.
    replace (r * (nb * 32)) with (r * (32 * nb)) by lia.
    rewrite (size_t_id (r * (32 * nb))) by lia.
    rewrite dot_row_spec by lia. cbn [mbind option_bind].
    replace (r * (4 * stride)) with (r * stride * 4) by lia.
    rewrite (size_t_id (r * stride * 4)) by lia.
    rewrite store_float_aligned by lia.
    eexists. split; [reflexivity|]. split; [rewrite length_insert; exact Hlen|]. split.
    + intros row Hrow. destruct (decide (row = r)) as [->|Hne].
      * rewrite read_insert_eq by lia. subst n. reflexivity.
      * rewrite read_insert_ne by nia. apply Hrows. lia.
    + intros i Hi. rewrite read_insert_ne; [apply Hrest; intros row Hrow; apply Hi; lia | lia |].
      intros Heq. apply (Hi r); [lia | congruence].
  - exists s'. split; [exact Hrun|]. split; [exact Hrun|]. split; [exact Hlen|]. split.
    + intros row Hrow. apply Hrows. lia.
    + intros i Hi. apply Hrest. intros row Hrow. apply Hi. lia.
Qed.

Lemma gemv_rows_witness :
  exists s',
    scalar_gemv_i2_i8 128 [fzero; fzero; fzero] (4 * 2) (replicate 64 170) (replicate 128 1) 2 0
    = Some s' /\
    scalar_gemm_i2_i8 128 [fzero; fzero; fzero] (4 * 2) (replicate 64 170) (replicate 128 1) 2 0
    = Some s' /\
    length s' = length [fzero; fzero; fzero] /\
    (forall row, 0 <= row < 2 ->
       read s' (row * 2)
       = Some (f32_of_Z (wrap32 (raw_dot (replicate 64 170) (replicate 128 1)
                                         (row * (32 * 1)) 128)))) /\
    (forall i, (forall row, 0 <= row < 2 -> i <> row * 2) ->
               read s' i = read [fzero; fzero; fzero] i).
Proof.
  apply (gemv_rows 128 1 [fzero; fzero; fzero] 2 (replicate 64 170) (replicate 128 1) 2 0);
    try reflexivity; try lia; simpl; lia.
Defined.

(** Property X25. With an output stride of 4 bytes and a weight stride [bx] whose
    quarter is the number of packed bytes of a row, the matrix-vector
    kernel and the dot-product kernel are the same function: same result
    and the same undefined cases. *)
Theorem gemv_agrees_with_vec_dot
  (n : Z) (s : list spec_float) (bs : Z) (vx : list Z) (bx : Z) (vy : list Z)
  (by_ : Z) (nr nc : Z) :
  0 <= n < 2 ^ 31 -> nr < 2 ^ 31 -> Z.quot bx 4 = Z.quot n 128 * 32 ->
  scalar_gemv_i2_i8 n s 4 vx vy nr nc = scalar_vec_dot_i2_i8 n s bs vx bx vy by_ nr /\
  scalar_gemm_i2_i8 n s 4 vx vy nr nc = scalar_vec_dot_i2_i8 n s bs vx bx vy by_ nr.
Proof.
  intros Hn Hnr Hbx.
  assert (scalar_gemv_i2_i8 n s 4 vx vy nr nc = scalar_vec_dot_i2_i8 n s bs vx bx vy by_ nr)
    as H; [|split; exact H].
  unfold scalar_gemv_i2_i8, scalar_vec_dot_i2_i8, SCALAR_QK_I2_S. cbv zeta.
  rewrite Hbx.
  assert (0 <= Z.quot n 128 < 2 ^ 24) as Hnb.
  { rewrite Z.quot_div_nonneg by lia. split; [apply Z.div_pos; lia|].
    apply Z.div_lt_upper_bound; lia. }
  set (nb := Z.quot n 128) in *.
  apply for_loop_ext. intros row s0 Hrow.
  rewrite (size_t_id (nb * 32)) by lia.
  rewrite (size_t_id (row * (nb * 32))) by nia.
  destruct (dot_row vx vy (row * (nb * 32)) nb) as [sum|]; [|reflexivity].
  cbn [mbind option_bind].
  rewrite (size_t_id (row * 4)) by lia.
  unfold store_float_at. rewrite Z.mod_mul by lia.
  change (0 =? 0) with true. cbv iota. rewrite Z.div_mul by lia. reflexivity.
Qed.

Lemma gemv_agrees_with_vec_dot_witness :
  scalar_gemv_i2_i8 256 [fzero; fzero] 4 (replicate 128 170) (replicate 256 1) 2 0
  = scalar_vec_dot_i2_i8 256 [fzero; fzero] 4 (replicate 128 170) 256 (replicate 256 1) 256 2.
Proof.
  apply (proj1 (gemv_agrees_with_vec_dot 256 [fzero; fzero] 4 (replicate 128 170) 256
                  (replicate 256 1) 256 2 0 ltac:(lia) ltac:(lia) eq_refl)).
Defined.

End GemvFacts.

Module QuantDot.
Import HalScalar KernelSpec QuantSpec KernelMoreSpec.
Import SumFacts PackFacts DotFacts QuantFacts QuantizeFacts QuantizeTheorem.

(** The packed bytes that the quantizer leaves decode to the codes of the
    weights. *)
Lemma quantize_packed_codes (src : list spec_float) (nrow n_per_row nb : Z) :
  nrow * n_per_row = 128 * nb -> 0 <= nb -> 128 * nb <= INT64_MAX ->
  Z.of_nat (length src) = 128 * nb ->
  Forall is_f32 src ->
  exists packed m,
    scalar_quantize_i2 true src nrow n_per_row
    = Some (QDone packed (32 * nb) (f32_of_f64 m) (32 * nb + 32)) /\
    Z.of_nat (length packed) = 32 * nb /\
    (forall i w, read src i = Some w -> raw_code packed 0 i = ternary_code w).
Proof.
  intros Hn Hnb Hmaxn Hlen Hvalid. unfold scalar_quantize_i2. cbv zeta.
  rewrite Hn, wrap64_id by (unfold in_int64, INT64_MIN, INT64_MAX in *; lia).
  destruct (max_abs_loop_spec src) as (m & Hrun1 & Hmax & Hnn). rewrite Hlen in Hrun1.
  rewrite Hrun1. cbn [mbind option_bind negb].
  destruct (128 * nb <? 0) eqn:Hneg; [apply Z.ltb_lt in Hneg; lia|].
  destruct (quantize_loop_spec src m) as (q8 & Hrun2 & Hqlen & Hqall & Hq).
  rewrite Hlen in Hrun2. rewrite Hrun2. cbn [mbind option_bind].
  destruct (pack_loop_spec q8 nb Hnb ltac:(lia) Hqall) as (out & Hrun3 & Holen & Hout).
  rewrite Hrun3. cbn [mbind option_bind].
  assert (Z.quot (128 * nb) 4 = 32 * nb) as ->
    by (rewrite Z.quot_div_nonneg by lia; replace (128 * nb) with (32 * nb * 4) by lia;
        apply Z.div_mul; lia).
  exists out, m. split; [reflexivity|]. split; [exact Holen|].
  assert (forall i, 0 <= at_ q8 i <= 3) as Hq3 by (intros i; apply at_range; [lia | exact Hqall]).
  intros i w Hr. pose proof (read_Some_range _ _ _ Hr) as Hi. rewrite Hlen in Hi.
  pose proof (Z.div_mod i 128 ltac:(lia)) as Hdm.
  pose proof (Z.mod_pos_bound i 128 ltac:(lia)) as Hj.
  assert (0 <= i / 128 < nb) as Hb
    by (split; [apply Z.div_pos; lia | apply Z.div_lt_upper_bound; lia]).
  set (b := i / 128) in *. set (j := i mod 128) in *.
  replace i with (128 * b + j) at 1 by lia.
  rewrite raw_code_in_block by lia.
  pose proof (Z.div_mod j 32 ltac:(lia)) as Hdm2.
  pose proof (Z.mod_pos_bound j 32 ltac:(lia)) as Hk.
  assert (0 <= j / 32 <= 3) as Hg
    by (split; [apply Z.div_pos; lia | apply Z.lt_succ_r, Z.div_lt_upper_bound; lia]).
  set (g := j / 32) in *. set (k := j mod 32) in *.
  rewrite Z.add_0_l. rewrite (at_read _ _ _ (Hout b k ltac:(lia) Hk)).
  destruct (fields_of_byte _ _ _ _ (Hq3 (b * 128 + k)) (Hq3 (b * 128 + (32 + k)))
              (Hq3 (b * 128 + (64 + k))) (Hq3 (b * 128 + (96 + k)))) as (E0 & E1 & E2 & E3).
  assert (at_ q8 i = ternary_code w) as Hcode.
  { rewrite (at_read _ _ _ (Hq i w Hr)).
    apply (quantize_one_code src m w Hmax Hnn (read_elem_of _ _ _ Hr)).
    rewrite Forall_forall in Hvalid. apply Hvalid. exact (read_elem_of _ _ _ Hr). }
  rewrite <- Hcode.
  assert (g = 0 \/ g = 1 \/ g = 2 \/ g = 3) as [G | [G | [G | G]]] by lia; rewrite G in *;
    [rewrite E0 | rewrite E1 | rewrite E2 | rewrite E3]; f_equal; lia.
Qed.

Lemma zsum_split f g n : forall i,
  zsum (fun k => (f k + g k)) i n = zsum f i n + zsum g i n.
Proof.
  induction n as [|n IH]; intros i; [reflexivity|]. cbn [zsum]. rewrite IH. lia.
Qed.

(** Property X26. The quantizer and the dot-product kernel together: the kernel,
    run on the bytes that the quantizer packed for [n] weights ([n] a
    multiple of 128 with [384 * n] in the range of [int32]), returns the
    sum of code times activation with the codes 0, 1, 2 of the weights,
    that is the dot product of the ternary values -1, 0, +1 with the
    activations plus the sum of the activations. *)
Theorem quantize_then_dot
  (src : list spec_float) (nrow n_per_row nb : Z) (vy : list Z)
  (s : list spec_float) (bs bx by_ : Z) :
  nrow * n_per_row = 128 * nb -> 0 <= nb -> 384 * (128 * nb) <= INT32_MAX ->
  Z.of_nat (length src) = 128 * nb -> Forall is_f32 src ->
  128 * nb <= Z.of_nat (length vy) -> Forall (fun a => -128 <= a <= 127) vy ->
  (0 < length s)%nat ->
  exists packed scale ret,
    scalar_quantize_i2 true src nrow n_per_row = Some (QDone packed (32 * nb) scale ret) /\
    scalar_vec_dot_i2_i8 (128 * nb) s bs packed bx vy by_ 1
    = Some (<[0%nat := f32_of_Z (zsum (fun i => weight_code src i * at_ vy i)
                                      0 (Z.to_nat (128 * nb)))]> s) /\
    zsum (fun i => weight_code src i * at_ vy i) 0 (Z.to_nat (128 * nb))
    = zsum (fun i => (weight_code src i - 1) * at_ vy i) 0 (Z.to_nat (128 * nb))
      + zsum (at_ vy) 0 (Z.to_nat (128 * nb)).
Proof.
  intros Hn Hnb Hsmall Hlen Hvalid Hvy Hact Hs.
  destruct (quantize_packed_codes src nrow n_per_row nb Hn Hnb
              ltac:(unfold INT64_MAX, INT32_MAX in *; lia) Hlen Hvalid)
    as (packed & m & Hq & Hplen & Hcodes).
  exists packed, (f32_of_f64 m), (32 * nb + 32). split; [exact Hq|]. split.
  - unfold scalar_vec_dot_i2_i8. cbv zeta.
    assert (Z.quot (128 * nb) SCALAR_QK_I2_S = nb) as ->
      by (unfold SCALAR_QK_I2_S; rewrite Z.quot_div_nonneg by lia;
          rewrite Z.mul_comm, Z.div_mul; lia).
    change (Z.to_nat 1) with 1%nat. cbn [for_loop]. rewrite Z.mul_0_l.
    rewrite dot_row_spec by lia. cbn [mbind option_bind].
    rewrite write_in_range by lia. cbn [mbind option_bind].
    change (Z.to_nat 0) with 0%nat.
    rewrite wrap32_id
      by (pose proof (raw_dot_bound packed vy 0 (128 * nb) ltac:(lia) Hact);
          unfold in_int32, INT32_MIN, INT32_MAX in *; lia).
    f_equal. f_equal. f_equal.
    unfold raw_dot. apply zsum_ext. intros i Hi.
    destruct (read_in_range src i ltac:(lia)) as [w Hw].
    unfold weight_code. rewrite Hw, (Hcodes i w Hw). reflexivity.
  - rewrite <- zsum_split. apply zsum_ext. intros i Hi. lia.
Qed.

Lemma quantize_then_dot_witness :
  exists packed scale ret,
    scalar_quantize_i2 true sample_weights 1 128 = Some (QDone packed (32 * 1) scale ret) /\
    scalar_vec_dot_i2_i8 (128 * 1) [fzero] 4 packed 128 (replicate 128 1) 128 1
    = Some (<[0%nat := f32_of_Z (zsum (fun i => weight_code sample_weights i
                                                * at_ (replicate 128 1) i)
                                      0 (Z.to_nat (128 * 1)))]> [fzero]) /\
    zsum (fun i => weight_code sample_weights i * at_ (replicate 128 1) i)
         0 (Z.to_nat (128 * 1))
    = zsum (fun i => (weight_code sample_weights i - 1) * at_ (replicate 128 1) i)
           0 (Z.to_nat (128 * 1))
      + zsum (at_ (replicate 128 1)) 0 (Z.to_nat (128 * 1)).
Proof.
  apply (quantize_then_dot sample_weights 1 128 1 (replicate 128 1) [fzero] 4 128 128).
  - reflexivity.
  - lia.
  - unfold INT32_MAX. lia.
  - reflexivity.
  - unfold sample_weights. apply Forall_app. split.
    + apply Forall_replicate. vm_compute. reflexivity.
    + repeat constructor; vm_compute; reflexivity.
  - simpl. lia.
  - apply Forall_replicate. lia.
  - simpl. lia.
Defined.

End QuantDot.
